(** * doc-agent: the document tools and the POST route, embedded in Rocq

    The development follows [src/utils/agent.ts] (the tool registry handed to
    the hosted model) and the route handler [POST].

    JavaScript strings are sequences of UTF-16 code units.  The embedding uses
    the strings of the Standard Library, whose characters are the 256 code units
    U+0000..U+00FF; on these, [toLowerCase], the regular-expression classes
    [\s], [\w], [\b] and the case folding of the [i] flag are the ones of
    ECMAScript.  Regular expressions are kept as syntax trees and run by a
    backtracking matcher that follows the ECMAScript matcher (continuations,
    greedy quantifiers with the empty check).

    What lies outside the repository is modelled where the tools depend on it
    ([path.extname], [Object.entries], [Array.prototype.sort], [Set],
    [JSON.stringify], [JSON.parse], [Date.prototype.toISOString]) or taken as
    a parameter (the hosted model, the PDF parser, the numerals of Numbers,
    the state of the file system and the clock).  Loops that JavaScript does
    not bound take fuel; the theorems say how much is enough, or that none
    is. *)

From Stdlib Require Import List String Ascii Bool Arith ZArith NArith Lia.
From Stdlib Require Import Floats.SpecFloat DecimalString Permutation Sorted.
Import ListNotations.
Local Open Scope string_scope.
Set Warnings "-register-all".

(* ================================================================== *)
(** * Definitions *)
(* ================================================================== *)

(** ** JavaScript string primitives *)
Module Js.

Definition code (c : ascii) : N := N_of_ascii c.

Definition between (lo hi : N) (c : ascii) : bool :=
  (N.leb lo (code c) && N.leb (code c) hi)%bool.

(** WhiteSpace and LineTerminator code units (what [trim] strips and [\s]
    matches): TAB, LF, VT, FF, CR, SP and NBSP. *)
Definition is_space (c : ascii) : bool :=
  (between 9 13 c || N.eqb (code c) 32 || N.eqb (code c) 160)%bool.

(** [\w] without the unicode flag: [A-Za-z0-9_]. *)
Definition is_word (c : ascii) : bool :=
  (between 97 122 c || between 65 90 c || between 48 57 c
   || N.eqb (code c) 95)%bool.

Definition is_digit (c : ascii) : bool := between 48 57 c.

(** Upper-case letters that have a lower-case partner 32 code units up:
    A-Z and the Latin-1 letters U+00C0..U+00DE without the sign U+00D7. *)
Definition is_upper (c : ascii) : bool :=
  (between 65 90 c
   || (between 192 222 c && negb (N.eqb (code c) 215)))%bool.

Definition is_lower (c : ascii) : bool :=
  (between 97 122 c
   || (between 224 254 c && negb (N.eqb (code c) 247)))%bool.

Definition lower_char (c : ascii) : ascii :=
  if is_upper c then ascii_of_N (code c + 32) else c.

(** [String.prototype.toLowerCase]. *)
Fixpoint toLowerCase (s : string) : string :=
  match s with
  | EmptyString => EmptyString
  | String c s' => String (lower_char c) (toLowerCase s')
  end.

(** [Canonicalize] of a pattern without the unicode flag under [i]: the
    upper-case code unit when upper-casing gives a single code unit.  The
    micro sign and y-diaeresis leave Latin-1 (U+039C, U+0178); sharp s
    upper-cases to two units and stays. *)
Definition canonicalize (ignoreCase : bool) (c : ascii) : N :=
  if ignoreCase then
    if is_lower c then code c - 32
    else if N.eqb (code c) 181 then 924
    else if N.eqb (code c) 255 then 376
    else code c
  else code c.

Fixpoint trimStart (s : string) : string :=
  match s with
  | EmptyString => EmptyString
  | String c s' => if is_space c then trimStart s' else s
  end.

(** [trimEnd]: a character is dropped when it is white space and everything
    after it has been dropped. *)
Fixpoint trimEnd (s : string) : string :=
  match s with
  | EmptyString => EmptyString
  | String c s' =>
      match trimEnd s' with
      | EmptyString => if is_space c then EmptyString else String c EmptyString
      | t => String c t
      end
  end.

Definition trim (s : string) : string := trimEnd (trimStart s).

Fixpoint take (n : nat) (s : string) : string :=
  match n, s with
  | S n', String c s' => String c (take n' s')
  | _, _ => EmptyString
  end.

Fixpoint drop (n : nat) (s : string) : string :=
  match n, s with
  | S n', String _ s' => drop n' s'
  | _, _ => s
  end.

(** [String.prototype.slice(start, end)] on integral arguments: a negative
    index counts from the end, both are clamped to the string. *)
Definition relative_index (len i : Z) : Z :=
  if (i <? 0)%Z then Z.max (len + i) 0 else Z.min i len.

Definition slice (s : string) (start finish : Z) : string :=
  let len := Z.of_nat (String.length s) in
  let from := relative_index len start in
  let to := relative_index len finish in
  take (Z.to_nat (Z.max (to - from) 0)) (drop (Z.to_nat from) s).

(** [Boolean(s)] for a string. *)
Definition truthy_string (s : string) : bool :=
  match s with EmptyString => false | _ => true end.

(** [Array.prototype.join]. *)
Fixpoint join (sep : string) (l : list string) : string :=
  match l with
  | [] => ""
  | [x] => x
  | x :: l' => x ++ sep ++ join sep l'
  end.

(** The decimal numeral of a natural number ([ToString] of an integral
    Number below 2^53). *)
Definition decimal (n : N) : string := NilZero.string_of_uint (N.to_uint n).

Definition first_char (s : string) : option ascii :=
  match s with
  | EmptyString => None
  | String c _ => Some c
  end.

Fixpoint last_char (s : string) : option ascii :=
  match s with
  | EmptyString => None
  | String c EmptyString => Some c
  | String _ s' => last_char s'
  end.

Definition is_space_opt (o : option ascii) : bool :=
  match o with Some c => is_space c | None => false end.

End Js.

(** ** Regular expressions *)
Module Regex.

(** Members of a character class. *)
Inductive citem : Type :=
| One (c : ascii)             (* a literal character *)
| Range (lo hi : ascii)       (* lo-hi *)
| Space                       (* \s *)
| WordChar.                   (* \w *)

Record charset : Type := { invert : bool; items : list citem }.

Inductive regex : Type :=
| Empty                                        (* (?:) *)
| Chr (cs : charset)                           (* x, [...], [^...], \s *)
| Seq (r1 r2 : regex)
| Quant (min : nat) (max : option nat) (r : regex)   (* greedy r{min,max} *)
| WordBoundary                                 (* \b *)
| NotAhead (r : regex).                        (* (?!r) *)

Definition lit (c : ascii) : regex := Chr {| invert := false; items := [One c] |}.
Definition cls (l : list citem) : regex := Chr {| invert := false; items := l |}.
Definition ncls (l : list citem) : regex := Chr {| invert := true; items := l |}.
Definition star (r : regex) : regex := Quant 0 None r.
Definition plus (r : regex) : regex := Quant 1 None r.
Definition opt (r : regex) : regex := Quant 0 (Some 1) r.

(** The pattern that matches the characters of [s] one after the other. *)
Fixpoint literal (s : string) : regex :=
  match s with
  | EmptyString => Empty
  | String c s' => Seq (lit c) (literal s')
  end.

Definition in_item (i : citem) (c : ascii) : bool :=
  match i with
  | One a => Ascii.eqb a c
  | Range lo hi => Js.between (Js.code lo) (Js.code hi) c
  | Space => Js.is_space c
  | WordChar => Js.is_word c
  end.

Definition in_items (l : list citem) (c : ascii) : bool :=
  existsb (fun i => in_item i c) l.

Definition all_chars : list ascii := map ascii_of_nat (seq 0 256).

(** CharacterSetMatcher: some member [a] of the class has the canonical form
    of the input character; [invert] flips the outcome. *)
Definition class_matches (ignoreCase : bool) (cs : charset) (c : ascii) : bool :=
  let found :=
    if ignoreCase then
      existsb (fun a => in_items (items cs) a
                        && N.eqb (Js.canonicalize true a) (Js.canonicalize true c))%bool
              all_chars
    else in_items (items cs) c in
  xorb (invert cs) found.

(** A matcher state: the character before the current position (for [\b]),
    the input from the current position on, and the current index. *)
Record mstate : Type := { prev : option ascii; rest : string; pos : nat }.

Definition cont : Type := mstate -> option mstate.
Definition matcher : Type := mstate -> cont -> option mstate.

Definition is_word_opt (o : option ascii) : bool :=
  match o with Some c => Js.is_word c | None => false end.

Definition next_char (x : mstate) : option ascii :=
  match rest x with EmptyString => None | String c _ => Some c end.

(** RepeatMatcher, greedy. *)
Fixpoint repeat_matcher (fuel : nat) (m : matcher) (min : nat) (max : option nat)
         (x : mstate) (c : cont) : option mstate :=
  match fuel with
  | O => None
  | S fuel' =>
      match max with
      | Some O => c x
      | _ =>
          let d : cont := fun y =>
            if (Nat.eqb min 0 && Nat.eqb (pos y) (pos x))%bool then None
            else repeat_matcher fuel' m (Nat.pred min) (option_map Nat.pred max) y c in
          if negb (Nat.eqb min 0) then m x d
          else match m x d with
               | Some z => Some z
               | None => c x
               end
      end
  end.

Fixpoint compile (ignoreCase : bool) (r : regex) : matcher :=
  match r with
  | Empty => fun x c => c x
  | Chr cs => fun x c =>
      match rest x with
      | EmptyString => None
      | String ch s' =>
          if class_matches ignoreCase cs ch
          then c {| prev := Some ch; rest := s'; pos := S (pos x) |}
          else None
      end
  | Seq r1 r2 => fun x c =>
      compile ignoreCase r1 x (fun y => compile ignoreCase r2 y c)
  | Quant min max r' => fun x c =>
      repeat_matcher (min + String.length (rest x) + 1)
                     (compile ignoreCase r') min max x c
  | WordBoundary => fun x c =>
      if xorb (is_word_opt (prev x)) (is_word_opt (next_char x))
      then c x else None
  | NotAhead r' => fun x c =>
      match compile ignoreCase r' x (fun y => Some y) with
      | Some _ => None
      | None => c x
      end
  end.

(** One attempt at the current position. *)
Definition match_here (ignoreCase : bool) (r : regex) (x : mstate) : option mstate :=
  compile ignoreCase r x (fun y => Some y).

(** The scan of RegExpBuiltinExec: the first position at or after the current
    one where the pattern matches; the states at the start and at the end of
    the match. *)
Fixpoint scan (ignoreCase : bool) (r : regex) (p : option ascii) (s : string) (i : nat)
  : option (mstate * mstate) :=
  let x := {| prev := p; rest := s; pos := i |} in
  match match_here ignoreCase r x with
  | Some e => Some (x, e)
  | None =>
      match s with
      | EmptyString => None
      | String ch s' => scan ignoreCase r (Some ch) s' (S i)
      end
  end.

Definition scan_from (ignoreCase : bool) (r : regex) (x : mstate) :=
  scan ignoreCase r (prev x) (rest x) (pos x).

Definition matched_text (b e : mstate) : string :=
  Js.take (pos e - pos b) (rest b).

(** AdvanceStringIndex after an empty match. *)
Definition advance (x : mstate) : option mstate :=
  match rest x with
  | EmptyString => None
  | String ch s' => Some {| prev := Some ch; rest := s'; pos := S (pos x) |}
  end.

Definition start_of (s : string) : mstate := {| prev := None; rest := s; pos := 0 |}.

(** The successive matches of a global pattern, as [String.prototype.match]
    and [replace] enumerate them: each search starts where the previous match
    ended, one further after an empty match.  At most [length s + 1] searches
    succeed, which is the fuel [all_matches] gives. *)
Fixpoint matches_from (fuel : nat) (ignoreCase : bool) (r : regex) (x : mstate)
  : list (mstate * mstate) :=
  match fuel with
  | O => []
  | S fuel' =>
      match scan_from ignoreCase r x with
      | None => []
      | Some (b, e) =>
          (b, e) ::
          (if Nat.eqb (pos e) (pos b) then
             match advance e with
             | None => []
             | Some e' => matches_from fuel' ignoreCase r e'
             end
           else matches_from fuel' ignoreCase r e)
      end
  end.

Definition all_matches (ignoreCase : bool) (r : regex) (s : string) :=
  matches_from (S (String.length s)) ignoreCase r (start_of s).

(** [s.match(/r/g) || []]. *)
Definition match_global (ignoreCase : bool) (r : regex) (s : string) : list string :=
  map (fun be => matched_text (fst be) (snd be)) (all_matches ignoreCase r s).

(** [s.replace(/r/g, f)], the replacement given as a function of the matched
    text ([$&]). *)
Fixpoint splice (s : string) (i : nat) (ms : list (mstate * mstate))
         (f : string -> string) : string :=
  match ms with
  | [] => s
  | (b, e) :: ms' =>
      Js.take (pos b - i) s ++ f (matched_text b e)
        ++ splice (Js.drop (pos e - i) s) (pos e) ms' f
  end.

Definition replace_global (ignoreCase : bool) (r : regex) (f : string -> string)
           (s : string) : string :=
  splice s 0 (all_matches ignoreCase r s) f.

(** [s.split(/r/)] (no limit, no capture groups): with [p] the start of the
    pending piece and [q] the position tried next, the pattern is matched
    sticky at [q]; a match that ends at [p] is skipped.  Two turns in a row
    move [q] forward, so [2 * length s + 1] turns are enough. *)
Fixpoint split_loop (ignoreCase : bool) (r : regex) (fuel : nat)
         (piece : string) (p : nat) (x : mstate) : list string :=
  match fuel with
  | O => []
  | S fuel' =>
      match rest x with
      | EmptyString => [piece]
      | String ch s' =>
          let skip := {| prev := Some ch; rest := s'; pos := S (pos x) |} in
          match match_here ignoreCase r x with
          | None => split_loop ignoreCase r fuel' piece p skip
          | Some e =>
              if Nat.eqb (pos e) p then split_loop ignoreCase r fuel' piece p skip
              else Js.take (pos x - p) piece
                     :: split_loop ignoreCase r fuel' (rest e) (pos e) e
          end
      end
  end.

Definition split (ignoreCase : bool) (r : regex) (s : string) : list string :=
  match s with
  | EmptyString =>
      match match_here ignoreCase r (start_of s) with
      | Some _ => []
      | None => [s]
      end
  | _ => split_loop ignoreCase r (2 * String.length s + 1) s 0 (start_of s)
  end.

(** Character-wise replacement: what a global [replace] with a one-character
    class amounts to. *)
Fixpoint map_chars (p : ascii -> bool) (f : string -> string) (s : string) : string :=
  match s with
  | EmptyString => EmptyString
  | String c s' => (if p c then f (String c "") else String c "") ++ map_chars p f s'
  end.

(** The state [n] characters further on. *)
Fixpoint forward (n : nat) (x : mstate) : mstate :=
  match n with
  | O => x
  | S n' =>
      match advance x with
      | Some x' => forward n' x'
      | None => x
      end
  end.

(** [y] lies [k] characters ahead of [x] in the same input. *)
Definition ahead (x y : mstate) : Prop :=
  exists k, k <= String.length (rest x)
            /\ rest y = Js.drop k (rest x) /\ pos y = pos x + k.

(** A matcher consults its continuation only at states ahead of its own. *)
Definition local (m : matcher) : Prop :=
  forall x c c', (forall y, ahead x y -> c y = c' y) -> m x c = m x c'.

(** A matcher succeeds only through its continuation, at a state ahead. *)
Definition forwards (m : matcher) : Prop :=
  forall x c z, m x c = Some z -> exists y, ahead x y /\ c y = Some z.

(** Two characters with the same canonical form under the [i] flag. *)
Definition same_letter (a b : ascii) : bool :=
  N.eqb (Js.canonicalize true a) (Js.canonicalize true b).

(** [s] starts with the characters of [q], letter case apart. *)
Fixpoint ci_prefix (q s : string) : bool :=
  match q, s with
  | EmptyString, _ => true
  | String a q', String b s' => (same_letter a b && ci_prefix q' s')%bool
  | String _ _, EmptyString => false
  end.

End Regex.

(** ** The file system and the clock, as far as the tools use them *)
Module Io.

(** A synchronous [fs] call returns or throws an error with a message. *)
Inductive fs_result (A : Type) : Type :=
| FsOk (a : A)
| FsThrow (message : string).
Arguments FsOk {A} a.
Arguments FsThrow {A} message.

Inductive fs_op : Type :=
| OpReaddir (path : string) (recursive : bool)
| OpReadFile (path : string)
| OpWriteFile (path : string) (data : string).

Record World : Type := {
  files : string -> fs_result string;          (* readFileSync(path, "utf-8") *)
  buffers : string -> fs_result string;        (* readFileSync(path) *)
  dirs : string -> fs_result (list string);    (* readdirSync(path) *)
  write_error : string -> option string;       (* the error a write to path meets *)
  now : Z;                                     (* time value of [new Date()] *)
  log : list fs_op                             (* the fs calls made so far *)
}.

Definition IO (A : Type) : Type := World -> A * World.

Definition ret {A} (a : A) : IO A := fun w => (a, w).
Definition bind {A B} (m : IO A) (f : A -> IO B) : IO B :=
  fun w => let (a, w') := m w in f a w'.

Definition record (op : fs_op) (w : World) : World :=
  {| files := files w; buffers := buffers w; dirs := dirs w;
     write_error := write_error w; now := now w; log := log w ++ [op] |}.

Definition readdirSync (path : string) (recursive : bool) : IO (fs_result (list string)) :=
  fun w => (dirs w path, record (OpReaddir path recursive) w).

Definition readFileSync_utf8 (path : string) : IO (fs_result string) :=
  fun w => (files w path, record (OpReadFile path) w).

Definition readFileSync (path : string) : IO (fs_result string) :=
  fun w => (buffers w path, record (OpReadFile path) w).

Definition put (path data : string) (f : string -> fs_result string)
  : string -> fs_result string :=
  fun p => if String.eqb p path then FsOk data else f p.

Definition writeFileSync (path data : string) : IO (fs_result unit) :=
  fun w =>
    let w' := record (OpWriteFile path data) w in
    match write_error w path with
    | Some msg => (FsThrow msg, w')
    | None =>
        (FsOk tt,
         {| files := put path data (files w'); buffers := put path data (buffers w');
            dirs := dirs w'; write_error := write_error w'; now := now w';
            log := log w' |})
    end.

Definition date_now : IO Z := fun w => (now w, w).

End Io.

Notation "x <- m ;; k" := (Io.bind m (fun x => k))
  (at level 61, m at next level, right associativity).

(** ** [path.extname] of Node (POSIX) *)
Module Path.

Record ext_state : Type := {
  startDot : Z; startPart : Z; finish : Z; matchedSlash : bool;
  preDotState : Z; stopped : bool
}.

(** One turn of the backwards loop over the path, at index [i] with
    character [c]. *)
Definition ext_step (st : ext_state) (ic : Z * ascii) : ext_state :=
  let (i, c) := ic in
  if stopped st then st
  else if Ascii.eqb c "/" then
    if negb (matchedSlash st)
    then {| startDot := startDot st; startPart := i + 1; finish := finish st;
            matchedSlash := matchedSlash st; preDotState := preDotState st;
            stopped := true |}
    else st
  else
    let st1 :=
      if (finish st =? -1)%Z
      then {| startDot := startDot st; startPart := startPart st; finish := i + 1;
              matchedSlash := false; preDotState := preDotState st;
              stopped := false |}
      else st in
    if Ascii.eqb c "." then
      if (startDot st1 =? -1)%Z
      then {| startDot := i; startPart := startPart st1; finish := finish st1;
              matchedSlash := matchedSlash st1; preDotState := preDotState st1;
              stopped := false |}
      else if negb (preDotState st1 =? 1)%Z
      then {| startDot := startDot st1; startPart := startPart st1;
              finish := finish st1; matchedSlash := matchedSlash st1;
              preDotState := 1; stopped := false |}
      else st1
    else if negb (startDot st1 =? -1)%Z
    then {| startDot := startDot st1; startPart := startPart st1;
            finish := finish st1; matchedSlash := matchedSlash st1;
            preDotState := -1; stopped := false |}
    else st1.

Fixpoint indexed (i : Z) (s : string) : list (Z * ascii) :=
  match s with
  | EmptyString => []
  | String c s' => (i, c) :: indexed (i + 1) s'
  end.

Definition extname (path : string) : string :=
  let st := fold_left ext_step (rev (indexed 0 path))
              {| startDot := -1; startPart := 0; finish := -1;
                 matchedSlash := true; preDotState := 0; stopped := false |} in
  if ((startDot st =? -1) || (finish st =? -1) || (preDotState st =? 0)
      || ((preDotState st =? 1) && (startDot st =? finish st - 1)
          && (startDot st =? startPart st + 1)))%Z%bool
  then ""
  else Js.slice path (startDot st) (finish st).

End Path.

(** ** Helpers shared by the tools of [documentAgent] *)
Module Agent.
Import Regex.

Fixpoint seqs (l : list regex) : regex :=
  match l with
  | [] => Empty
  | [r] => r
  | r :: l' => Seq r (seqs l')
  end.

Definition protected_path (p : string) : bool :=
  (String.eqb p ".git" || String.eqb p "node_modules")%bool.

(** [/\s+/] *)
Definition spaces_re : regex := plus (cls [Space]).

(** [text.split(/\s+/).filter(Boolean)] *)
Definition split_words (text : string) : list string :=
  filter Js.truthy_string (split false spaces_re text).

End Agent.

(** ** list_files *)
Module ListFiles.
Import Agent.

Inductive list_result : Type :=
| ListProtected (error : string) (generatedPath : string)
| ListOk (path : string) (output : list string)
| ListError (error : string).

(** [generatedPath?.trim() ? generatedPath : "."]; [None] is [null]. *)
Definition targetPath (generatedPath : option string) : string :=
  match generatedPath with
  | Some p => if Js.truthy_string (Js.trim p) then p else "."
  | None => "."
  end.

(** The [try] block: one [readdirSync] with [recursive: false]. *)
Definition read_directory (target : string) : Io.IO list_result :=
  output <- Io.readdirSync target false ;;
  match output with
  | Io.FsOk l => Io.ret (ListOk target l)
  | Io.FsThrow msg => Io.ret (ListError msg)
  end.

Definition list_files (generatedPath : option string) : Io.IO list_result :=
  match generatedPath with
  | Some p =>
      if protected_path p
      then Io.ret (ListProtected "Cannot list protected path" p)
      else read_directory (targetPath generatedPath)
  | None => read_directory (targetPath generatedPath)
  end.

End ListFiles.

(** ** extract_text_content *)
Module ExtractText.
Import Regex Agent.

(** The script pattern of the [.html] case, flags [gsi]; written with blanks
    between its parts: [<script \b [^<]* (?: (?!<\/script>) < [^<]* )* <\/script>] *)
Definition script_re : regex :=
  seqs [literal "<script"; WordBoundary; star (ncls [One "<"]);
        star (seqs [NotAhead (literal "</script>"); lit "<"; star (ncls [One "<"])]);
        literal "</script>"].

(** [/<[^>]*>/g] *)
Definition tag_re : regex := seqs [lit "<"; star (ncls [One ">"]); lit ">"].

(** The [.html] / [.htm] case of the switch. *)
Definition html_to_text (raw : string) : string :=
  Js.trim
    (replace_global false spaces_re (fun _ => " ")
       (replace_global false tag_re (fun _ => " ")
          (replace_global true script_re (fun _ => "") raw))).

(** [text.split(/\s+/).filter(Boolean).length] *)
Definition count_words (text : string) : nat := List.length (split_words text).

(** [/\r?\n/] *)
Definition newline_re : regex := seqs [opt (lit "013"); lit "010"].

Record extracted : Type := {
  filePath : string; extractedText : string; wordCount : nat; isPdf : bool
}.

Inductive extract_result : Type :=
| ExtractOk (r : extracted)
| ExtractError (error : string) (path : string).

(** The collaborators outside the repository: the PDF parser, and
    [JSON.parse] followed by [JSON.stringify(_, null, 2)] (which throws when
    the text is not JSON: [None]). *)
Record Library : Type := {
  pdf : string -> Io.fs_result string;
  json_reindent : string -> option string
}.

Definition extract_text_content (lib : Library) (path : string) : Io.IO extract_result :=
  if protected_path path
  then Io.ret (ExtractError "Cannot read protected path" path)
  else
    let ext := Js.toLowerCase (Path.extname path) in
    if String.eqb ext ".pdf" then
      dataBuffer <- Io.readFileSync path ;;
      match dataBuffer with
      | Io.FsThrow msg => Io.ret (ExtractError ("PDF parse error: " ++ msg) path)
      | Io.FsOk bytes =>
          match pdf lib bytes with
          | Io.FsThrow msg => Io.ret (ExtractError ("PDF parse error: " ++ msg) path)
          | Io.FsOk text =>
              Io.ret (ExtractOk {| filePath := path; extractedText := text;
                                   wordCount := count_words text; isPdf := true |})
          end
      end
    else
      raw <- Io.readFileSync_utf8 path ;;
      match raw with
      | Io.FsThrow msg => Io.ret (ExtractError msg path)
      | Io.FsOk raw =>
          let text :=
            if String.eqb ext ".json" then
              match json_reindent lib raw with
              | Some t => t
              | None => raw
              end
            else if String.eqb ext ".csv" then
              "CSV rows: " ++ Js.decimal (N.of_nat (List.length (split false newline_re raw)))
                ++ String "010" (String "010" raw)
            else if (String.eqb ext ".html" || String.eqb ext ".htm")%bool then
              html_to_text raw
            else raw in
          Io.ret (ExtractOk {| filePath := path; extractedText := text;
                               wordCount := count_words text; isPdf := false |})
      end.

End ExtractText.

(** ** search_document *)
Module Search.
Import Regex Agent.

(** [/[.*+?^${}()|[\]\\]/g] *)
Definition special_re : regex :=
  cls [One "."; One "*"; One "+"; One "?"; One "^"; One "$"; One "{"; One "}";
       One "("; One ")"; One "|"; One "["; One "]"; One "\"].

(** The replacement ["\\$&"]: a backslash and the matched text. *)
Definition backslash_match (m : string) : string := "\" ++ m.

(** [query.replace(/[.*+?^${}()|[\]\\]/g, "\\$&")] *)
Definition escape_query (query : string) : string :=
  replace_global false special_re backslash_match query.

(** SyntaxCharacter of the pattern grammar. *)
Definition is_syntax_char (c : ascii) : bool :=
  existsb (Ascii.eqb c)
    ["^"; "$"; "\"; "."; "*"; "+"; "?"; "("; ")"; "["; "]"; "{"; "}"; "|"]%char.

(** [new RegExp(pattern)] on the patterns made of pattern characters and
    identity escapes of syntax characters; a lone backslash at the end is a
    SyntaxError, other patterns are outside this fragment. *)
Inductive compiled : Type :=
| Pattern (r : regex)
| SyntaxError (message : string)
| OtherPattern.

Definition after (c : ascii) (p : compiled) : compiled :=
  match p with
  | Pattern r => Pattern (Seq (lit c) r)
  | other => other
  end.

Fixpoint new_RegExp (pattern : string) : compiled :=
  match pattern with
  | EmptyString => Pattern Empty
  | String c s =>
      if Ascii.eqb c "\" then
        match s with
        | EmptyString => SyntaxError "Invalid regular expression: \ at end of pattern"
        | String d s' => if is_syntax_char d then after d (new_RegExp s') else OtherPattern
        end
      else if is_syntax_char c then OtherPattern
      else after c (new_RegExp s)
  end.

Record search_match : Type := { text : string; position : Z }.

Inductive search_result : Type :=
| SearchOk (query : string) (matches : list search_match) (totalMatches : nat)
| SearchError (error : string).

(** The [while ((m = re.exec(content)) !== null)] loop; [x] is the state at
    [re.lastIndex].  [None]: the fuel is used up.  [contextLength] is taken
    to be an integer. *)
Fixpoint exec_loop (fuel : nat) (re : regex) (content : string) (contextLength : Z)
         (x : mstate) (matches : list search_match) : option (list search_match) :=
  match fuel with
  | O => None
  | S fuel' =>
      match scan_from true re x with
      | None => Some matches
      | Some (b, e) =>
          let index := Z.of_nat (pos b) in
          let m0 := matched_text b e in
          let start := Z.max 0 (index - contextLength) in
          let finish := Z.min (Z.of_nat (String.length content))
                              (index + Z.of_nat (String.length m0) + contextLength) in
          let text := Js.trim (Js.slice content start finish) in
          exec_loop fuel' re content contextLength e
                    (matches ++ [{| text := text; position := index |}])
      end
  end.

(** [None]: the loop has not ended within [fuel] turns, or the pattern is
    outside the fragment of [new_RegExp]. *)
Definition search_document (fuel : nat) (content query : string) (contextLength : Z)
  : option search_result :=
  match new_RegExp (escape_query query) with
  | Pattern re =>
      match exec_loop fuel re content contextLength (start_of content) [] with
      | Some matches => Some (SearchOk query matches (List.length matches))
      | None => None
      end
  | SyntaxError msg => Some (SearchError msg)
  | OtherPattern => None
  end.

(** The context window of a match of [n] characters at the index [p]. *)
Definition window (content : string) (n : nat) (contextLength : Z) (p : nat) : string :=
  Js.slice content
    (Z.max 0 (Z.of_nat p - contextLength))
    (Z.min (Z.of_nat (String.length content))
           (Z.of_nat p + Z.of_nat n + contextLength)).

(** The state of the matcher sits at an index of [content]. *)
Definition at_index_of (content : string) (x : mstate) : Prop :=
  rest x = Js.drop (pos x) content /\ pos x <= String.length content.

(** A reported match: its position is an index where the query occurs in the
    content, letter case apart, and its text is the trimmed window there. *)
Definition reports (content query : string) (contextLength : Z) (m : search_match)
  : Prop :=
  exists p : nat,
    position m = Z.of_nat p
    /\ p + String.length query <= String.length content
    /\ ci_prefix query (Js.drop p content) = true
    /\ text m = Js.trim (window content (String.length query) contextLength p).

End Search.

(** ** Ordinary objects used as string-keyed maps *)
Module JsObject.

(** The own properties of an object, in the order of their creation. *)
Definition props (V : Type) : Type := list (string * V).

Fixpoint get_own {V} (o : props V) (k : string) : option V :=
  match o with
  | [] => None
  | (k', v) :: o' => if String.eqb k' k then Some v else get_own o' k
  end.

(** Assignment to an own data property: an existing key keeps its place. *)
Fixpoint set_own {V} (o : props V) (k : string) (v : V) : props V :=
  match o with
  | [] => [(k, v)]
  | (k', v') :: o' =>
      if String.eqb k' k then (k', v) :: o' else (k', v') :: set_own o' k v
  end.

Fixpoint all_digits (s : string) : bool :=
  match s with
  | EmptyString => true
  | String c s' => (Js.is_digit c && all_digits s')%bool
  end.

Fixpoint digits_value (acc : N) (s : string) : N :=
  match s with
  | EmptyString => acc
  | String c s' => digits_value (10 * acc + (Js.code c - 48)) s'
  end.

(** A key is an array index when it is the canonical numeral of an integer
    below 2^32 - 1: its numeric value prints back as the key itself. *)
Definition array_index (k : string) : option N :=
  if all_digits k then
    let n := digits_value 0 k in
    if (String.eqb (Js.decimal n) k && N.leb n 4294967294)%bool then Some n else None
  else None.

Definition is_index (k : string) : bool :=
  match array_index k with Some _ => true | None => false end.

Definition index_value (k : string) : N :=
  match array_index k with Some n => n | None => 0%N end.

Fixpoint insert_index {V} (e : string * V) (l : props V) : props V :=
  match l with
  | [] => [e]
  | e' :: l' =>
      if N.leb (index_value (fst e)) (index_value (fst e'))
      then e :: l else e' :: insert_index e l'
  end.

Definition index_le {V} (a b : string * V) : Prop :=
  (index_value (fst a) <= index_value (fst b))%N.

(** [Object.entries]: the array-index keys in ascending numeric order, then
    the other keys in creation order. *)
Definition entries {V} (o : props V) : props V :=
  (fold_right insert_index [] (filter (fun e => is_index (fst e)) o)
     ++ filter (fun e => negb (is_index (fst e))) o)%list.

(** The order in which [Object.entries] lists the keys of an object whose
    keys were created in the order [l]. *)
Definition key_order (l : list string) : list string :=
  map fst (entries (map (fun w => (w, tt)) l)).

(** What a key that is not an own property finds on [Object.prototype]. *)
Inductive inherited : Type :=
| Method          (* a built-in function *)
| ProtoAccessor   (* __proto__ *)
| Absent.

Definition object_prototype (k : string) : inherited :=
  if existsb (String.eqb k)
       ["constructor"; "hasOwnProperty"; "isPrototypeOf"; "propertyIsEnumerable";
        "toLocaleString"; "toString"; "valueOf"; "__defineGetter__";
        "__defineSetter__"; "__lookupGetter__"; "__lookupSetter__"]
  then Method
  else if String.eqb k "__proto__" then ProtoAccessor
  else Absent.

(** [Array.prototype.sort(comparefn)]: stable; [v] is the number the
    comparator returned, [None] standing for NaN, which counts as 0.  The
    sort is written as an insertion sort; every stable sort gives the same
    array when the comparator is consistent.  (When it is not, as with NaN
    against unequal numbers, ECMAScript leaves the order to the engine.) *)
Definition sort_compare (v : option Z) : Z :=
  match v with Some z => z | None => 0%Z end.

Fixpoint insert_stable {A} (cmp : A -> A -> option Z) (x : A) (l : list A) : list A :=
  match l with
  | [] => [x]
  | y :: l' =>
      if (0 <? sort_compare (cmp x y))%Z then y :: insert_stable cmp x l'
      else x :: l
  end.

Definition sort {A} (cmp : A -> A -> option Z) (l : list A) : list A :=
  fold_right (insert_stable cmp) [] l.

(** [new Set(l)] followed by spreading it: the distinct members in the order
    of their first insertion. *)
Definition set_add (s : list string) (x : string) : list string :=
  if existsb (String.eqb x) s then s else (s ++ [x])%list.

Definition new_Set (l : list string) : list string := fold_left set_add l [].

(** The members of a list without repetition, each at the place of its
    first occurrence: what [new_Set] is meant to compute. *)
Fixpoint first_occurrences (l : list string) : list string :=
  match l with
  | [] => []
  | x :: l' => x :: filter (fun y => negb (String.eqb y x)) (first_occurrences l')
  end.

(** [a[i]] on an array. *)
Definition at_index {A} (a : list A) (i : Z) : option A :=
  if (i <? 0)%Z then None else nth_error a (Z.to_nat i).

End JsObject.

(** ** analyze_document *)
Module Analyze.
Import Regex Agent JsObject.

Inductive analyzeType : Type := full | summary_only | entities_only | topics_only.

(** [/[.!?]+/] *)
Definition sentence_re : regex := plus (cls [One "."; One "!"; One "?"]).

(** [/[^\w\s]/g] *)
Definition punct_re : regex := ncls [WordChar; Space].

(** [/\b[A-Z][a-z]+\b/g] *)
Definition caps_re : regex :=
  seqs [WordBoundary; cls [Range "A" "Z"]; plus (cls [Range "a" "z"]); WordBoundary].

(** [/[a-zA-Z0-9._%+-]+@[a-zA-Z0-9.-]+\.[a-zA-Z]{2,}/g] *)
Definition email_re : regex :=
  seqs [plus (cls [Range "a" "z"; Range "A" "Z"; Range "0" "9";
                   One "."; One "_"; One "%"; One "+"; One "-"]);
        lit "@";
        plus (cls [Range "a" "z"; Range "A" "Z"; Range "0" "9"; One "."; One "-"]);
        lit ".";
        Quant 2 None (cls [Range "a" "z"; Range "A" "Z"])].

(** [/[\+]?[1-9]?[0-9]{10,11}/g] *)
Definition phone_re : regex :=
  seqs [opt (cls [One "+"]); opt (cls [Range "1" "9"]);
        Quant 10 (Some 11) (cls [Range "0" "9"])].

(** [/https?:\/\/[^\s]+/g] *)
Definition url_re : regex :=
  seqs [literal "http"; opt (lit "s"); literal "://"; plus (ncls [Space])].

(** [content.split(/[.!?]+/).filter((s) => s.trim().length > 10)] *)
Definition fragments (content : string) : list string :=
  filter (fun s => Nat.ltb 10 (String.length (Js.trim s)))
         (split false sentence_re content).

(** [content.toLowerCase().replace(/[^\w\s]/g, "").split(/\s+/).filter(Boolean)] *)
Definition words (content : string) : list string :=
  split_words (replace_global false punct_re (fun _ => "") (Js.toLowerCase content)).

(** [.filter(Boolean)] on array elements that are strings or undefined. *)
Definition filter_Boolean (l : list (option string)) : list string :=
  flat_map (fun o => match o with
                     | Some s => if Js.truthy_string s then [s] else []
                     | None => []
                     end) l.

Definition summarize (fragments : list string) : string :=
  let n := Z.of_nat (List.length fragments) in
  let summaryFragments :=
    filter_Boolean [at_index fragments 0; at_index fragments (n / 2);
                    at_index fragments (n - 1)] in
  Js.join ". " (map Js.trim summaryFragments) ++ ".".

Definition extract_entities (content : string) : list string :=
  let caps := match_global false caps_re content in
  let emails := match_global false email_re content in
  let phones := match_global false phone_re content in
  let urls := match_global false url_re content in
  new_Set (firstn 20 caps ++ emails ++ phones ++ urls)%list.

Definition stopWords : list string :=
  ["the"; "a"; "an"; "and"; "or"; "but"; "in"; "on"; "at"; "to"; "for"; "of";
   "with"; "by"; "is"; "are"; "was"; "were"; "be"; "been"; "have"; "has"; "had";
   "do"; "does"; "did"; "will"; "would"; "could"; "should"].

Definition is_stop_word (w : string) : bool := existsb (String.eqb w) stopWords.

(** A value held by [freq]: a count, or the text that [+ 1] makes of an
    inherited object (a function's source text or ["[object Object]"]
    followed by digits 1), whose numeric value is NaN. *)
Inductive fval : Type :=
| Count (n : nat)
| Text.

(** [freq[w] = (freq[w] || 0) + 1].  A key that is not an own property is
    looked up on [Object.prototype]; assigning a string to [__proto__] goes
    to the accessor, which ignores it. *)
Definition bump (freq : props fval) (w : string) : props fval :=
  let next :=
    match get_own freq w with
    | Some (Count n) => Count (n + 1)
    | Some Text => Text
    | None =>
        match object_prototype w with
        | Absent => Count 1
        | _ => Text
        end
    end in
  match object_prototype w with
  | ProtoAccessor => freq
  | _ => set_own freq w next
  end.

Definition counted (w : string) : bool :=
  (Nat.ltb 3 (String.length w) && negb (is_stop_word w))%bool.

Definition frequencies (words : list string) : props fval :=
  fold_left (fun freq w => if counted w then bump freq w else freq) words [].

(** The comparator [([,a], [,b]) => b - a]. *)
Definition by_count (x y : string * fval) : option Z :=
  match snd x, snd y with
  | Count a, Count b => Some (Z.of_nat b - Z.of_nat a)%Z
  | _, _ => None
  end.

Definition extract_topics (words : list string) : list string :=
  map fst (firstn 10 (sort by_count (entries (frequencies words)))).

(** The tokens that are counted, in the order of the content. *)
Definition tokens (content : string) : list string := filter counted (words content).

Definition occurrences (toks : list string) (w : string) : nat :=
  count_occ string_dec toks w.

(** The frequency object the loop is meant to build: every distinct token
    with its number of occurrences, in the order of first occurrence. *)
Definition tally (toks : list string) : props fval :=
  map (fun w => (w, Count (occurrences toks w))) (first_occurrences toks).

(** The comparator of the ranking, on the tokens themselves. *)
Definition by_occurrences (toks : list string) (a b : string) : option Z :=
  Some (Z.of_nat (occurrences toks b) - Z.of_nat (occurrences toks a))%Z.

(** The ranking as the specification words it: the distinct tokens in the
    order of their first occurrence, sorted stably by descending count, the
    first ten kept. *)
Definition claimed_topics (content : string) : list string :=
  firstn 10 (sort (by_occurrences (tokens content))
                  (first_occurrences (tokens content))).

Record analysis : Type := {
  wordCount : nat;
  summary : option string;
  entities : option (list string);
  topics : option (list string)
}.

Inductive analyze_result : Type :=
| AnalysisData (obj : analysis)
| AnalysisError (error : string).

Definition wants_summary (t : analyzeType) : bool :=
  match t with full | summary_only => true | _ => false end.
Definition wants_entities (t : analyzeType) : bool :=
  match t with full | entities_only => true | _ => false end.
Definition wants_topics (t : analyzeType) : bool :=
  match t with full | topics_only => true | _ => false end.

Definition analyze_document (content : string) (t : analyzeType) : analyze_result :=
  let fragments := fragments content in
  let words := words content in
  AnalysisData
    {| wordCount := List.length words;
       summary := if wants_summary t then Some (summarize fragments) else None;
       entities := if wants_entities t then Some (extract_entities content) else None;
       topics := if wants_topics t then Some (extract_topics words) else None |}.

End Analyze.

(** ** JSON values, [JSON.stringify] and string conversion *)
Module Json.
Import JsObject.

(** A Number is an IEEE 754 double. *)
Definition number : Type := spec_float.

Inductive value : Type :=
| Null
| Bool (b : bool)
| Num (n : number)
| Str (s : string)
| Arr (elements : list value)
| Obj (members : list (string * value)).   (* own properties, creation order *)

(** The conversions between Numbers and their numerals belong to the
    engine: [Number::toString] and the numeric value of a JSON number. *)
Record Numerals : Type := {
  to_string : number -> string;
  of_string : string -> number
}.

Definition is_finite (n : number) : bool :=
  match n with
  | S754_zero _ | S754_finite _ _ _ => true
  | _ => false
  end.

(** [ToBoolean]; [None] is [undefined]. *)
Definition truthy (v : option value) : bool :=
  match v with
  | None | Some Null => false
  | Some (Bool b) => b
  | Some (Num n) => match n with S754_zero _ | S754_nan => false | _ => true end
  | Some (Str s) => Js.truthy_string s
  | Some (Arr _) | Some (Obj _) => true
  end.

(** Property access [v.k] on a value that is not null; primitives and arrays
    have no such property for the keys read here. *)
Definition get (v : value) (k : string) : option value :=
  match v with
  | Obj members => get_own members k
  | _ => None
  end.

(** A completion: a value or a thrown error. *)
Inductive completion (A : Type) : Type :=
| Normal (a : A)
| Throw (message : string).
Arguments Normal {A} a.
Arguments Throw {A} message.

Fixpoint join_completions (sep : string) (l : list (completion string))
  : completion string :=
  match l with
  | [] => Normal ""
  | [c] => c
  | c :: l' =>
      match c, join_completions sep l' with
      | Normal x, Normal y => Normal (x ++ sep ++ y)
      | Throw m, _ => Throw m
      | _, Throw m => Throw m
      end
  end.

(** [ToString(v)], as a template literal applies it.  An array joins its
    elements with commas, null elements giving the empty string; an object
    answers ["[object Object]"] unless an own [toString] property (never
    callable in parsed JSON) hides the inherited method, which is a
    TypeError. *)
Fixpoint ToString (rt : Numerals) (v : value) : completion string :=
  match v with
  | Null => Normal "null"
  | Bool true => Normal "true"
  | Bool false => Normal "false"
  | Num n => Normal (to_string rt n)
  | Str s => Normal s
  | Arr elements =>
      join_completions ","
        (map (fun e => match e with
                       | Null => Normal ""
                       | _ => ToString rt e
                       end) elements)
  | Obj members =>
      match get_own members "toString" with
      | Some _ => Throw "Cannot convert object to primitive value"
      | None => Normal "[object Object]"
      end
  end.

Definition hex_digit (n : N) : ascii :=
  if N.ltb n 10 then ascii_of_N (48 + n) else ascii_of_N (87 + n).

(** QuoteJSONString, one code unit at a time. *)
Definition quote_char (c : ascii) : string :=
  let n := Js.code c in
  if N.eqb n 8 then "\b"
  else if N.eqb n 9 then "\t"
  else if N.eqb n 10 then "\n"
  else if N.eqb n 12 then "\f"
  else if N.eqb n 13 then "\r"
  else if N.eqb n 34 then String "\" (String "034" "")
  else if N.eqb n 92 then "\\"
  else if N.ltb n 32
       then "\u00" ++ String (hex_digit (n / 16)) (String (hex_digit (n mod 16)) "")
       else String c "".

Fixpoint quote_body (s : string) : string :=
  match s with
  | EmptyString => ""
  | String c s' => quote_char c ++ quote_body s'
  end.

Definition quote (s : string) : string :=
  String "034" (quote_body s ++ String "034" "").

Definition newline : string := String "010" "".

(** The bracketed, separated layout shared by arrays and objects. *)
Definition layout (gap indent : string) (open close : string) (parts : list string)
  : string :=
  match parts with
  | [] => open ++ close
  | _ =>
      if String.eqb gap "" then open ++ Js.join "," parts ++ close
      else
        let inner := indent ++ gap in
        open ++ newline ++ inner
          ++ Js.join ("," ++ newline ++ inner) parts
          ++ newline ++ indent ++ close
  end.

(** SerializeJSONProperty with the gap [gap] at the indentation [indent]. *)
Fixpoint serialize (rt : Numerals) (gap indent : string) (v : value) : string :=
  match v with
  | Null => "null"
  | Bool true => "true"
  | Bool false => "false"
  | Num n => if is_finite n then to_string rt n else "null"
  | Str s => quote s
  | Arr elements =>
      layout gap indent "[" "]" (map (serialize rt gap (indent ++ gap)) elements)
  | Obj members =>
      layout gap indent "{" "}"
        (map (fun kv => quote (fst kv) ++ ":"
                          ++ (if String.eqb gap "" then "" else " ") ++ snd kv)
             (entries (map (fun kv => (fst kv, serialize rt gap (indent ++ gap) (snd kv)))
                           members)))
  end.

(** [JSON.stringify(v)] and [JSON.stringify(v, null, 2)]. *)
Definition stringify (rt : Numerals) (v : value) : string := serialize rt "" "" v.
Definition stringify_2 (rt : Numerals) (v : value) : string := serialize rt "  " "" v.

(** *** [JSON.parse] *)

(** JSON white space: blank, TAB, LF, CR. *)
Definition is_ws (c : ascii) : bool :=
  (N.eqb (Js.code c) 32 || N.eqb (Js.code c) 9 || N.eqb (Js.code c) 10
   || N.eqb (Js.code c) 13)%bool.

Fixpoint skip_ws (s : string) : string :=
  match s with
  | EmptyString => EmptyString
  | String c s' => if is_ws c then skip_ws s' else s
  end.

Definition hex_value (c : ascii) : option N :=
  if Js.between 48 57 c then Some (Js.code c - 48)%N
  else if Js.between 97 102 c then Some (Js.code c - 87)%N
  else if Js.between 65 70 c then Some (Js.code c - 55)%N
  else None.

(** The code unit of [\uXXXX]; [None] when a digit is not hexadecimal or the
    unit lies beyond U+00FF, outside the strings of this development. *)
Definition unicode_escape (a b c d : ascii) : option ascii :=
  match hex_value a, hex_value b, hex_value c, hex_value d with
  | Some x, Some y, Some z, Some t =>
      let n := (((x * 16 + y) * 16 + z) * 16 + t)%N in
      if N.ltb n 256 then Some (ascii_of_N n) else None
  | _, _, _, _ => None
  end.

(** The character a single-letter escape stands for. *)
Definition simple_escape (e : ascii) : option ascii :=
  if Ascii.eqb e "034" then Some "034"%char
  else if Ascii.eqb e "\" then Some "\"%char
  else if Ascii.eqb e "/" then Some "/"%char
  else if Ascii.eqb e "b" then Some "008"%char
  else if Ascii.eqb e "f" then Some "012"%char
  else if Ascii.eqb e "n" then Some "010"%char
  else if Ascii.eqb e "r" then Some "013"%char
  else if Ascii.eqb e "t" then Some "009"%char
  else None.

Definition cons_to (c : ascii) (r : option (string * string)) : option (string * string) :=
  match r with
  | Some (str, rest) => Some (String c str, rest)
  | None => None
  end.

(** A string literal after its opening quote: the string and what follows
    the closing quote. *)
Fixpoint parse_string_body (s : string) : option (string * string) :=
  match s with
  | EmptyString => None
  | String c s' =>
      if Ascii.eqb c "034" then Some (EmptyString, s')
      else if Ascii.eqb c "\" then
        match s' with
        | EmptyString => None
        | String e s'' =>
            if Ascii.eqb e "u" then
              match s'' with
              | String h1 (String h2 (String h3 (String h4 s4))) =>
                  match unicode_escape h1 h2 h3 h4 with
                  | Some u => cons_to u (parse_string_body s4)
                  | None => None
                  end
              | _ => None
              end
            else
              match simple_escape e with
              | Some u => cons_to u (parse_string_body s'')
              | None => None
              end
        end
      else if N.ltb (Js.code c) 32 then None
      else cons_to c (parse_string_body s')
  end.

Fixpoint span (p : ascii -> bool) (s : string) : string * string :=
  match s with
  | EmptyString => (EmptyString, EmptyString)
  | String c s' =>
      if p c then let (a, b) := span p s' in (String c a, b)
      else (EmptyString, s)
  end.

(** One or more digits; what follows them. *)
Definition digits1 (s : string) : option string :=
  match span Js.is_digit s with
  | (EmptyString, _) => None
  | (_, r) => Some r
  end.

(** The grammar of a JSON number: an optional minus sign; a zero, or a digit
    from 1 to 9 followed by digits; optionally a point and one or more
    digits; optionally [e] or [E], an optional sign and one or more digits. *)
Definition number_grammar (s : string) : bool :=
  let s1 := match s with
            | String c r => if Ascii.eqb c "-" then r else s
            | EmptyString => s
            end in
  match s1 with
  | EmptyString => false
  | String c r =>
      let after_int :=
        if Ascii.eqb c "0" then Some r
        else if Js.is_digit c then Some (snd (span Js.is_digit r))
        else None in
      match after_int with
      | None => false
      | Some r1 =>
          let after_frac :=
            match r1 with
            | String d r2 => if Ascii.eqb d "." then digits1 r2 else Some r1
            | EmptyString => Some r1
            end in
          match after_frac with
          | None => false
          | Some EmptyString => true
          | Some (String e r4) =>
              if (Ascii.eqb e "e" || Ascii.eqb e "E")%bool then
                let r5 := match r4 with
                          | String g r6 =>
                              if (Ascii.eqb g "+" || Ascii.eqb g "-")%bool then r6 else r4
                          | EmptyString => r4
                          end in
                match digits1 r5 with
                | Some EmptyString => true
                | _ => false
                end
              else false
          end
      end
  end.

(** The characters a number is made of. *)
Definition is_number_char (c : ascii) : bool :=
  (Js.is_digit c || Ascii.eqb c "-" || Ascii.eqb c "+" || Ascii.eqb c "."
   || Ascii.eqb c "e" || Ascii.eqb c "E")%bool.

Fixpoint all_number_chars (s : string) : bool :=
  match s with
  | EmptyString => true
  | String c s' => (is_number_char c && all_number_chars s')%bool
  end.

Definition valid_number (s : string) : bool :=
  (all_number_chars s && number_grammar s)%bool.

(** A number token: the longest run of number characters, which must follow
    the grammar (what comes after a number is a delimiter or a syntax
    error). *)
Definition parse_number (rt : Numerals) (s : string) : option (value * string) :=
  let (tok, rest) := span is_number_char s in
  if number_grammar tok then Some (Num (of_string rt tok), rest) else None.

Definition keyword (k : string) (v : value) (s : string) : option (value * string) :=
  if String.prefix k s then Some (v, Js.drop (String.length k) s) else None.

(** The value at the head of [s], white space before it skipped, and the rest
    of the text.  [None]: a SyntaxError (or an escape beyond U+00FF, or not
    enough fuel). *)
Fixpoint parse_value (rt : Numerals) (fuel : nat) (s : string) : option (value * string) :=
  match fuel with
  | O => None
  | S f =>
      match skip_ws s with
      | EmptyString => None
      | String c r =>
          if Ascii.eqb c "{" then
            match skip_ws r with
            | EmptyString => None
            | String d r' =>
                if Ascii.eqb d "}" then Some (Obj [], r')
                else parse_members rt f [] (String d r')
            end
          else if Ascii.eqb c "[" then
            match skip_ws r with
            | EmptyString => None
            | String d r' =>
                if Ascii.eqb d "]" then Some (Arr [], r')
                else parse_elements rt f [] (String d r')
            end
          else if Ascii.eqb c "034" then
            match parse_string_body r with
            | Some (str, r') => Some (Str str, r')
            | None => None
            end
          else if Ascii.eqb c "t" then keyword "true" (Bool true) (String c r)
          else if Ascii.eqb c "f" then keyword "false" (Bool false) (String c r)
          else if Ascii.eqb c "n" then keyword "null" Null (String c r)
          else parse_number rt (String c r)
      end
  end

with parse_elements (rt : Numerals) (fuel : nat) (acc : list value) (s : string)
  : option (value * string) :=
  match fuel with
  | O => None
  | S f =>
      match parse_value rt f s with
      | None => None
      | Some (v, r) =>
          match skip_ws r with
          | EmptyString => None
          | String c r' =>
              if Ascii.eqb c "," then parse_elements rt f (acc ++ [v]) r'
              else if Ascii.eqb c "]" then Some (Arr (acc ++ [v]), r')
              else None
          end
      end
  end

with parse_members (rt : Numerals) (fuel : nat) (acc : props value) (s : string)
  : option (value * string) :=
  match fuel with
  | O => None
  | S f =>
      match skip_ws s with
      | EmptyString => None
      | String q r =>
          if Ascii.eqb q "034" then
            match parse_string_body r with
            | None => None
            | Some (k, r1) =>
                match skip_ws r1 with
                | EmptyString => None
                | String colon r2 =>
                    if Ascii.eqb colon ":" then
                      match parse_value rt f r2 with
                      | None => None
                      | Some (v, r3) =>
                          match skip_ws r3 with
                          | EmptyString => None
                          | String c r4 =>
                              if Ascii.eqb c ","
                              then parse_members rt f (set_own acc k v) r4
                              else if Ascii.eqb c "}"
                              then Some (Obj (set_own acc k v), r4)
                              else None
                          end
                      end
                    else None
                end
            end
          else None
      end
  end.

Fixpoint all_ws (s : string) : bool :=
  match s with
  | EmptyString => true
  | String c s' => (is_ws c && all_ws s')%bool
  end.

(** What follows a number in a text does not continue it. *)
Definition number_end (s : string) : bool :=
  match s with
  | EmptyString => true
  | String c _ => negb (is_number_char c)
  end.

(** The engine prints the Number as a JSON number that reads back as a
    Number equal to it ([===]: the two zeros are equal); the schema only lets
    finite Numbers through.  ECMAScript engines do so for every finite
    Number; -0 is printed as 0 and reads back as +0. *)
Definition faithful (rt : Numerals) (n : number) : Prop :=
  is_finite n = true
  /\ valid_number (to_string rt n) = true
  /\ SFeqb (of_string rt (to_string rt n)) n = true.

(** What a value becomes when it is printed and read again: a Number goes
    through its numeral, everything else is itself. *)
Definition read_back (rt : Numerals) (v : value) : value :=
  match v with
  | Num n => Num (of_string rt (to_string rt n))
  | _ => v
  end.

Definition read_member (rt : Numerals) (kv : string * value) : string * value :=
  (fst kv, read_back rt (snd kv)).

(** The values found in the properties of a saved analysis: strings, Numbers
    printed faithfully, arrays of strings. *)
Inductive flat (rt : Numerals) : value -> Prop :=
| flat_string (s : string) : flat rt (Str s)
| flat_number (n : number) : faithful rt n -> flat rt (Num n)
| flat_strings (l : list string) : flat rt (Arr (map Str l)).

(** The text of the elements of an array of strings in a property of the
    top-level object (gap of two blanks), up to the closing bracket, followed
    by [rest]. *)
Fixpoint elements_text (x : string) (l : list string) (rest : string) : string :=
  match l with
  | [] => quote x ++ newline ++ "  ]" ++ rest
  | y :: l' => quote x ++ "," ++ newline ++ "    " ++ elements_text y l' rest
  end.

(** The text of the members of the top-level object, up to the closing
    brace, followed by [rest]. *)
Fixpoint members_text (rt : Numerals) (m : string * value) (ms : list (string * value))
         (rest : string) : string :=
  match ms with
  | [] => quote (fst m) ++ ": " ++ serialize rt "  " "  " (snd m) ++ newline ++ "}" ++ rest
  | m' :: ms' =>
      quote (fst m) ++ ": " ++ serialize rt "  " "  " (snd m) ++ "," ++ newline ++ "  "
        ++ members_text rt m' ms' rest
  end.

(** Storing one parsed member. *)
Definition add_member (acc : props value) (kv : string * value) : props value :=
  set_own acc (fst kv) (snd kv).

(** [JSON.parse(text)]: one value, then nothing but white space. *)
Definition parse (rt : Numerals) (text : string) : option value :=
  match parse_value rt (2 * String.length text + 2) text with
  | Some (v, r) => match skip_ws r with EmptyString => Some v | _ => None end
  | None => None
  end.

End Json.

(** ** The route handler *)
Module Route.
Import Json.

Inductive promise (A : Type) : Type :=
| Resolved (a : A)
| Rejected (reason : string).
Arguments Resolved {A} a.
Arguments Rejected {A} reason.

Record Response : Type := {
  status : Z;
  content_type : string;
  body : string
}.

(** What the handler reads of a request: the outcome of [request.json()]. *)
Record Request : Type := { json : promise value }.

(** What the handler has done besides answering. *)
Record effects : Type := {
  agent_calls : list (option value);    (* the arguments of documentAgent *)
  logged : list string                  (* console.error *)
}.

Definition nothing : effects := {| agent_calls := []; logged := [] |}.

(** The hosted model behind [generateText]: the final text, or a failure.
    Its argument is the prompt, [None] being [undefined]. *)
Definition Model : Type := option value -> promise string.

Record agent_result : Type := { response : string }.

(** [documentAgent(prompt)] of agent.ts, as the handler sees it. *)
Definition documentAgent (generateText : Model) (prompt : option value)
  : promise agent_result :=
  match generateText prompt with
  | Resolved text => Resolved {| response := text |}
  | Rejected e => Rejected e
  end.

Definition json_response (rt : Numerals) (code : Z) (v : value) : Response :=
  {| status := code; content_type := "application/json"; body := stringify rt v |}.

(** [const { prompt, filePath, content } = body]: a TypeError on null. *)
Definition destructure (body : value)
  : completion (option value * option value * option value) :=
  match body with
  | Null => Throw "Cannot destructure property 'prompt' of 'body' as it is null."
  | _ => Normal (get body "prompt", get body "filePath", get body "content")
  end.

Definition ToString_opt (rt : Numerals) (v : option value) : completion string :=
  match v with
  | None => Normal "undefined"
  | Some v => ToString rt v
  end.

(** A template literal with two substitutions. *)
Definition template (rt : Numerals) (a : option value) (mid : string)
           (b : option value) (last : string) : completion (option value) :=
  match ToString_opt rt a with
  | Throw m => Throw m
  | Normal sa =>
      match ToString_opt rt b with
      | Throw m => Throw m
      | Normal sb => Normal (Some (Str (sa ++ mid ++ sb ++ last)))
      end
  end.

(** The conditional expression that builds [fullPrompt]. *)
Definition fullPrompt (rt : Numerals) (prompt filePath content : option value)
  : completion (option value) :=
  if truthy filePath then template rt prompt " (Document: " filePath ")"
  else if truthy content then
    template rt prompt
      (String "010" (String "010" "Document content:") ++ String "010" "") content ""
  else Normal prompt.

Definition bad_request (rt : Numerals) : Response :=
  json_response rt 400 (Obj [("error", Str "Prompt is required")]).

Definition error_500 (rt : Numerals) : Response :=
  json_response rt 500 (Obj [("error", Str "An error occurred processing the document")]).

(** The [try] block and its [catch]. *)
Definition try_agent (rt : Numerals) (generateText : Model)
           (prompt filePath content : option value) : promise Response * effects :=
  match fullPrompt rt prompt filePath content with
  | Throw m => (Resolved (error_500 rt), {| agent_calls := []; logged := [m] |})
  | Normal full =>
      match documentAgent generateText full with
      | Resolved result =>
          (Resolved (json_response rt 200 (Obj [("response", Str (response result))])),
           {| agent_calls := [full]; logged := [] |})
      | Rejected e =>
          (Resolved (error_500 rt), {| agent_calls := [full]; logged := [e] |})
      end
  end.

(** [POST(request)]: the promise the handler returns and what it did. *)
Definition POST (rt : Numerals) (generateText : Model) (request : Request)
  : promise Response * effects :=
  match json request with
  | Rejected e => (Rejected e, nothing)
  | Resolved body =>
      match destructure body with
      | Throw m => (Rejected m, nothing)
      | Normal (prompt, filePath, content) =>
          if negb (truthy prompt) then (Resolved (bad_request rt), nothing)
          else try_agent rt generateText prompt filePath content
      end
  end.

End Route.

(** ** [Date.prototype.toISOString] *)
Module DateTime.
Local Open Scope Z_scope.

Definition msPerDay : Z := 86400000.

(** The largest time value of a Date, 8.64e15 ms either side of the epoch. *)
Definition maxTime : Z := 8640000000000000.

(** Year, month (1..12) and day of the month of a day number counted from
    1970-01-01, in the proleptic Gregorian calendar: the day is located in
    its 400-year era, then within the year that starts on 1 March. *)
Definition civil_from_days (days : Z) : Z * Z * Z :=
  let z := days + 719468 in
  let era := z / 146097 in
  let doe := z - era * 146097 in
  let yoe := (doe - doe / 1460 + doe / 36524 - doe / 146096) / 365 in
  let doy := doe - (365 * yoe + yoe / 4 - yoe / 100) in
  let mp := (5 * doy + 2) / 153 in
  let d := doy - (153 * mp + 2) / 5 + 1 in
  let m := if mp <? 10 then mp + 3 else mp - 9 in
  let y := yoe + era * 400 in
  (if m <=? 2 then y + 1 else y, m, d).

Definition digit (k : Z) : ascii := ascii_of_N (48 + Z.to_N k).

(** The last [k] decimal digits of [n]. *)
Fixpoint digits (k : nat) (n : Z) : string :=
  match k with
  | O => EmptyString
  | S k' => digits k' (n / 10) ++ String (digit (n mod 10)) EmptyString
  end.

Definition year_text (y : Z) : string :=
  if ((0 <=? y) && (y <=? 9999))%bool then digits 4 y
  else if y <? 0 then String "-" (digits 6 (- y))
  else String "+" (digits 6 y).

(** [new Date(tv).toISOString()]; a RangeError beyond the time range. *)
Definition toISOString (tv : Z) : Json.completion string :=
  if ((tv <? - maxTime) || (maxTime <? tv))%bool then Json.Throw "Invalid time value"
  else
    let day := tv / msPerDay in
    let t := tv mod msPerDay in
    match civil_from_days day with
    | (y, m, d) =>
        Json.Normal
          (year_text y ++ "-" ++ digits 2 m ++ "-" ++ digits 2 d ++ "T"
             ++ digits 2 (t / 3600000) ++ ":" ++ digits 2 ((t / 60000) mod 60) ++ ":"
             ++ digits 2 ((t / 1000) mod 60) ++ "." ++ digits 3 (t mod 1000) ++ "Z")
    end.

(** *** Reading an ISO 8601 timestamp *)

(** [k] digits at the head of [s]: their value and the rest. *)
Fixpoint field (k : nat) (acc : Z) (s : string) : option (Z * string) :=
  match k with
  | O => Some (acc, s)
  | S k' =>
      match s with
      | EmptyString => None
      | String c s' =>
          if Js.is_digit c then field k' (10 * acc + (Z.of_N (Js.code c) - 48)) s'
          else None
      end
  end.

Definition expect (c : ascii) (s : string) : option string :=
  match s with
  | String d s' => if Ascii.eqb c d then Some s' else None
  | EmptyString => None
  end.

Definition in_range (lo hi : Z) (r : option (Z * string)) : option string :=
  match r with
  | Some (n, s) => if ((lo <=? n) && (n <=? hi))%bool then Some s else None
  | None => None
  end.

Definition then_ {A} (o : option string) (f : string -> option A) : option A :=
  match o with Some s => f s | None => None end.

(** A complete date and time in UTC, extended format: a year of four digits
    or a signed year of six, [-MM-DD], [T], [hh:mm:ss], a fraction of three
    digits and [Z]; month, day, hour, minute and second within their ranges. *)
Definition iso8601 (s : string) : bool :=
  let year :=
    match s with
    | String c s' =>
        if (Ascii.eqb c "+" || Ascii.eqb c "-")%bool
        then in_range 0 999999 (field 6 0 s')
        else in_range 0 9999 (field 4 0 s)
    | EmptyString => None
    end in
  match
    then_ year (fun s1 =>
    then_ (expect "-" s1) (fun s2 =>
    then_ (in_range 1 12 (field 2 0 s2)) (fun s3 =>
    then_ (expect "-" s3) (fun s4 =>
    then_ (in_range 1 31 (field 2 0 s4)) (fun s5 =>
    then_ (expect "T" s5) (fun s6 =>
    then_ (in_range 0 23 (field 2 0 s6)) (fun s7 =>
    then_ (expect ":" s7) (fun s8 =>
    then_ (in_range 0 59 (field 2 0 s8)) (fun s9 =>
    then_ (expect ":" s9) (fun s10 =>
    then_ (in_range 0 59 (field 2 0 s10)) (fun s11 =>
    then_ (expect "." s11) (fun s12 =>
    then_ (in_range 0 999 (field 3 0 s12)) (fun s13 =>
    expect "Z" s13)))))))))))))
  with
  | Some EmptyString => true
  | _ => false
  end.

End DateTime.

(** ** save_analysis *)
Module SaveAnalysis.
Import Json JsObject.

(** The input the schema accepts. *)
Record analysisData : Type := {
  filename : string;
  summary : string;
  keyPoints : option (list string);
  entities : option (list string);
  topics : option (list string);
  wordCount : number;
  sourceFile : string
}.

Definition strings (l : list string) : value := Arr (map Str l).

Definition optional (k : string) (o : option (list string)) : props value :=
  match o with
  | Some l => [(k, strings l)]
  | None => []
  end.

(** The object handed to [execute]: the properties in the order of the
    schema, the optional ones only when given. *)
Definition to_object (a : analysisData) : props value :=
  ([("filename", Str (filename a)); ("summary", Str (summary a))]
     ++ optional "keyPoints" (keyPoints a)
     ++ optional "entities" (entities a)
     ++ optional "topics" (topics a)
     ++ [("wordCount", Num (wordCount a)); ("sourceFile", Str (sourceFile a))])%list.

(** The input with another word count. *)
Definition with_wordCount (a : analysisData) (n : number) : analysisData :=
  {| filename := filename a;
     summary := summary a;
     keyPoints := keyPoints a;
     entities := entities a;
     topics := topics a;
     wordCount := n;
     sourceFile := sourceFile a |}.

(** [{ ...analysisData, generatedAt }]: the own properties are copied in the
    order of their keys, then [generatedAt] is set. *)
Definition payload (a : analysisData) (generatedAt : string) : props value :=
  set_own (entries (to_object a)) "generatedAt" (Str generatedAt).

Inductive save_result : Type :=
| Saved (savedPath : string)
| SaveError (error : string).

Definition save_analysis (rt : Numerals) (a : analysisData) (outputPath : string)
  : Io.IO save_result :=
  t <- Io.date_now ;;
  match DateTime.toISOString t with
  | Throw m => Io.ret (SaveError m)
  | Normal generatedAt =>
      r <- Io.writeFileSync outputPath (stringify_2 rt (Obj (payload a generatedAt))) ;;
      match r with
      | Io.FsOk _ => Io.ret (Saved outputPath)
      | Io.FsThrow m => Io.ret (SaveError m)
      end
  end.

End SaveAnalysis.

(** ** Runs of characters: what the quantified classes of the tools amount to *)
Module Text.
Import Regex.

(** A greedy run of characters in [p] from the current position, with
    backtracking: the continuation is tried after the longest run first, then
    after each shorter one. *)
Fixpoint greedy (p : ascii -> bool) (c : cont) (pr : option ascii) (s : string) (i : nat)
  : option mstate :=
  let here := c {| prev := pr; rest := s; pos := i |} in
  match s with
  | EmptyString => here
  | String ch s' =>
      if p ch then
        match greedy p c (Some ch) s' (S i) with
        | Some z => Some z
        | None => here
        end
      else here
  end.

(** The state after the longest run of characters in [p]. *)
Fixpoint past_run (p : ascii -> bool) (pr : option ascii) (s : string) (i : nat) : mstate :=
  match s with
  | EmptyString => {| prev := pr; rest := s; pos := i |}
  | String ch s' =>
      if p ch then past_run p (Some ch) s' (S i)
      else {| prev := pr; rest := s; pos := i |}
  end.

(** The text after the leading characters in [p]. *)
Fixpoint skip_run (p : ascii -> bool) (s : string) : string :=
  match s with
  | EmptyString => EmptyString
  | String ch s' => if p ch then skip_run p s' else s
  end.

(** The pieces of a text between its maximal runs of separator characters;
    the head of the list is the piece being read.  [skipping]: the character
    before was a separator. *)
Fixpoint pieces (p : ascii -> bool) (skipping : bool) (s : string) : list string :=
  match s with
  | EmptyString => [""]
  | String ch s' =>
      if p ch then
        if skipping then pieces p true s' else "" :: pieces p true s'
      else
        match pieces p false s' with
        | h :: t => String ch h :: t
        | [] => [String ch ""]
        end
  end.

(** The number of places where a word starts: a character outside [p] at the
    start of the text or after a character in [p]. *)
Fixpoint word_starts (p : ascii -> bool) (after_sep : bool) (s : string) : nat :=
  match s with
  | EmptyString => 0
  | String ch s' =>
      if p ch then word_starts p true s'
      else (if after_sep then 1 else 0) + word_starts p false s'
  end.

Fixpoint all_chars_in (p : ascii -> bool) (s : string) : bool :=
  match s with
  | EmptyString => true
  | String ch s' => (p ch && all_chars_in p s')%bool
  end.

Fixpoint count_char (a : ascii) (s : string) : nat :=
  match s with
  | EmptyString => 0
  | String ch s' => (if Ascii.eqb ch a then 1 else 0) + count_char a s'
  end.

(** Each maximal run of characters in [p] replaced by [by_].  [in_run]: the
    character before was in [p]. *)
Fixpoint squeeze (p : ascii -> bool) (by_ : string) (in_run : bool) (s : string) : string :=
  match s with
  | EmptyString => EmptyString
  | String ch s' =>
      if p ch then
        if in_run then squeeze p by_ true s' else by_ ++ squeeze p by_ true s'
      else String ch (squeeze p by_ false s')
  end.

(** The text starts with a character outside [p]. *)
Definition starts_outside (p : ascii -> bool) (s : string) : bool :=
  match s with
  | EmptyString => false
  | String c _ => negb (p c)
  end.

(** The characters a word of analyze_document can hold: [a-z0-9_]. *)
Definition is_token_char (c : ascii) : bool :=
  (Js.between 97 122 c || Js.is_digit c || N.eqb (Js.code c) 95)%bool.

(** The characters that end a sentence for analyze_document. *)
Definition is_terminator (c : ascii) : bool :=
  (Ascii.eqb c "." || Ascii.eqb c "!" || Ascii.eqb c "?")%bool.

(** [e] occurs in [s]. *)
Definition excerpt (e s : string) : Prop := exists pre post, s = pre ++ e ++ post.

(** The text starts with a character in [p]. *)
Definition starts_with (p : ascii -> bool) (s : string) : bool :=
  match s with
  | EmptyString => false
  | String c _ => p c
  end.

(** Every white-space character of the text is a blank, and no white-space
    character follows it. *)
Fixpoint single_spaced (s : string) : bool :=
  match s with
  | EmptyString => true
  | String c s' =>
      ((if Js.is_space c
        then Ascii.eqb c " " && negb (starts_with Js.is_space s')
        else true)
       && single_spaced s')%bool
  end.

(** Two reported matches lie at least [n] characters apart. *)
Definition apart (n : nat) (a b : Search.search_match) : Prop :=
  (Search.position a + Z.of_nat n <= Search.position b)%Z.

End Text.

(** ** read_file *)
Module ReadFile.

Inductive read_result : Type :=
| ReadOk (path : string) (output : string)
| ReadError (path : string) (error : string).

(** The result and the arguments of the call of [console.error], if any. *)
Definition read_file (path : string) : Io.IO (read_result * list string) :=
  output <- Io.readFileSync_utf8 path ;;
  match output with
  | Io.FsOk text => Io.ret (ReadOk path text, [])
  | Io.FsThrow msg =>
      Io.ret (ReadError path msg, ["Error reading file at " ++ path ++ ":"; msg])
  end.

End ReadFile.

(** ** What a tool leaves as it was *)
Module Frame.

(** Nothing but the log of calls differs between the two worlds. *)
Definition unchanged (w w' : Io.World) : Prop :=
  Io.files w' = Io.files w /\ Io.buffers w' = Io.buffers w
  /\ Io.dirs w' = Io.dirs w /\ Io.write_error w' = Io.write_error w
  /\ Io.now w' = Io.now w.

Definition is_read (op : Io.fs_op) : bool :=
  match op with
  | Io.OpReaddir _ _ | Io.OpReadFile _ => true
  | Io.OpWriteFile _ _ => false
  end.

(** The second world is the first after at most one call, a read. *)
Definition read_only (w w' : Io.World) : Prop :=
  unchanged w w'
  /\ exists ops, Io.log w' = (Io.log w ++ ops)%list
                 /\ List.length ops <= 1 /\ forallb is_read ops = true.

End Frame.

(** ** detect_document_type *)
Module DetectType.
Import JsObject.

(** What the tool reads of [fs.statSync(filePath)]. *)
Record Stats : Type := { size : N; mtime : Z }.

Definition typeMap : props string :=
  [(".txt", "txt"); (".md", "markdown"); (".json", "json"); (".csv", "csv");
   (".html", "html"); (".htm", "html"); (".pdf", "pdf")].

(** The value of [typeMap[ext] || "unknown"]: a label, or the member that the
    plain object [typeMap] inherits from [Object.prototype] under that key
    (an object or a function, which is truthy). *)
Inductive detected : Type :=
| Label (type : string)
| Inherited (key : string).

Definition detect (ext : string) : detected :=
  match get_own typeMap ext with
  | Some label => if Js.truthy_string label then Label label else Label "unknown"
  | None =>
      match object_prototype ext with
      | Absent => Label "unknown"
      | _ => Inherited ext
      end
  end.

Record detection : Type := {
  filePath : string;
  type : detected;
  extension : string;
  sizeBytes : N;
  lastModified : Z
}.

Inductive detect_result : Type :=
| DetectOk (d : detection)
| DetectError (error : string) (path : string).

(** The tool, given what [fs.statSync] answers for each path. *)
Definition detect_document_type (statSync : string -> Io.fs_result Stats)
           (path : string) : detect_result :=
  if Agent.protected_path path
  then DetectError "Cannot analyze protected path" path
  else
    match statSync path with
    | Io.FsThrow msg => DetectError msg path
    | Io.FsOk stats =>
        let ext := Js.toLowerCase (Path.extname path) in
        DetectOk {| filePath := path; type := detect ext; extension := ext;
                    sizeBytes := size stats; lastModified := mtime stats |}
    end.

(** What holds of the state of the backwards loop of [path.extname] over
    [path] when the indices from [n] on have been visited: the end of the
    extension lies beyond them and within the path, and the dot that starts
    it is a dot of the path before that end. *)
Definition ext_inv (path : string) (n : Z) (st : Path.ext_state) : Prop :=
  ((Path.finish st = -1
    \/ (n < Path.finish st /\ Path.finish st <= Z.of_nat (String.length path)))
   /\ (Path.startDot st = -1
       \/ (0 <= Path.startDot st /\ n <= Path.startDot st
           /\ Path.startDot st < Path.finish st
           /\ String.get (Z.to_nat (Path.startDot st)) path = Some "."%char)))%Z.

(** The labels of the type map, and [unknown]. *)
Definition labels : list string :=
  ["txt"; "markdown"; "json"; "csv"; "html"; "pdf"; "unknown"].

End DetectType.

(** ** The JSON case of extract_text_content *)
Module JsonCase.
Import Json.

(** [JSON.stringify(JSON.parse(raw), null, 2)]; [None] when [JSON.parse]
    throws. *)
Definition reindent (rt : Numerals) (raw : string) : option string :=
  match parse rt raw with
  | Some v => Some (stringify_2 rt v)
  | None => None
  end.

(** The library with this re-indentation and a given PDF parser. *)
Definition library (rt : Numerals) (pdf : string -> Io.fs_result string)
  : ExtractText.Library :=
  {| ExtractText.pdf := pdf; ExtractText.json_reindent := reindent rt |}.

(** The numeral of a Number stays the same when it is read and printed
    again. *)
Definition stable (rt : Numerals) (n : number) : Prop :=
  to_string rt (of_string rt (to_string rt n)) = to_string rt n.

(** save_analysis, then read_file on the same path. *)
Definition save_then_read (rt : Numerals) (a : SaveAnalysis.analysisData)
           (outputPath : string)
  : Io.IO (SaveAnalysis.save_result * (ReadFile.read_result * list string)) :=
  saved <- SaveAnalysis.save_analysis rt a outputPath ;;
  read <- ReadFile.read_file outputPath ;;
  Io.ret (saved, read).

(** save_analysis, then extract_text_content on the same path. *)
Definition save_then_extract (rt : Numerals) (lib : ExtractText.Library)
           (a : SaveAnalysis.analysisData) (outputPath : string)
  : Io.IO (SaveAnalysis.save_result * ExtractText.extract_result) :=
  saved <- SaveAnalysis.save_analysis rt a outputPath ;;
  extracted <- ExtractText.extract_text_content lib outputPath ;;
  Io.ret (saved, extracted).

End JsonCase.

(** ** Tags: what the replacement of [/<[^>]*>/g] amounts to *)
Module Tags.

Definition is_gt (c : ascii) : bool := Ascii.eqb c ">".
Definition not_gt (c : ascii) : bool := negb (Ascii.eqb c ">").

(** A [>] occurs in the text. *)
Fixpoint has_gt (s : string) : bool :=
  match s with
  | EmptyString => false
  | String c s' => (is_gt c || has_gt s')%bool
  end.

(** Each [<] that a [>] follows is replaced, up to the first such [>], by
    [by_].  [in_tag]: the text is inside such a stretch. *)
Fixpoint strip (by_ : string) (in_tag : bool) (s : string) : string :=
  match s with
  | EmptyString => EmptyString
  | String c s' =>
      if in_tag then
        if is_gt c then strip by_ false s' else strip by_ true s'
      else if (Ascii.eqb c "<" && has_gt s')%bool then by_ ++ strip by_ true s'
      else String c (strip by_ false s')
  end.

(** No [<] of the text is followed, anywhere after it, by a [>]: the text
    holds no complete tag. *)
Fixpoint no_tag (s : string) : bool :=
  match s with
  | EmptyString => true
  | String c s' => ((negb (Ascii.eqb c "<") || negb (has_gt s')) && no_tag s')%bool
  end.

End Tags.

(** ** The keys of the frequency object *)
Module TopicKeys.

(** A token that assignment can make an own property of a plain object:
    every token but [__proto__]. *)
Definition storable (w : string) : bool := negb (String.eqb w "__proto__").

(** The distinct counted tokens that the frequency object can hold, in the
    order of their first occurrence. *)
Definition distinct_tokens (words : list string) : list string :=
  filter storable (JsObject.first_occurrences (filter Analyze.counted words)).

End TopicKeys.

(** ** Sample collaborators, for running the definitions *)
Module Samples.

(** Numerals for the integers 0..9 only; every other Number prints as 0. *)
Definition numerals : Json.Numerals :=
  {| Json.to_string := fun n =>
       match n with
       | S754_finite false m 0 =>
           if Pos.leb m 9 then String (ascii_of_pos (48 + m)) "" else "0"
       | _ => "0"
       end;
     Json.of_string := fun s =>
       match s with
       | String c EmptyString =>
           match (Js.code c - 48)%N with
           | N0 => S754_zero false
           | Npos p => if Pos.leb p 9 then S754_finite false p 0 else S754_zero false
           end
       | _ => S754_zero false
       end |}.

Definition sample_html : string := "<script>evil()</script><p>Hi <b>there</b></p>".

(** The double quote, for writing JSON texts. *)
Definition q : string := String "034" "".

(** A model that answers every prompt with the same text. *)
Definition model : Route.Model := fun _ => Route.Resolved "done".

(** An empty file system at the epoch. *)
Definition world : Io.World :=
  {| Io.files := fun _ => Io.FsThrow "ENOENT: no such file or directory";
     Io.buffers := fun _ => Io.FsThrow "ENOENT: no such file or directory";
     Io.dirs := fun _ => Io.FsThrow "ENOENT: no such file or directory";
     Io.write_error := fun _ => None;
     Io.now := 0;
     Io.log := [] |}.

Definition analysis : SaveAnalysis.analysisData :=
  {| SaveAnalysis.filename := "report.txt";
     SaveAnalysis.summary := "Two " ++ String "034" "quoted" ++ String "034" " lines" ++ String "010" "and a tab" ++ String "009" ".";
     SaveAnalysis.keyPoints := Some ["first"; "second \ third"];
     SaveAnalysis.entities := None;
     SaveAnalysis.topics := Some [];
     SaveAnalysis.wordCount := S754_finite false 7 0;
     SaveAnalysis.sourceFile := "docs/report.txt" |}.

Definition library : ExtractText.Library :=
  {| ExtractText.pdf := fun _ => Io.FsThrow "Invalid PDF structure";
     ExtractText.json_reindent := fun _ => None |}.

End Samples.

(* ================================================================== *)
(** * Theorems *)
(* ================================================================== *)

(** ** Strings *)
Section StringFacts.

Lemma append_assoc (a b c : string) : (a ++ b) ++ c = a ++ (b ++ c).
Proof. induction a as [|x a IH]; simpl; [reflexivity | now rewrite IH]. Qed.

Lemma length_append (a b : string) :
  String.length (a ++ b) = String.length a + String.length b.
Proof. induction a as [|x a IH]; simpl; [reflexivity | now rewrite IH]. Qed.

Lemma length_take (n : nat) (s : string) :
  n <= String.length s -> String.length (Js.take n s) = n.
Proof.
  revert s. induction n as [|n IH]; intros [|c s]; simpl; intros H; try lia.
  rewrite IH; lia.
Qed.

Lemma length_drop (n : nat) (s : string) :
  String.length (Js.drop n s) = String.length s - n.
Proof.
  revert s. induction n as [|n IH]; intros [|c s]; simpl; try lia. apply IH.
Qed.

Lemma take_append (a b : string) : Js.take (String.length a) (a ++ b) = a.
Proof. induction a as [|x a IH]; simpl; [now destruct b | now rewrite IH]. Qed.

Lemma drop_drop (n m : nat) (s : string) :
  Js.drop n (Js.drop m s) = Js.drop (m + n) s.
Proof.
  revert s. induction m as [|m IH]; intros s; simpl; [reflexivity|].
  destruct s as [|c s]; [now destruct n | apply IH].
Qed.

End StringFacts.

(** ** The route handler *)
Section RouteFacts.
Import Json Route.

Variable rt : Numerals.
Variable generateText : Model.

Lemma error_body_text (msg : string) :
  stringify rt (Obj [("error", Str msg)])
  = "{" ++ quote "error" ++ ":" ++ quote msg ++ "}".
Proof. reflexivity. Qed.

Lemma destructure_not_null (body : value) :
  body <> Null ->
  destructure body
  = Normal (get body "prompt", get body "filePath", get body "content").
Proof. destruct body; simpl; congruence. Qed.

(** C1, at the failing input: when [request.json()] rejects (the body is not
    JSON), the promise returned by [POST] rejects with the same reason; no
    response is produced and nothing is logged. *)
Theorem POST_malformed_body_rejects (reason : string) :
  POST rt generateText {| json := Rejected reason |} = (Rejected reason, nothing).
Proof. reflexivity. Qed.

(** The same for the JSON text [null]: destructuring throws before the
    [try] block is entered. *)
Lemma POST_null_body_rejects :
  exists reason,
    POST rt generateText {| json := Resolved Null |} = (Rejected reason, nothing).
Proof. eexists. reflexivity. Qed.

(** Once the body is parsed and destructured, the handler always resolves,
    with one of three responses. *)
Lemma POST_resolves (body : value) :
  body <> Null ->
  exists resp eff,
    POST rt generateText {| json := Resolved body |} = (Resolved resp, eff)
    /\ (resp = bad_request rt \/ resp = error_500 rt
        \/ exists text, resp = json_response rt 200 (Obj [("response", Str text)])).
Proof.
  intros Hnn. unfold POST. cbn [json].
  rewrite (destructure_not_null body Hnn).
  destruct (truthy (get body "prompt")); cbn [negb];
    [|do 2 eexists; split; [reflexivity|auto]].
  unfold try_agent.
  destruct (fullPrompt rt _ _ _) as [full|m];
    [|do 2 eexists; split; [reflexivity|auto]].
  destruct (documentAgent generateText full) as [res|e];
    do 2 eexists; (split; [reflexivity|eauto]).
Qed.

(** C9: a parsed body whose [prompt] is absent or falsy (null, false, a zero,
    the empty string) is answered with status 400 and the body
    [{"error":"Prompt is required"}], and the agent is not called. *)
Theorem POST_falsy_prompt (body : value) :
  body <> Null ->
  truthy (get body "prompt") = false ->
  POST rt generateText {| json := Resolved body |}
  = (Resolved {| status := 400; content_type := "application/json";
                 body := "{" ++ quote "error" ++ ":"
                             ++ quote "Prompt is required" ++ "}" |},
     {| agent_calls := []; logged := [] |}).
Proof.
  intros Hnn Hf. unfold POST. cbn [json].
  rewrite (destructure_not_null body Hnn), Hf. reflexivity.
Qed.

End RouteFacts.

(** The falsy prompts of JSON: absent, null, false, +0, -0 and the empty
    string. *)
Lemma falsy_prompts :
  map (fun v => Json.truthy (Json.get v "prompt"))
      [Json.Obj []; Json.Obj [("prompt", Json.Null)];
       Json.Obj [("prompt", Json.Bool false)];
       Json.Obj [("prompt", Json.Num (S754_zero false))];
       Json.Obj [("prompt", Json.Num (S754_zero true))];
       Json.Obj [("prompt", Json.Str "")]; Json.Str "prompt"; Json.Arr []]
  = [false; false; false; false; false; false; false; false].
Proof. reflexivity. Qed.

Lemma POST_falsy_prompt_witness :
  Route.POST Samples.numerals Samples.model
    {| Route.json := Route.Resolved (Json.Obj [("prompt", Json.Str "")]) |}
  = (Route.Resolved
       {| Route.status := 400; Route.content_type := "application/json";
          Route.body := "{" ++ Json.quote "error" ++ ":"
                            ++ Json.quote "Prompt is required" ++ "}" |},
     {| Route.agent_calls := []; Route.logged := [] |}).
Proof.
  apply (POST_falsy_prompt Samples.numerals Samples.model
           (Json.Obj [("prompt", Json.Str "")])).
  - discriminate.
  - reflexivity.
Defined.

(** ** list_files *)
Section ListFilesFacts.
Import Io ListFiles.

(** C8: for the literal paths [.git] and [node_modules] the tool answers with
    its error object and leaves the world, and so the log of file-system
    calls, as it was; for every other argument it makes exactly one call,
    [readdirSync] with [recursive: false] on the target path, and answers
    with that call's listing or error message. *)
Theorem list_files_protected_or_read (w : World) (generatedPath : option string) :
  (forall p, generatedPath = Some p -> p = ".git" \/ p = "node_modules" ->
     list_files generatedPath w = (ListProtected "Cannot list protected path" p, w))
  /\ (generatedPath <> Some ".git" -> generatedPath <> Some "node_modules" ->
      list_files generatedPath w
      = (match dirs w (targetPath generatedPath) with
         | FsOk l => ListOk (targetPath generatedPath) l
         | FsThrow msg => ListError msg
         end,
         record (OpReaddir (targetPath generatedPath) false) w)).
Proof.
  split.
  - intros p -> [-> | ->]; reflexivity.
  - intros H1 H2.
    assert (E : list_files generatedPath = read_directory (targetPath generatedPath)).
    { unfold list_files. destruct generatedPath as [p|]; [|reflexivity].
      destruct (Agent.protected_path p) eqn:E; [|reflexivity].
      unfold Agent.protected_path in E. apply orb_true_iff in E.
      destruct E as [E|E]; apply String.eqb_eq in E; subst; congruence. }
    rewrite E. unfold read_directory, bind, readdirSync.
    destruct (dirs w (targetPath generatedPath)); reflexivity.
Qed.

End ListFilesFacts.

Lemma list_files_witness :
  ListFiles.list_files (Some ".git") Samples.world
  = (ListFiles.ListProtected "Cannot list protected path" ".git", Samples.world)
  /\ Io.log (snd (ListFiles.list_files (Some "docs") Samples.world))
     = [Io.OpReaddir "docs" false]
  /\ Io.log (snd (ListFiles.list_files (Some "  ") Samples.world))
     = [Io.OpReaddir "." false].
Proof.
  destruct (list_files_protected_or_read Samples.world (Some ".git")) as [Hp _].
  destruct (list_files_protected_or_read Samples.world (Some "docs")) as [_ Hd].
  destruct (list_files_protected_or_read Samples.world (Some "  ")) as [_ Hb].
  split; [apply (Hp ".git" eq_refl); left; reflexivity|].
  split.
  - rewrite Hd; [reflexivity | discriminate | discriminate].
  - rewrite Hb; [reflexivity | discriminate | discriminate].
Defined.

(** ** extract_text_content *)
Section ExtractFacts.
Import Io ExtractText.

Lemma extname_not_protected (path : string) :
  Path.extname path <> "" -> Agent.protected_path path = false.
Proof.
  intros H. destruct (Agent.protected_path path) eqn:E; [|reflexivity].
  unfold Agent.protected_path in E. apply orb_true_iff in E.
  destruct E as [E|E]; apply String.eqb_eq in E; subst; exfalso; apply H;
    vm_compute; reflexivity.
Qed.

(** C5: on a path whose extension is .html or .htm (in any letter case) and
    whose file holds [<script>evil()</script><p>Hi <b>there</b></p>], the
    extracted text is exactly [Hi there]: the script block is removed first,
    then each tag becomes a blank, then runs of white space collapse to one
    blank, and the result is trimmed. *)
Theorem extract_html_sample (lib : Library) (w : World) (path : string) :
  Js.toLowerCase (Path.extname path) = ".html"
  \/ Js.toLowerCase (Path.extname path) = ".htm" ->
  files w path = FsOk Samples.sample_html ->
  fst (extract_text_content lib path w)
  = ExtractOk {| filePath := path; extractedText := "Hi there";
                 wordCount := 2; isPdf := false |}
  /\ Regex.replace_global true script_re (fun _ => "") Samples.sample_html
     = "<p>Hi <b>there</b></p>"
  /\ Regex.replace_global false tag_re (fun _ => " ") "<p>Hi <b>there</b></p>"
     = " Hi  there  "
  /\ Regex.replace_global false Agent.spaces_re (fun _ => " ") " Hi  there  "
     = " Hi there "
  /\ Js.trim " Hi there " = "Hi there".
Proof.
  intros Hext Hfile.
  split; [|repeat split; vm_compute; reflexivity].
  unfold extract_text_content.
  rewrite extname_not_protected
    by (intros E; rewrite E in Hext; destruct Hext; discriminate).
  unfold bind, readFileSync_utf8.
  destruct Hext as [-> | ->]; cbn -[html_to_text count_words];
    rewrite Hfile; vm_compute; reflexivity.
Qed.

End ExtractFacts.

Lemma extract_html_sample_witness :
  fst (ExtractText.extract_text_content Samples.library "site/Index.HTML"
         {| Io.files := fun _ => Io.FsOk Samples.sample_html;
            Io.buffers := fun _ => Io.FsOk Samples.sample_html;
            Io.dirs := Io.dirs Samples.world;
            Io.write_error := fun _ => None; Io.now := 0; Io.log := [] |})
  = ExtractText.ExtractOk
      {| ExtractText.filePath := "site/Index.HTML";
         ExtractText.extractedText := "Hi there";
         ExtractText.wordCount := 2; ExtractText.isPdf := false |}.
Proof.
  refine (proj1 (extract_html_sample Samples.library _ "site/Index.HTML" _ _)).
  - left. vm_compute. reflexivity.
  - reflexivity.
Defined.

(** ** search_document on the example of the specification *)
Section SearchExample.
Import Search.

(** C2, as the code behaves: with content [abcXYZdef], query [XYZ] and
    contextLength 3 the tool returns exactly one match, at position 3, whose
    text is the whole content [abcXYZdef]: the window reaches three
    characters to each side of the match. *)
Theorem search_example_window (fuel : nat) :
  search_document (2 + fuel) "abcXYZdef" "XYZ" 3
  = Some (SearchOk "XYZ" [{| text := "abcXYZdef"; position := 3 |}] 1).
Proof. vm_compute. reflexivity. Qed.

(** C2 as stated fails: no run of the tool on that input returns a single
    match with the text [bcXYZde]. *)
Lemma search_example_not_bcXYZde :
  ~ exists fuel query m total,
      search_document fuel "abcXYZdef" "XYZ" 3 = Some (SearchOk query [m] total)
      /\ text m = "bcXYZde" /\ position m = 3%Z.
Proof.
  intros (fuel & query & m & total & H & Ht & _).
  destruct fuel as [|[|fuel]].
  - vm_compute in H. discriminate.
  - vm_compute in H. discriminate.
  - vm_compute in H. injection H as _ <- _. simpl in Ht. discriminate.
Qed.

End SearchExample.

(** ** Sets of strings in insertion order *)
Section SetFacts.
Import JsObject.

Lemma existsb_eqb_In (x : string) (l : list string) :
  existsb (String.eqb x) l = true <-> In x l.
Proof.
  rewrite existsb_exists. split.
  - intros (y & Hy & E). apply String.eqb_eq in E. now subst.
  - intros H. exists x. split; [assumption | apply String.eqb_refl].
Qed.

Lemma filter_filter_comm {A} (p q : A -> bool) (l : list A) :
  filter p (filter q l) = filter q (filter p l).
Proof.
  induction l as [|a l IH]; simpl; [reflexivity|].
  destruct (q a) eqn:Q, (p a) eqn:P; simpl; rewrite ?Q, ?P, IH; reflexivity.
Qed.

Lemma filter_implied {A} (p q : A -> bool) (l : list A) :
  (forall a, p a = true -> q a = true) ->
  filter p (filter q l) = filter p l.
Proof.
  intros H. induction l as [|a l IH]; simpl; [reflexivity|].
  destruct (q a) eqn:Q; simpl.
  - destruct (p a); rewrite IH; reflexivity.
  - destruct (p a) eqn:P; [apply H in P; congruence | exact IH].
Qed.

Lemma filter_and {A} (p q : A -> bool) (l : list A) :
  filter p (filter q l) = filter (fun a => (p a && q a)%bool) l.
Proof.
  induction l as [|a l IH]; simpl; [reflexivity|].
  destruct (q a) eqn:Q, (p a) eqn:P; simpl; rewrite ?P, IH; reflexivity.
Qed.

Lemma first_occurrences_filter (p : string -> bool) (l : list string) :
  first_occurrences (filter p l) = filter p (first_occurrences l).
Proof.
  induction l as [|y l IH]; simpl; [reflexivity|].
  destruct (p y) eqn:P; simpl.
  - rewrite IH, filter_filter_comm. reflexivity.
  - rewrite IH. symmetry. apply filter_implied.
    intros a Ha. destruct (String.eqb a y) eqn:E; [|reflexivity].
    apply String.eqb_eq in E. congruence.
Qed.

Lemma In_first_occurrences (x : string) (l : list string) :
  In x (first_occurrences l) <-> In x l.
Proof.
  induction l as [|y l IH]; simpl; [tauto|].
  rewrite filter_In, IH. split.
  - intros [H | [H _]]; auto.
  - intros [H | H]; [auto|].
    destruct (String.eqb x y) eqn:E.
    + apply String.eqb_eq in E. auto.
    + right. split; [assumption | reflexivity].
Qed.

Lemma NoDup_filter {A} (p : A -> bool) (l : list A) : NoDup l -> NoDup (filter p l).
Proof.
  induction 1 as [|a l Hn Hd IH]; simpl; [constructor|].
  destruct (p a); [|assumption].
  constructor; [|assumption]. rewrite filter_In. tauto.
Qed.

Lemma NoDup_first_occurrences (l : list string) : NoDup (first_occurrences l).
Proof.
  induction l as [|y l IH]; simpl; constructor.
  - rewrite filter_In. intros [_ H]. rewrite String.eqb_refl in H. discriminate.
  - apply NoDup_filter, IH.
Qed.

Lemma fold_set_add (l acc : list string) :
  fold_left set_add l acc
  = (acc ++ first_occurrences
              (filter (fun x => negb (existsb (String.eqb x) acc)) l))%list.
Proof.
  revert acc. induction l as [|x l IH]; intros acc; simpl.
  - now rewrite app_nil_r.
  - unfold set_add at 2. destruct (existsb (String.eqb x) acc) eqn:E; simpl.
    + apply IH.
    + rewrite IH, <- app_assoc. simpl. do 2 f_equal.
      rewrite <- first_occurrences_filter. f_equal.
      rewrite filter_and. apply filter_ext. intros a.
      rewrite existsb_app. simpl. rewrite orb_false_r, negb_orb.
      apply andb_comm.
Qed.

(** [new Set] keeps the first occurrence of every member. *)
Lemma new_Set_first_occurrences (l : list string) :
  new_Set l = first_occurrences l.
Proof.
  unfold new_Set. rewrite fold_set_add. simpl. f_equal.
  induction l as [|x l IH]; simpl; congruence.
Qed.

End SetFacts.

(** ** analyze_document: summary and entities *)
Section AnalyzeFacts.
Import Analyze JsObject.

Lemma fragment_truthy (content s : string) :
  In s (fragments content) -> Js.truthy_string s = true.
Proof.
  unfold fragments. intros H. apply filter_In in H as [_ H].
  destruct s; [discriminate H | reflexivity].
Qed.

Lemma at_index_nth (l : list string) (i : nat) :
  i < List.length l -> at_index l (Z.of_nat i) = Some (nth i l "").
Proof.
  intros H. unfold at_index.
  destruct (Z.ltb_spec (Z.of_nat i) 0); [lia|].
  rewrite Nat2Z.id. now apply nth_error_nth'.
Qed.

(** C4: when the fragment list has n > 0 entries, the summary of the modes
    [full] and [summary_only] is the trimmed fragments at the indices 0,
    floor(n/2) and n-1, joined with a full stop and a blank and closed with a
    full stop. *)
Theorem summary_first_middle_last (content : string) (t : analyzeType) :
  t = full \/ t = summary_only ->
  fragments content <> [] ->
  exists obj,
    analyze_document content t = AnalysisData obj
    /\ summary obj
       = Some (Js.trim (nth 0 (fragments content) "") ++ ". "
               ++ Js.trim (nth (List.length (fragments content) / 2)
                               (fragments content) "") ++ ". "
               ++ Js.trim (nth (List.length (fragments content) - 1)
                               (fragments content) "") ++ ".").
Proof.
  intros Ht Hne. eexists. split; [reflexivity|].
  cbn [summary]. replace (wants_summary t) with true by (destruct Ht; subst; reflexivity).
  f_equal. unfold summarize.
  set (fr := fragments content) in *.
  assert (Hn : 0 < List.length fr) by (destruct fr; [congruence | simpl; lia]).
  assert (Hmid : (Z.of_nat (List.length fr) / 2)%Z = Z.of_nat (List.length fr / 2)).
  { now rewrite (Nat2Z.inj_div _ 2). }
  assert (Hlast : (Z.of_nat (List.length fr) - 1)%Z = Z.of_nat (List.length fr - 1))
    by lia.
  rewrite Hmid, Hlast. change 0%Z with (Z.of_nat 0).
  rewrite !at_index_nth;
    [| lia | apply Nat.div_lt; lia | lia].
  unfold filter_Boolean. cbn [flat_map].
  assert (T : forall i, i < List.length fr -> Js.truthy_string (nth i fr "") = true)
    by (intros i Hi; apply (fragment_truthy content), nth_In, Hi).
  rewrite !T by first [lia | apply Nat.div_lt; lia].
  cbn [app map Js.join].
  now rewrite <- !append_assoc.
Qed.

(** C6: in the modes [full] and [entities_only] the entity list has no
    duplicate, has exactly the members of the first 20 capitalized-word
    matches, the e-mail matches, the phone matches and the URL matches, and
    lists them in the order of their first occurrence in that concatenation. *)
Theorem entities_distinct_union (content : string) (t : analyzeType) :
  t = full \/ t = entities_only ->
  let caps := Regex.match_global false caps_re content in
  let emails := Regex.match_global false email_re content in
  let phones := Regex.match_global false phone_re content in
  let urls := Regex.match_global false url_re content in
  exists obj es,
    analyze_document content t = AnalysisData obj
    /\ entities obj = Some es
    /\ NoDup es
    /\ (forall x, In x es <->
                  In x (firstn 20 caps) \/ In x emails \/ In x phones \/ In x urls)
    /\ es = first_occurrences (firstn 20 caps ++ emails ++ phones ++ urls)%list.
Proof.
  intros Ht caps emails phones urls. do 2 eexists.
  split; [reflexivity|]. cbn [entities].
  replace (wants_entities t) with true by (destruct Ht; subst; reflexivity).
  split; [reflexivity|]. unfold extract_entities.
  rewrite new_Set_first_occurrences. fold caps emails phones urls.
  split; [apply NoDup_first_occurrences|]. split; [|reflexivity].
  intros x. rewrite In_first_occurrences, !in_app_iff. tauto.
Qed.

End AnalyzeFacts.

Lemma summary_first_middle_last_witness :
  exists obj,
    Analyze.analyze_document
      "The first sentence is here. A second sentence follows! And then the third one?"
      Analyze.summary_only = Analyze.AnalysisData obj
    /\ Analyze.summary obj
       = Some "The first sentence is here. A second sentence follows. And then the third one.".
Proof.
  destruct (summary_first_middle_last
              "The first sentence is here. A second sentence follows! And then the third one?"
              Analyze.summary_only) as (obj & H1 & H2).
  - right. reflexivity.
  - vm_compute. discriminate.
  - exists obj. split; [exact H1|]. rewrite H2. vm_compute. reflexivity.
Defined.

Lemma entities_distinct_union_witness :
  exists obj,
    Analyze.analyze_document
      "Alice met Bob. Alice wrote to bob@example.org and called 254712345678, see http://a.io/x"
      Analyze.entities_only = Analyze.AnalysisData obj
    /\ Analyze.entities obj
       = Some ["Alice"; "Bob"; "bob@example.org"; "254712345678"; "http://a.io/x"].
Proof.
  destruct (entities_distinct_union
              "Alice met Bob. Alice wrote to bob@example.org and called 254712345678, see http://a.io/x"
              Analyze.entities_only) as (obj & es & H1 & H2 & _ & _ & H5).
  - right. reflexivity.
  - exists obj. split; [exact H1|]. rewrite H2, H5. vm_compute. reflexivity.
Defined.

(** ** The matcher: its fuel is never used up *)
Section MatcherFuel.
Import Regex.

Lemma ahead_refl (x : mstate) : ahead x x.
Proof.
  exists 0. split; [lia|]. split; [now destruct (rest x) | lia].
Qed.

Lemma ahead_trans (x y z : mstate) : ahead x y -> ahead y z -> ahead x z.
Proof.
  intros (k & Hk & Hr & Hp) (j & Hj & Hr' & Hp').
  rewrite Hr, length_drop in Hj. exists (k + j).
  split; [lia|]. split; [now rewrite Hr', Hr, drop_drop | lia].
Qed.

Lemma ahead_length (x y : mstate) :
  ahead x y -> String.length (rest y) + (pos y - pos x) = String.length (rest x).
Proof. intros (k & Hk & Hr & Hp). rewrite Hr, length_drop. lia. Qed.

Lemma ahead_next (p : option ascii) (ch : ascii) (s : string) (i : nat) :
  ahead {| prev := p; rest := String ch s; pos := i |}
        {| prev := Some ch; rest := s; pos := S i |}.
Proof.
  exists 1. cbn. split; [lia|]. split; [now destruct s | lia].
Qed.

Lemma repeat_local (m : matcher) :
  local m ->
  forall fuel min max x c c',
    (forall y, ahead x y -> c y = c' y) ->
    repeat_matcher fuel m min max x c = repeat_matcher fuel m min max x c'.
Proof.
  intros Hm fuel. induction fuel as [|fuel IH]; intros min max x c c' H; [reflexivity|].
  assert (E : m x (fun y =>
                     if (Nat.eqb min 0 && Nat.eqb (pos y) (pos x))%bool then None
                     else repeat_matcher fuel m (Nat.pred min) (option_map Nat.pred max) y c)
              = m x (fun y =>
                     if (Nat.eqb min 0 && Nat.eqb (pos y) (pos x))%bool then None
                     else repeat_matcher fuel m (Nat.pred min) (option_map Nat.pred max) y c')).
  { apply Hm. intros y Hy. destruct (Nat.eqb min 0 && Nat.eqb (pos y) (pos x))%bool;
      [reflexivity|]. apply IH. intros z Hz. apply H. eapply ahead_trans; eauto. }
  cbn [repeat_matcher]. rewrite E, (H x (ahead_refl x)).
  destruct max as [[|n]|]; reflexivity.
Qed.

Lemma compile_local (ic : bool) (r : regex) : local (compile ic r).
Proof.
  induction r as [|cs|r1 IH1 r2 IH2|min max r IH| |r IH]; intros x c c' H; cbn [compile].
  - apply H, ahead_refl.
  - destruct x as [p [|ch s] i]; cbn [rest pos]; [reflexivity|].
    destruct (class_matches ic cs ch); [|reflexivity]. apply H, ahead_next.
  - apply IH1. intros y Hy. apply IH2. intros z Hz. apply H.
    eapply ahead_trans; eauto.
  - now apply repeat_local.
  - destruct (xorb _ _); [apply H, ahead_refl | reflexivity].
  - destruct (compile ic r x _); [reflexivity | apply H, ahead_refl].
Qed.

(** More fuel than [min + length (rest x)] changes nothing. *)
Lemma repeat_fuel (m : matcher) :
  local m ->
  forall fuel fuel' min max x c,
    min + String.length (rest x) < fuel ->
    min + String.length (rest x) < fuel' ->
    repeat_matcher fuel m min max x c = repeat_matcher fuel' m min max x c.
Proof.
  intros Hm fuel. induction fuel as [|fuel IH]; intros fuel' min max x c Hf Hf'; [lia|].
  destruct fuel' as [|fuel']; [lia|].
  assert (E : m x (fun y =>
                     if (Nat.eqb min 0 && Nat.eqb (pos y) (pos x))%bool then None
                     else repeat_matcher fuel m (Nat.pred min) (option_map Nat.pred max) y c)
              = m x (fun y =>
                     if (Nat.eqb min 0 && Nat.eqb (pos y) (pos x))%bool then None
                     else repeat_matcher fuel' m (Nat.pred min) (option_map Nat.pred max) y c)).
  { apply Hm. intros y Hy. pose proof (ahead_length x y Hy) as L.
    destruct (Nat.eqb_spec min 0) as [Hmin|Hmin]; cbn [andb].
    - destruct (Nat.eqb_spec (pos y) (pos x)) as [Hp|Hp]; [reflexivity|].
      destruct Hy as (k & _ & _ & Hk). apply IH; subst min; cbn; lia.
    - apply IH; lia. }
  cbn [repeat_matcher]. rewrite E. destruct max as [[|n]|]; reflexivity.
Qed.

(** The fuel that [compile] gives a quantifier is enough. *)
Lemma quantifier_fuel (ic : bool) (min : nat) (max : option nat) (r : regex)
      (x : mstate) (c : cont) (fuel : nat) :
  min + String.length (rest x) < fuel ->
  repeat_matcher fuel (compile ic r) min max x c = compile ic (Quant min max r) x c.
Proof.
  intros H. cbn [compile]. apply repeat_fuel; [apply compile_local | lia | lia].
Qed.

Lemma repeat_forwards (m : matcher) :
  forwards m ->
  forall fuel min max x c z,
    repeat_matcher fuel m min max x c = Some z ->
    exists y, ahead x y /\ c y = Some z.
Proof.
  intros Hm fuel. induction fuel as [|fuel IH]; intros min max x c z H; [discriminate|].
  cbn [repeat_matcher] in H.
  assert (D : forall w,
             m x (fun y =>
                    if (Nat.eqb min 0 && Nat.eqb (pos y) (pos x))%bool then None
                    else repeat_matcher fuel m (Nat.pred min) (option_map Nat.pred max) y c)
             = Some w -> exists y, ahead x y /\ c y = Some w).
  { intros w Hw. apply Hm in Hw. destruct Hw as (y & Hy & Hw).
    destruct (Nat.eqb min 0 && Nat.eqb (pos y) (pos x))%bool; [discriminate|].
    apply IH in Hw. destruct Hw as (y' & Hy' & Hw).
    exists y'. split; [eapply ahead_trans; eauto | exact Hw]. }
  assert (C : c x = Some z -> exists y, ahead x y /\ c y = Some z)
    by (intros Hc; exists x; split; [apply ahead_refl | exact Hc]).
  destruct max as [[|n]|]; [now apply C | |];
    (destruct (Nat.eqb min 0); cbn [negb] in H;
     [ destruct (m x _) as [w|] eqn:E; [injection H as <-; now apply D | now apply C]
     | now apply D ]).
Qed.

Lemma compile_forwards (ic : bool) (r : regex) : forwards (compile ic r).
Proof.
  induction r as [|cs|r1 IH1 r2 IH2|min max r IH| |r IH]; intros x c z H;
    cbn [compile] in H.
  - exists x. split; [apply ahead_refl | exact H].
  - destruct x as [p [|ch s] i]; cbn [rest pos] in H; [discriminate|].
    destruct (class_matches ic cs ch); [|discriminate].
    eexists. split; [apply ahead_next | exact H].
  - apply IH1 in H. destruct H as (y & Hy & H). apply IH2 in H.
    destruct H as (y' & Hy' & H). exists y'.
    split; [eapply ahead_trans; eauto | exact H].
  - eapply repeat_forwards; eauto.
  - destruct (xorb _ _); [|discriminate].
    exists x. split; [apply ahead_refl | exact H].
  - destruct (compile ic r x _); [discriminate|].
    exists x. split; [apply ahead_refl | exact H].
Qed.

(** A match ends ahead of where it starts, and starts ahead of where the scan
    began. *)
Lemma match_here_ahead (ic : bool) (r : regex) (x e : mstate) :
  match_here ic r x = Some e -> ahead x e.
Proof.
  intros H. apply compile_forwards in H. destruct H as (y & Hy & H).
  injection H as <-. exact Hy.
Qed.

Lemma scan_ahead (ic : bool) (r : regex) (s : string) :
  forall p i b e,
    scan ic r p s i = Some (b, e) ->
    ahead {| prev := p; rest := s; pos := i |} b /\ ahead b e.
Proof.
  induction s as [|ch s IH]; intros p i b e H; cbn [scan] in H.
  - destruct (match_here ic r _) as [e'|] eqn:E; [|discriminate].
    injection H as <- <-. split; [apply ahead_refl | now apply match_here_ahead in E].
  - destruct (match_here ic r _) as [e'|] eqn:E.
    + injection H as <- <-. split; [apply ahead_refl | now apply match_here_ahead in E].
    + apply IH in H. destruct H as [H1 H2].
      split; [|exact H2]. eapply ahead_trans; [apply ahead_next | exact H1].
Qed.

(** The enumeration of the matches does not depend on the fuel beyond the
    length of the input that is left. *)
Lemma matches_from_fuel (ic : bool) (r : regex) (fuel : nat) :
  forall fuel' x,
    String.length (rest x) < fuel -> String.length (rest x) < fuel' ->
    matches_from fuel ic r x = matches_from fuel' ic r x.
Proof.
  induction fuel as [|fuel IH]; intros fuel' x Hf Hf'; [lia|].
  destruct fuel' as [|fuel']; [lia|]. cbn [matches_from].
  destruct (scan_from ic r x) as [[b e]|] eqn:E; [|reflexivity].
  unfold scan_from in E. apply scan_ahead in E. destruct E as [Hb He].
  pose proof (ahead_length _ _ Hb) as Lb. pose proof (ahead_length _ _ He) as Le.
  cbn [rest pos] in Lb. f_equal.
  destruct (Nat.eqb_spec (pos e) (pos b)) as [Hp|Hp].
  - destruct e as [pe [|ch se] ie]; cbn [advance rest]; [reflexivity|].
    cbn [rest pos String.length] in *. apply IH; cbn [rest]; lia.
  - destruct He as (k & _ & _ & Hk). apply IH; lia.
Qed.

(** The same for [split]: a turn either moves on in the input or brings the
    start of the pending piece up to the position tried. *)
Lemma split_loop_fuel (ic : bool) (r : regex) (fuel : nat) :
  forall fuel' piece p x,
    p <= pos x ->
    2 * String.length (rest x) + (if Nat.ltb p (pos x) then 1 else 0) < fuel ->
    2 * String.length (rest x) + (if Nat.ltb p (pos x) then 1 else 0) < fuel' ->
    split_loop ic r fuel piece p x = split_loop ic r fuel' piece p x.
Proof.
  induction fuel as [|fuel IH]; intros fuel' piece p x Hp Hf Hf'; [lia|].
  destruct fuel' as [|fuel']; [lia|]. cbn [split_loop].
  destruct x as [px [|ch s] i]; cbn [rest pos String.length] in *; [reflexivity|].
  assert (Skip : split_loop ic r fuel piece p {| prev := Some ch; rest := s; pos := S i |}
                 = split_loop ic r fuel' piece p
                     {| prev := Some ch; rest := s; pos := S i |}).
  { apply IH; cbn [rest pos]; [lia | |];
      destruct (Nat.ltb p (S i)), (Nat.ltb p i); lia. }
  destruct (match_here ic r _) as [e|] eqn:E; [|exact Skip].
  destruct (Nat.eqb_spec (pos e) p) as [He|He]; [exact Skip|].
  f_equal. apply match_here_ahead in E.
  pose proof (ahead_length _ _ E) as L. destruct E as (k & _ & _ & Hk).
  cbn [rest pos String.length] in *.
  apply IH; [lia | |]; rewrite Nat.ltb_irrefl;
    destruct (Nat.ltb_spec p i); lia.
Qed.

End MatcherFuel.

(** ** The matcher on literal patterns and character classes *)
Section RegexFacts.
Import Regex.

Lemma In_all_chars (c : ascii) : In c all_chars.
Proof.
  unfold all_chars. rewrite <- (ascii_nat_embedding c).
  apply in_map, in_seq. pose proof (nat_ascii_bounded c). lia.
Qed.

Lemma class_lit_same_letter (a c : ascii) :
  class_matches true {| invert := false; items := [One a] |} c = same_letter a c.
Proof.
  unfold class_matches. cbn [invert items xorb].
  destruct (same_letter a c) eqn:E.
  - apply existsb_exists. exists a. split; [apply In_all_chars|].
    unfold in_items. cbn. rewrite Ascii.eqb_refl. exact E.
  - apply not_true_is_false. intros H. apply existsb_exists in H.
    destruct H as (a' & _ & H). apply andb_true_iff in H as [H1 H2].
    unfold in_items in H1. cbn in H1. rewrite orb_false_r in H1.
    apply Ascii.eqb_eq in H1. subst a'. unfold same_letter in E. congruence.
Qed.

Lemma compile_literal (q : string) (x : mstate) (k : cont) :
  compile true (literal q) x k
  = if ci_prefix q (rest x) then k (forward (String.length q) x) else None.
Proof.
  revert x. induction q as [|a q IH]; intros x; [reflexivity|].
  cbn [literal compile]. unfold lit. cbn [compile].
  destruct x as [p s i]. cbn [rest pos]. destruct s as [|b s]; [reflexivity|].
  rewrite class_lit_same_letter. cbn [ci_prefix].
  destruct (same_letter a b); [|reflexivity].
  rewrite IH. reflexivity.
Qed.

Lemma ci_prefix_length (q s : string) :
  ci_prefix q s = true -> String.length q <= String.length s.
Proof.
  revert s. induction q as [|a q IH]; intros [|b s]; simpl; intros H;
    try lia; try discriminate.
  apply andb_true_iff in H as [_ H]. apply IH in H. lia.
Qed.

Lemma forward_rest_pos (n : nat) (x : mstate) :
  n <= String.length (rest x) ->
  rest (forward n x) = Js.drop n (rest x) /\ pos (forward n x) = pos x + n.
Proof.
  revert x. induction n as [|n IH]; intros [p s i]; cbn [rest pos forward].
  - intros _. split; [reflexivity | lia].
  - destruct s as [|c s]; cbn; [lia|]. intros H.
    destruct (IH {| prev := Some c; rest := s; pos := S i |}) as [H1 H2];
      [cbn; lia|]. cbn in H1, H2. split; [exact H1 | lia].
Qed.

(** Where the scan for a literal pattern stops. *)
Lemma scan_literal (q : string) (p : option ascii) (s : string) (i : nat) b e :
  scan true (literal q) p s i = Some (b, e) ->
  exists k, k <= String.length s
            /\ rest b = Js.drop k s /\ pos b = i + k
            /\ ci_prefix q (rest b) = true
            /\ rest e = Js.drop (String.length q) (rest b)
            /\ pos e = pos b + String.length q.
Proof.
  revert p i. induction s as [|c s IH]; intros p i; cbn [scan];
    unfold match_here; rewrite compile_literal; cbn [rest].
  - destruct (ci_prefix q "") eqn:E; [|discriminate].
    intros H. injection H as <- <-. exists 0. cbn [rest pos].
    pose proof (ci_prefix_length _ _ E) as L.
    destruct (forward_rest_pos (String.length q) {| prev := p; rest := ""; pos := i |} L)
      as [H1 H2].
    repeat split; try assumption; cbn; lia.
  - destruct (ci_prefix q (String c s)) eqn:E.
    + intros H. injection H as <- <-. exists 0. cbn [rest pos].
      pose proof (ci_prefix_length _ _ E) as L.
      destruct (forward_rest_pos (String.length q)
                  {| prev := p; rest := String c s; pos := i |} L) as [H1 H2].
      repeat split; try assumption; cbn; lia.
    + intros H. apply IH in H. destruct H as (k & Hk & H1 & H2 & H3 & H4 & H5).
      exists (S k). cbn [Js.drop String.length].
      repeat split; try assumption; lia.
Qed.

End RegexFacts.

(** ** Global replacement with a one-character class *)
Section ReplaceFacts.
Import Regex.

Variable ic : bool.
Variable cs : charset.
Variable f : string -> string.

Lemma drop_past (pre : string) (c : ascii) (s : string) :
  Js.drop (S (String.length pre)) (pre ++ String c s) = s.
Proof. induction pre as [|a pre IH]; simpl; [now destruct s | exact IH]. Qed.

Lemma splice_class (s pre : string) (j i : nat) (p : option ascii) (fuel : nat) :
  i = j + String.length pre ->
  String.length s < fuel ->
  splice (pre ++ s) j
         (matches_from fuel ic (Chr cs) {| prev := p; rest := s; pos := i |}) f
  = pre ++ map_chars (class_matches ic cs) f s.
Proof.
  revert pre j i p fuel. induction s as [|c s IH]; intros pre j i p fuel Hi Hf;
    (destruct fuel as [|fuel]; [lia|]).
  - reflexivity.
  - cbn [matches_from scan_from prev rest pos scan].
    unfold match_here. cbn [compile rest pos].
    destruct (class_matches ic cs c) eqn:E.
    + cbn [pos]. replace (Nat.eqb (S i) i) with false
        by (symmetry; apply Nat.eqb_neq; lia).
      cbn [splice pos map_chars]. rewrite E.
      unfold matched_text. cbn [pos rest].
      replace (i - j) with (String.length pre) by lia.
      replace (S i - i) with 1 by lia.
      replace (S i - j) with (S (String.length pre)) by lia.
      rewrite take_append, drop_past. cbn [Js.take].
      specialize (IH "" (S i) (S i) (Some c) fuel).
      cbn [append String.length] in IH. rewrite IH by (cbn in Hf; lia).
      reflexivity.
    + specialize (IH (pre ++ String c "") j (S i) (Some c) (S fuel)).
      rewrite length_append in IH. cbn [String.length] in IH.
      rewrite !append_assoc in IH. cbn [append] in IH.
      cbn [map_chars]. rewrite E. cbn [append].
      rewrite <- IH by (cbn in Hf; lia).
      cbn [matches_from scan_from prev rest pos]. reflexivity.
Qed.

Lemma replace_global_class (s : string) :
  replace_global ic (Chr cs) f s = map_chars (class_matches ic cs) f s.
Proof.
  unfold replace_global, all_matches, start_of.
  apply (splice_class s "" 0 0 None (S (String.length s))); [reflexivity | lia].
Qed.

End ReplaceFacts.

(** ** search_document: the pattern, the loop and the matches *)
Section SearchFacts.
Import Regex Search.

Lemma special_is_syntax (c : ascii) :
  class_matches false {| invert := false;
                         items := [One "."; One "*"; One "+"; One "?"; One "^"; One "$";
                                   One "{"; One "}"; One "("; One ")"; One "|"; One "[";
                                   One "]"; One "\"] |} c
  = is_syntax_char c.
Proof. destruct c as [[] [] [] [] [] [] [] []]; reflexivity. Qed.

(** Escaping puts a backslash before each syntax character and nothing else. *)
Lemma escape_query_chars (query : string) :
  escape_query query = map_chars is_syntax_char backslash_match query.
Proof.
  unfold escape_query, special_re, cls. rewrite replace_global_class.
  induction query as [|c q IH]; [reflexivity|].
  cbn [map_chars]. now rewrite special_is_syntax, IH.
Qed.

(** The escaped query always compiles, to the pattern that matches the query
    character by character. *)
Lemma new_RegExp_escaped (query : string) :
  new_RegExp (escape_query query) = Pattern (literal query).
Proof.
  rewrite escape_query_chars.
  induction query as [|c q IH]; [reflexivity|].
  cbn [map_chars]. destruct (is_syntax_char c) eqn:E.
  - unfold backslash_match at 1.
    cbn [append new_RegExp Ascii.eqb Bool.eqb andb]. rewrite E, IH. reflexivity.
  - cbn [append new_RegExp]. rewrite E.
    destruct (Ascii.eqb c "\") eqn:B.
    + apply Ascii.eqb_eq in B. subst c. discriminate E.
    + rewrite IH. reflexivity.
Qed.

End SearchFacts.

(** ** trim *)
Section TrimFacts.

Lemma length_trimStart (s : string) :
  String.length (Js.trimStart s) <= String.length s.
Proof.
  induction s as [|c s IH]; simpl; [lia|]. destruct (Js.is_space c); simpl; lia.
Qed.

Lemma length_trimEnd (s : string) :
  String.length (Js.trimEnd s) <= String.length s.
Proof.
  induction s as [|c s IH]; simpl; [lia|].
  destruct (Js.trimEnd s); [destruct (Js.is_space c)|]; simpl in *; lia.
Qed.

Lemma trimStart_shortens (s : string) :
  Js.is_space_opt (Js.first_char s) = true ->
  String.length (Js.trimStart s) < String.length s.
Proof.
  destruct s as [|c s]; simpl; [discriminate|]. intros ->.
  pose proof (length_trimStart s). lia.
Qed.

Lemma trimEnd_shortens (s : string) :
  Js.is_space_opt (Js.last_char s) = true ->
  String.length (Js.trimEnd s) < String.length s.
Proof.
  induction s as [|c s IH]; [discriminate|].
  destruct s as [|d s].
  - simpl. intros ->. simpl. lia.
  - intros H. change (Js.last_char (String c (String d s)))
      with (Js.last_char (String d s)) in H.
    specialize (IH H). cbn [Js.trimEnd] in *.
    destruct (match Js.trimEnd s with
              | "" => if Js.is_space d then "" else String d ""
              | String a s0 => String d (String a s0)
              end); [destruct (Js.is_space c)|]; simpl in *; lia.
Qed.

Lemma last_char_trimStart (s : string) :
  Js.trimStart s = "" \/ Js.last_char (Js.trimStart s) = Js.last_char s.
Proof.
  induction s as [|c s IH]; [now left|].
  cbn [Js.trimStart]. destruct (Js.is_space c); [|now right].
  destruct IH as [IH|IH]; [now left|].
  destruct s as [|d s]; [now left|]. right. rewrite IH. reflexivity.
Qed.

(** A string that begins or ends with white space gets shorter by [trim]. *)
Lemma trim_shortens (s : string) :
  Js.is_space_opt (Js.first_char s) = true \/ Js.is_space_opt (Js.last_char s) = true ->
  String.length (Js.trim s) < String.length s.
Proof.
  unfold Js.trim. intros [H|H].
  - pose proof (trimStart_shortens s H). pose proof (length_trimEnd (Js.trimStart s)). lia.
  - destruct (last_char_trimStart s) as [E|E].
    + rewrite E. simpl. destruct s; [discriminate H | simpl; lia].
    + rewrite <- E in H. pose proof (trimEnd_shortens _ H).
      pose proof (length_trimStart s). lia.
Qed.

End TrimFacts.

(** ** search_document: the loop *)
Section SearchLoop.
Import Regex Search.

Variable content query : string.
Variable contextLength : Z.

Lemma start_at_index : at_index_of content (start_of content).
Proof. split; [reflexivity | cbn; lia]. Qed.

(** One successful [re.exec]: where the match starts and where it ends. *)
Lemma exec_step (x b e : mstate) :
  at_index_of content x ->
  scan_from true (literal query) x = Some (b, e) ->
  pos x <= pos b
  /\ pos b + String.length query <= String.length content
  /\ ci_prefix query (Js.drop (pos b) content) = true
  /\ String.length (matched_text b e) = String.length query
  /\ pos e = pos b + String.length query
  /\ at_index_of content e.
Proof.
  intros [Hr Hp] H. apply scan_literal in H.
  destruct H as (k & Hk & H1 & H2 & H3 & H4 & H5).
  rewrite Hr in H1. rewrite drop_drop in H1. rewrite <- H2 in H1.
  pose proof (ci_prefix_length _ _ H3) as L.
  rewrite H1, length_drop in L. rewrite Hr, length_drop in Hk.
  assert (pos b + String.length query <= String.length content) by lia.
  repeat split; try lia.
  - now rewrite <- H1.
  - unfold matched_text. rewrite H5.
    replace (pos b + String.length query - pos b) with (String.length query) by lia.
    apply length_take. rewrite H1, length_drop. lia.
  - rewrite H4, H1, drop_drop, H5. reflexivity.
Qed.

Lemma exec_loop_reports (fuel : nat) :
  forall x acc res,
    at_index_of content x ->
    Forall (reports content query contextLength) acc ->
    exec_loop fuel (literal query) content contextLength x acc = Some res ->
    Forall (reports content query contextLength) res.
Proof.
  induction fuel as [|fuel IH]; intros x acc res Hx Hacc; cbn [exec_loop];
    [discriminate|].
  destruct (scan_from true (literal query) x) as [[b e]|] eqn:E.
  - destruct (exec_step x b e Hx E) as (_ & H2 & H3 & H4 & _ & H6).
    apply IH; [exact H6|].
    apply Forall_app. split; [exact Hacc|]. constructor; [|constructor].
    exists (pos b). cbn [position text]. rewrite H4.
    repeat split; assumption.
  - intros H. injection H as <-. exact Hacc.
Qed.

(** With a query that is not empty every match moves [lastIndex] forward, so
    the loop ends. *)
Lemma exec_loop_ends (fuel : nat) :
  query <> "" ->
  forall x acc,
    at_index_of content x ->
    String.length content - pos x < fuel ->
    exists res, exec_loop fuel (literal query) content contextLength x acc = Some res.
Proof.
  intros Hq. induction fuel as [|fuel IH]; intros x acc Hx Hf; [lia|].
  cbn [exec_loop].
  destruct (scan_from true (literal query) x) as [[b e]|] eqn:E; [|eauto].
  destruct (exec_step x b e Hx E) as (H1 & H2 & _ & _ & H5 & H6).
  apply IH; [exact H6|].
  assert (0 < String.length query) by (destruct query; [congruence | simpl; lia]).
  lia.
Qed.

(** With the empty query [re.exec] matches the empty string at index 0 again
    and again: the loop does not end, whatever the fuel. *)
Lemma exec_loop_empty_query (fuel : nat) :
  forall x acc, exec_loop fuel Empty content contextLength x acc = None.
Proof.
  induction fuel as [|fuel IH]; intros x acc; [reflexivity|].
  cbn [exec_loop]. destruct x as [p s i]. destruct s; cbn; apply IH.
Qed.

End SearchLoop.

(** X1: with the empty query the tool never answers: the pattern matches the
    empty string at index 0 again and again, [lastIndex] stays where it is,
    and the loop has not ended after any number of turns. *)
Lemma search_document_empty_query (fuel : nat) (content : string) (contextLength : Z) :
  Search.search_document fuel content "" contextLength = None.
Proof.
  unfold Search.search_document. rewrite new_RegExp_escaped. cbn [Regex.literal].
  now rewrite exec_loop_empty_query.
Qed.

(** C10: a run of search_document on a query that is not empty returns, given
    fuel beyond the length of the content.  Every returned match has as
    position the index in the content at which the query occurs (letter case
    apart), and as text the trimmed window of contextLength characters to each
    side, clamped to the content; so when that window begins or ends with
    white space the text is strictly shorter than the window, while the
    position stays the offset in the untrimmed content. *)
Theorem search_matches_trimmed (fuel : nat) (content query : string) (contextLength : Z) :
  (query <> "" -> String.length content < fuel ->
   exists ms, Search.search_document fuel content query contextLength
              = Some (Search.SearchOk query ms (List.length ms)))
  /\ (forall q ms total,
        Search.search_document fuel content query contextLength
        = Some (Search.SearchOk q ms total) ->
        forall m, In m ms ->
          exists p : nat,
            Search.position m = Z.of_nat p
            /\ p + String.length query <= String.length content
            /\ Regex.ci_prefix query (Js.drop p content) = true
            /\ Search.text m
               = Js.trim (Search.window content (String.length query) contextLength p)
            /\ (Js.is_space_opt (Js.first_char
                  (Search.window content (String.length query) contextLength p)) = true
                \/ Js.is_space_opt (Js.last_char
                  (Search.window content (String.length query) contextLength p)) = true ->
                String.length (Search.text m)
                < String.length
                    (Search.window content (String.length query) contextLength p))).
Proof.
  unfold Search.search_document. rewrite new_RegExp_escaped. split.
  - intros Hq Hf.
    destruct (exec_loop_ends content query contextLength fuel Hq
                (Regex.start_of content) [] (start_at_index content)) as [res Hres];
      [cbn; lia|].
    rewrite Hres. eauto.
  - intros q ms total H m Hm.
    destruct (Search.exec_loop fuel (Regex.literal query) content contextLength
                (Regex.start_of content) []) as [res|] eqn:E; [|discriminate].
    injection H as _ <- _.
    pose proof (exec_loop_reports content query contextLength fuel _ _ _
                  (start_at_index content) (Forall_nil _) E) as F.
    rewrite Forall_forall in F. destruct (F m Hm) as (p & H1 & H2 & H3 & H4).
    exists p. repeat split; try assumption.
    intros Hs. rewrite H4. now apply trim_shortens.
Qed.

Lemma search_matches_trimmed_witness :
  (exists ms, Search.search_document 14 "one  XYZ  two" "xyz" 2
              = Some (Search.SearchOk "xyz" ms (List.length ms)))
  /\ exists p : nat,
       5%Z = Z.of_nat p
       /\ "XYZ" = Js.trim (Search.window "one  XYZ  two" 3 2 p)
       /\ 3 < String.length (Search.window "one  XYZ  two" 3 2 p).
Proof.
  destruct (search_matches_trimmed 14 "one  XYZ  two" "xyz" 2) as [H1 H2].
  split.
  - apply H1; [discriminate | simpl; lia].
  - destruct (H2 "xyz" [{| Search.text := "XYZ"; Search.position := 5 |}] 1
                eq_refl {| Search.text := "XYZ"; Search.position := 5 |}
                (or_introl eq_refl)) as (p & Hp & _ & _ & Ht & Hs).
    exists p. cbn in Hp, Ht, Hs. repeat split; try assumption.
    apply Hs. assert (p = 5) by lia. subst p. left. reflexivity.
Defined.

(** ** Objects as maps: own properties and their enumeration *)
Section ObjectFacts.
Import JsObject.

Context {V : Type}.

Lemma get_own_keyed (g : string -> V) (l : list string) (w : string) :
  get_own (map (fun x => (x, g x)) l) w
  = if existsb (String.eqb w) l then Some (g w) else None.
Proof.
  induction l as [|x l IH]; [reflexivity|]. cbn [map get_own existsb].
  rewrite (String.eqb_sym w x). destruct (String.eqb x w) eqn:E; [|exact IH].
  apply String.eqb_eq in E. now subst.
Qed.

Lemma set_own_absent (g : string -> V) (l : list string) (w : string) (v : V) :
  ~ In w l ->
  set_own (map (fun x => (x, g x)) l) w v
  = (map (fun x => (x, g x)) l ++ [(w, v)])%list.
Proof.
  induction l as [|x l IH]; intros H; [reflexivity|]. cbn [map set_own app].
  destruct (String.eqb x w) eqn:E.
  - apply String.eqb_eq in E. subst. exfalso. apply H. now left.
  - rewrite IH; [reflexivity|]. intros Hin. apply H. now right.
Qed.

Lemma set_own_present (g : string -> V) (l : list string) (w : string) (v : V) :
  NoDup l -> In w l ->
  set_own (map (fun x => (x, g x)) l) w v
  = map (fun x => (x, if String.eqb x w then v else g x)) l.
Proof.
  induction 1 as [|x l Hx Hnd IH]; intros Hin; [destruct Hin|].
  cbn [map set_own]. destruct (String.eqb x w) eqn:E.
  - apply String.eqb_eq in E. subst x. f_equal.
    apply map_ext_in. intros a Ha. destruct (String.eqb a w) eqn:Ea; [|reflexivity].
    apply String.eqb_eq in Ea. subst. contradiction.
  - f_equal. apply IH. destruct Hin as [->|Hin]; [|assumption].
    rewrite String.eqb_refl in E. discriminate.
Qed.

(** [entries] looks at the keys only. *)
Lemma insert_index_keys {W} (h : string -> W) (e : string * V) (l : props V) :
  insert_index (fst e, h (fst e)) (map (fun e => (fst e, h (fst e))) l)
  = map (fun e => (fst e, h (fst e))) (insert_index e l).
Proof.
  induction l as [|e' l IH]; [reflexivity|]. cbn [map insert_index fst].
  destruct (N.leb (index_value (fst e)) (index_value (fst e'))); [reflexivity|].
  cbn [map]. now rewrite IH.
Qed.

Lemma entries_keys {W} (h : string -> W) (o : props V) :
  entries (map (fun e => (fst e, h (fst e))) o)
  = map (fun e => (fst e, h (fst e))) (entries o).
Proof.
  unfold entries. rewrite map_app. f_equal.
  - induction o as [|e o IH]; [reflexivity|]. cbn [map filter fst].
    destruct (is_index (fst e)); [|exact IH].
    cbn [fold_right]. rewrite IH. apply insert_index_keys.
  - induction o as [|e o IH]; [reflexivity|]. cbn [map filter fst].
    destruct (is_index (fst e)); cbn [negb map]; now rewrite IH.
Qed.

End ObjectFacts.

(** ** The order of the keys *)
Section KeyOrder.
Import JsObject Analyze.

Lemma entries_keyed {W} (g : string -> W) (l : list string) :
  entries (map (fun w => (w, g w)) l) = map (fun w => (w, g w)) (key_order l).
Proof.
  unfold key_order. rewrite map_map.
  rewrite <- (entries_keys g (map (fun w => (w, tt)) l)), map_map. reflexivity.
Qed.

Lemma insert_index_perm {V} (e : string * V) (l : props V) :
  Permutation (insert_index e l) (e :: l).
Proof.
  induction l as [|e' l IH]; [apply Permutation_refl|]. cbn [insert_index].
  destruct (N.leb _ _); [apply Permutation_refl|].
  rewrite IH. apply perm_swap.
Qed.

Lemma sort_index_perm {V} (l : props V) :
  Permutation (fold_right insert_index [] l) l.
Proof.
  induction l as [|e l IH]; [constructor|]. cbn [fold_right].
  rewrite insert_index_perm. now constructor.
Qed.

Lemma insert_index_sorted {V} (e : string * V) (l : props V) :
  StronglySorted index_le l -> StronglySorted index_le (insert_index e l).
Proof.
  induction 1 as [|e' l Hs IH Hf]; cbn [insert_index].
  - repeat constructor.
  - destruct (N.leb_spec (index_value (fst e)) (index_value (fst e'))) as [L|L].
    + constructor; [now constructor|]. constructor; [exact L|].
      eapply Forall_impl; [|exact Hf]. intros a Ha. unfold index_le in *. lia.
    + constructor; [exact IH|].
      eapply Permutation_Forall; [symmetry; apply insert_index_perm|].
      constructor; [unfold index_le; lia | exact Hf].
Qed.

Lemma sort_index_sorted {V} (l : props V) :
  StronglySorted index_le (fold_right insert_index [] l).
Proof.
  induction l as [|e l IH]; [constructor|]. now apply insert_index_sorted.
Qed.

(** Two array indices with the same value are the same key. *)
Lemma index_value_inj (a b : string) :
  is_index a = true -> is_index b = true -> index_value a = index_value b -> a = b.
Proof.
  unfold is_index, index_value, array_index.
  destruct (all_digits a); [|discriminate]. destruct (all_digits b); [|discriminate].
  destruct (String.eqb (Js.decimal (digits_value 0 a)) a) eqn:Ea; [|discriminate].
  destruct (String.eqb (Js.decimal (digits_value 0 b)) b) eqn:Eb; [|discriminate].
  cbn [andb].
  destruct (N.leb (digits_value 0 a) 4294967294); [|discriminate].
  destruct (N.leb (digits_value 0 b) 4294967294); [|discriminate].
  intros _ _ E. apply String.eqb_eq in Ea, Eb. rewrite <- Ea, <- Eb. now f_equal.
Qed.

Lemma filter_keyed {W} (p : string -> bool) (g : string -> W) (l : list string) :
  filter (fun e => p (fst e)) (map (fun w => (w, g w)) l)
  = map (fun w => (w, g w)) (filter p l).
Proof.
  induction l as [|x l IH]; [reflexivity|]. cbn [map filter fst].
  destruct (p x); cbn [map]; now rewrite IH.
Qed.

Lemma map_fst_keyed {W} (g : string -> W) (l : list string) :
  map fst (map (fun w => (w, g w)) l) = l.
Proof. rewrite map_map. cbn. apply map_id. Qed.

Lemma strictly_ascending {V} (s : props V) :
  StronglySorted index_le s ->
  NoDup (map fst s) ->
  Forall (fun a => is_index a = true) (map fst s) ->
  StronglySorted (fun a b => (index_value a < index_value b)%N) (map fst s).
Proof.
  induction 1 as [|e s Hs IH Hf]; intros Hnd Hidx; cbn [map] in *; [constructor|].
  inversion Hnd as [|? ? Hn Hnd']; subst. inversion Hidx as [|? ? Hi Hidx']; subst.
  constructor; [now apply IH|].
  apply Forall_forall. intros b Hb.
  apply in_map_iff in Hb as Hb'. destruct Hb' as (e' & <- & He').
  rewrite Forall_forall in Hf, Hidx'. specialize (Hf e' He'). unfold index_le in Hf.
  destruct (N.eq_dec (index_value (fst e)) (index_value (fst e'))) as [E|E]; [|lia].
  apply index_value_inj in E; [|assumption | now apply Hidx'].
  rewrite E in Hn. contradiction.
Qed.

(** The keys come out as the array indices in ascending numeric order followed
    by the other keys in creation order. *)
Lemma key_order_shape (l : list string) :
  NoDup l ->
  exists idx,
    key_order l = (idx ++ filter (fun w => negb (is_index w)) l)%list
    /\ Permutation idx (filter is_index l)
    /\ StronglySorted (fun a b => (index_value a < index_value b)%N) idx.
Proof.
  intros Hnd. unfold key_order, entries.
  rewrite (filter_keyed is_index), (filter_keyed (fun w => negb (is_index w))).
  rewrite map_app, map_fst_keyed.
  set (o := map (fun w => (w, tt)) (filter is_index l)).
  exists (map fst (fold_right insert_index [] o)).
  split; [reflexivity|].
  assert (P : Permutation (map fst (fold_right insert_index [] o)) (filter is_index l)).
  { rewrite (sort_index_perm o). unfold o. now rewrite map_fst_keyed. }
  split; [exact P|].
  apply strictly_ascending.
  - apply sort_index_sorted.
  - eapply Permutation_NoDup; [symmetry; exact P|]. now apply NoDup_filter.
  - eapply Permutation_Forall; [symmetry; exact P|].
    apply Forall_forall. intros a Ha. now apply filter_In in Ha.
Qed.

End KeyOrder.

(** ** The stable sort under a comparator by descending count *)
Section SortFacts.
Import JsObject.

Context {A : Type}.
Variable cnt : A -> nat.
Variable cmp : A -> A -> option Z.
Hypothesis cmp_counts :
  forall a b, cmp a b = Some (Z.of_nat (cnt b) - Z.of_nat (cnt a))%Z.

Lemma insert_stable_skip (x y : A) :
  (0 <? sort_compare (cmp x y))%Z = (cnt x <? cnt y)%nat.
Proof.
  rewrite cmp_counts. cbn [sort_compare].
  destruct (Nat.ltb_spec (cnt x) (cnt y)); [apply Z.ltb_lt | apply Z.ltb_ge]; lia.
Qed.

Lemma insert_stable_perm (x : A) (l : list A) :
  Permutation (insert_stable cmp x l) (x :: l).
Proof.
  induction l as [|y l IH]; [apply Permutation_refl|]. cbn [insert_stable].
  destruct (0 <? sort_compare (cmp x y))%Z; [|apply Permutation_refl].
  rewrite IH. apply perm_swap.
Qed.

Lemma insert_stable_sorted (x : A) (l : list A) :
  StronglySorted (fun a b => cnt b <= cnt a) l ->
  StronglySorted (fun a b => cnt b <= cnt a) (insert_stable cmp x l).
Proof.
  induction 1 as [|y l Hs IH Hf]; cbn [insert_stable].
  - repeat constructor.
  - rewrite insert_stable_skip. destruct (Nat.ltb_spec (cnt x) (cnt y)) as [L|L].
    + constructor; [exact IH|].
      eapply Permutation_Forall; [symmetry; apply insert_stable_perm|].
      constructor; [lia | exact Hf].
    + constructor; [now constructor|]. constructor; [exact L|].
      eapply Forall_impl; [|exact Hf]. cbn. intros a Ha. lia.
Qed.

(** Inserting moves an element only past elements with another count. *)
Lemma insert_stable_filter (c : nat) (x : A) (l : list A) :
  filter (fun a => Nat.eqb (cnt a) c) (insert_stable cmp x l)
  = filter (fun a => Nat.eqb (cnt a) c) (x :: l).
Proof.
  induction l as [|y l IH]; [reflexivity|]. cbn [insert_stable].
  rewrite insert_stable_skip. destruct (Nat.ltb_spec (cnt x) (cnt y)) as [L|L];
    [|reflexivity].
  cbn [filter] in *. rewrite IH.
  destruct (Nat.eqb_spec (cnt x) c), (Nat.eqb_spec (cnt y) c); try reflexivity. lia.
Qed.

Lemma sort_sorted (l : list A) :
  StronglySorted (fun a b => cnt b <= cnt a) (sort cmp l).
Proof.
  induction l as [|x l IH]; [constructor|]. now apply insert_stable_sorted.
Qed.

Lemma sort_stable (c : nat) (l : list A) :
  filter (fun a => Nat.eqb (cnt a) c) (sort cmp l)
  = filter (fun a => Nat.eqb (cnt a) c) l.
Proof.
  induction l as [|x l IH]; [reflexivity|].
  unfold sort in *. cbn [fold_right]. rewrite insert_stable_filter.
  cbn [filter]. now rewrite IH.
Qed.

End SortFacts.

Lemma sort_map {A B} (g : A -> B) (cmpA : A -> A -> option Z) (cmpB : B -> B -> option Z) :
  (forall a b, cmpB (g a) (g b) = cmpA a b) ->
  forall l, JsObject.sort cmpB (map g l) = map g (JsObject.sort cmpA l).
Proof.
  intros H l. induction l as [|x l IH]; [reflexivity|].
  unfold JsObject.sort in *. cbn [map fold_right]. rewrite IH.
  generalize (fold_right (JsObject.insert_stable cmpA) [] l). intros s.
  induction s as [|y s IHs]; [reflexivity|].
  cbn [map JsObject.insert_stable]. rewrite H.
  destruct (0 <? JsObject.sort_compare (cmpA x y))%Z; [|reflexivity].
  cbn [map]. now rewrite IHs.
Qed.

(** ** analyze_document: the frequency object and the topics *)
Section TopicFacts.
Import JsObject Analyze.

Lemma fold_left_filter {S T} (p : T -> bool) (f : S -> T -> S) (l : list T) (a : S) :
  fold_left (fun a w => if p w then f a w else a) l a = fold_left f (filter p l) a.
Proof.
  revert a. induction l as [|w l IH]; intros a; [reflexivity|].
  cbn [fold_left filter]. destruct (p w); apply IH.
Qed.

Lemma first_occurrences_snoc (l : list string) (w : string) :
  first_occurrences (l ++ [w])
  = (first_occurrences l ++ if existsb (String.eqb w) l then [] else [w])%list.
Proof.
  induction l as [|y l IH]; [reflexivity|].
  cbn [app first_occurrences existsb]. rewrite IH, filter_app. f_equal. f_equal.
  destruct (String.eqb w y) eqn:E; cbn [orb].
  - destruct (existsb (String.eqb w) l); [reflexivity|]. cbn. now rewrite E.
  - destruct (existsb (String.eqb w) l); [reflexivity|]. cbn. now rewrite E.
Qed.

Lemma occurrences_snoc (l : list string) (w x : string) :
  occurrences (l ++ [w]) x = occurrences l x + (if String.eqb w x then 1 else 0).
Proof.
  unfold occurrences. rewrite count_occ_app. f_equal. cbn.
  destruct (string_dec w x) as [->|N].
  - now rewrite String.eqb_refl.
  - apply String.eqb_neq in N. now rewrite N.
Qed.

(** One turn of the loop on a token that [Object.prototype] does not know. *)
Lemma bump_tally (l : list string) (w : string) :
  object_prototype w = Absent ->
  bump (tally l) w = tally (l ++ [w]).
Proof.
  intros Hw. unfold bump. rewrite Hw. unfold tally at 1 2.
  rewrite get_own_keyed. unfold tally. rewrite first_occurrences_snoc.
  destruct (existsb (String.eqb w) (first_occurrences l)) eqn:E.
  - assert (Hin : In w l) by now apply In_first_occurrences, existsb_eqb_In.
    replace (existsb (String.eqb w) l) with true
      by (symmetry; now apply existsb_eqb_In).
    rewrite app_nil_r.
    rewrite set_own_present;
      [| apply NoDup_first_occurrences | now apply In_first_occurrences].
    apply map_ext. intros a. rewrite occurrences_snoc, (String.eqb_sym a w).
    destruct (String.eqb w a) eqn:Ea.
    + apply String.eqb_eq in Ea. now subst.
    + now rewrite Nat.add_0_r.
  - assert (Hnin : ~ In w l).
    { intros H. apply In_first_occurrences, existsb_eqb_In in H. congruence. }
    replace (existsb (String.eqb w) l) with false.
    2:{ symmetry. apply not_true_is_false. intros H. now apply existsb_eqb_In in H. }
    rewrite set_own_absent by (now rewrite In_first_occurrences).
    rewrite map_app. cbn [map]. f_equal.
    + apply map_ext_in. intros a Ha. rewrite occurrences_snoc.
      destruct (String.eqb w a) eqn:Ea; [|now rewrite Nat.add_0_r].
      apply String.eqb_eq in Ea. subst a.
      apply (proj1 (In_first_occurrences _ _)) in Ha. contradiction.
    + rewrite occurrences_snoc, String.eqb_refl.
      unfold occurrences. now rewrite (proj1 (count_occ_not_In string_dec l w) Hnin).
Qed.

Lemma fold_bump_tally (l : list string) :
  (forall w, In w l -> object_prototype w = Absent) ->
  fold_left bump l [] = tally l.
Proof.
  induction l as [|w l IH] using rev_ind; intros H; [reflexivity|].
  rewrite fold_left_app. cbn [fold_left].
  rewrite IH by (intros a Ha; apply H, in_or_app; now left).
  apply bump_tally, H, in_or_app. right. now left.
Qed.

(** When no counted token is a property of [Object.prototype], the frequency
    object holds every distinct token with its number of occurrences. *)
Lemma frequencies_tally (ws : list string) :
  (forall w, In w (filter counted ws) -> object_prototype w = Absent) ->
  frequencies ws = tally (filter counted ws).
Proof.
  intros H. unfold frequencies. rewrite fold_left_filter. now apply fold_bump_tally.
Qed.

(** The topics: the keys in the order of [Object.entries], sorted stably by
    descending count, the first ten kept. *)
Lemma extract_topics_ranking (ws : list string) :
  (forall w, In w (filter counted ws) -> object_prototype w = Absent) ->
  extract_topics ws
  = firstn 10 (sort (by_occurrences (filter counted ws))
                    (key_order (first_occurrences (filter counted ws)))).
Proof.
  intros H. unfold extract_topics. rewrite (frequencies_tally ws H).
  unfold tally. rewrite entries_keyed.
  rewrite (sort_map (fun w => (w, Count (occurrences (filter counted ws) w)))
                    (by_occurrences (filter counted ws)) by_count)
    by reflexivity.
  rewrite <- firstn_map, map_fst_keyed. reflexivity.
Qed.

End TopicFacts.

(** C3, as the code behaves.  In the modes [full] and [topics_only], when no
    counted token is a property name of [Object.prototype] ([constructor],
    [__proto__]), the topics are the first ten entries of a ranking of the
    distinct counted tokens by descending number of occurrences in which
    tokens with equal counts keep the order of the keys of the frequency
    object: the tokens that are array indices (canonical numerals below
    2^32 - 1) in ascending numeric order, then the other tokens in the order
    in which they were first encountered. *)
Theorem topics_ranked_in_key_order (content : string) (t : Analyze.analyzeType) :
  t = Analyze.full \/ t = Analyze.topics_only ->
  (forall w, In w (Analyze.tokens content) ->
             JsObject.object_prototype w = JsObject.Absent) ->
  exists obj ranked idx,
    Analyze.analyze_document content t = Analyze.AnalysisData obj
    /\ Analyze.topics obj = Some (firstn 10 ranked)
    /\ Permutation idx
         (filter JsObject.is_index (JsObject.first_occurrences (Analyze.tokens content)))
    /\ StronglySorted
         (fun a b => (JsObject.index_value a < JsObject.index_value b)%N) idx
    /\ StronglySorted
         (fun a b => Analyze.occurrences (Analyze.tokens content) b
                     <= Analyze.occurrences (Analyze.tokens content) a) ranked
    /\ forall c,
         filter (fun w => Nat.eqb (Analyze.occurrences (Analyze.tokens content) w) c)
                ranked
         = filter (fun w => Nat.eqb (Analyze.occurrences (Analyze.tokens content) w) c)
                  (idx ++ filter (fun w => negb (JsObject.is_index w))
                                 (JsObject.first_occurrences (Analyze.tokens content))).
Proof.
  intros Ht Habs.
  destruct (key_order_shape (JsObject.first_occurrences (Analyze.tokens content))
              (NoDup_first_occurrences _)) as (idx & Hk & Hp & Hs).
  exists {| Analyze.wordCount := List.length (Analyze.words content);
            Analyze.summary :=
              if Analyze.wants_summary t
              then Some (Analyze.summarize (Analyze.fragments content)) else None;
            Analyze.entities :=
              if Analyze.wants_entities t
              then Some (Analyze.extract_entities content) else None;
            Analyze.topics :=
              if Analyze.wants_topics t
              then Some (Analyze.extract_topics (Analyze.words content)) else None |}.
  exists (JsObject.sort (Analyze.by_occurrences (Analyze.tokens content))
            (JsObject.key_order (JsObject.first_occurrences (Analyze.tokens content)))).
  exists idx.
  split; [reflexivity|]. cbn [Analyze.topics].
  replace (Analyze.wants_topics t) with true by (destruct Ht; subst; reflexivity).
  split; [now rewrite (extract_topics_ranking _ Habs)|].
  split; [exact Hp|]. split; [exact Hs|]. split.
  - apply (sort_sorted (Analyze.occurrences (Analyze.tokens content))). reflexivity.
  - intros c. rewrite <- Hk.
    apply (sort_stable (Analyze.occurrences (Analyze.tokens content))). reflexivity.
Qed.

(** C3 as stated fails: on [word 2024 1999] every token occurs once and [word]
    is met first, but the topics start with the two numerals, in ascending
    order. *)
Lemma topics_not_in_first_seen_order :
  exists obj,
    Analyze.analyze_document "word 2024 1999" Analyze.topics_only
    = Analyze.AnalysisData obj
    /\ Analyze.topics obj = Some ["1999"; "2024"; "word"]
    /\ Analyze.claimed_topics "word 2024 1999" = ["word"; "2024"; "1999"]
    /\ Analyze.topics obj <> Some (Analyze.claimed_topics "word 2024 1999").
Proof.
  eexists. split; [reflexivity|].
  split; [vm_compute; reflexivity|]. split; [vm_compute; reflexivity|].
  vm_compute. discriminate.
Qed.

(** The token [constructor] finds the inherited function on the first lookup:
    its entry holds a text, not a count, and every comparison with it gives
    NaN, so it keeps its place before a token that occurs more often. *)
Lemma topics_constructor :
  Analyze.frequencies ["constructor"; "alpha"; "alpha"]
  = [("constructor", Analyze.Text); ("alpha", Analyze.Count 2)]
  /\ Analyze.extract_topics ["constructor"; "alpha"; "alpha"] = ["constructor"; "alpha"].
Proof. split; vm_compute; reflexivity. Qed.

Lemma topics_ranked_in_key_order_witness :
  exists obj,
    Analyze.analyze_document "beta 2024 alpha 1999 alpha" Analyze.topics_only
    = Analyze.AnalysisData obj
    /\ exists ranked, Analyze.topics obj = Some (firstn 10 ranked)
    /\ filter (fun w => Nat.eqb (Analyze.occurrences
                                   (Analyze.tokens "beta 2024 alpha 1999 alpha") w) 1)
              ranked
       = ["1999"; "2024"; "beta"].
Proof.
  destruct (topics_ranked_in_key_order "beta 2024 alpha 1999 alpha" Analyze.topics_only)
    as (obj & ranked & idx & H1 & H2 & H3 & H4 & H5 & H6).
  - right. reflexivity.
  - intros w Hw. vm_compute in Hw.
    repeat (destruct Hw as [<- | Hw]; [reflexivity|]). destruct Hw.
  - exists obj. split; [exact H1|]. exists ranked. split; [exact H2|].
    rewrite H6.
    assert (E : idx = ["1999"; "2024"]).
    { change (Analyze.tokens "beta 2024 alpha 1999 alpha")
        with ["beta"; "2024"; "alpha"; "1999"; "alpha"] in H3.
      change (filter JsObject.is_index _) with ["2024"; "1999"] in H3.
      pose proof (Permutation_length H3) as L.
      destruct idx as [|a [|b [|c idx]]]; try discriminate L.
      assert (Ha : In a ["2024"; "1999"]) by (apply (Permutation_in _ H3); now left).
      assert (Hb : In b ["2024"; "1999"])
        by (apply (Permutation_in _ H3); right; now left).
      apply StronglySorted_inv in H4. destruct H4 as [_ H4].
      apply Forall_inv in H4.
      destruct Ha as [<-|[<-|[]]]; destruct Hb as [<-|[<-|[]]];
        vm_compute in H4; try discriminate H4; reflexivity. }
    subst idx. vm_compute. reflexivity.
Defined.

(** ** JSON: reading back what [stringify] wrote *)
Section JsonFacts.
Import Json JsObject.

Variable rt : Numerals.

Lemma parse_quote_char (c : ascii) (tail : string) :
  parse_string_body (quote_char c ++ tail) = cons_to c (parse_string_body tail).
Proof. destruct c as [[] [] [] [] [] [] [] []]; reflexivity. Qed.

(** A quoted string reads back as the string. *)
Lemma parse_quote_body (s rest : string) :
  parse_string_body (quote_body s ++ String "034" rest) = Some (s, rest).
Proof.
  induction s as [|c s IH]; [reflexivity|].
  cbn [quote_body]. rewrite append_assoc, parse_quote_char, IH. reflexivity.
Qed.

Lemma skip_ws_prefix (pre s : string) :
  all_ws pre = true -> skip_ws (pre ++ s) = skip_ws s.
Proof.
  induction pre as [|c pre IH]; [reflexivity|]. cbn [all_ws append skip_ws].
  intros H. apply andb_true_iff in H as [H1 H2]. rewrite H1. now apply IH.
Qed.

Lemma parse_value_string (f : nat) (pre s rest : string) :
  all_ws pre = true ->
  parse_value rt (S f) (pre ++ quote s ++ rest) = Some (Str s, rest).
Proof.
  intros Hpre. cbn [parse_value]. rewrite (skip_ws_prefix _ _ Hpre).
  unfold quote. cbn [append skip_ws]. change (is_ws "034") with false. cbv iota.
  change (Ascii.eqb "034" "{") with false. change (Ascii.eqb "034" "[") with false.
  change (Ascii.eqb "034" "034") with true. cbv iota.
  rewrite append_assoc. cbn [append]. rewrite parse_quote_body. reflexivity.
Qed.

Lemma span_number (tok rest : string) :
  all_number_chars tok = true -> number_end rest = true ->
  span is_number_char (tok ++ rest) = (tok, rest).
Proof.
  intros Ht Hr. induction tok as [|c tok IH].
  - destruct rest as [|d rest]; [reflexivity|]. cbn in *.
    apply negb_true_iff in Hr. now rewrite Hr.
  - cbn [all_number_chars] in Ht. apply andb_true_iff in Ht as [H1 H2].
    cbn [append span]. rewrite H1, (IH H2). reflexivity.
Qed.

Lemma number_first_char (c : ascii) (tok : string) :
  number_grammar (String c tok) = true ->
  (Js.is_digit c || Ascii.eqb c "-")%bool = true.
Proof.
  unfold number_grammar. destruct (Ascii.eqb c "-") eqn:E; [now rewrite orb_true_r|].
  rewrite orb_false_r. destruct (Js.is_digit c) eqn:D; [reflexivity|].
  destruct (Ascii.eqb c "0") eqn:Z; [|discriminate].
  apply Ascii.eqb_eq in Z. subst c. discriminate D.
Qed.

Lemma number_start (c : ascii) :
  (Js.is_digit c || Ascii.eqb c "-")%bool = true ->
  is_ws c = false /\ Ascii.eqb c "{" = false /\ Ascii.eqb c "[" = false
  /\ Ascii.eqb c "034" = false /\ Ascii.eqb c "t" = false
  /\ Ascii.eqb c "f" = false /\ Ascii.eqb c "n" = false.
Proof.
  destruct c as [[] [] [] [] [] [] [] []]; intros H;
    first [discriminate H | repeat split; reflexivity].
Qed.

(** A number that the engine prints faithfully reads back as itself. *)
Lemma parse_value_number (f : nat) (pre rest : string) (n : number) :
  all_ws pre = true ->
  valid_number (to_string rt n) = true ->
  number_end rest = true ->
  parse_value rt (S f) (pre ++ to_string rt n ++ rest)
  = Some (Num (of_string rt (to_string rt n)), rest).
Proof.
  intros Hpre Hv Hr. unfold valid_number in Hv. apply andb_true_iff in Hv as [Hc Hg].
  cbn [parse_value]. rewrite (skip_ws_prefix _ _ Hpre).
  destruct (to_string rt n) as [|c tok] eqn:E; [discriminate Hg|].
  destruct (number_start c (number_first_char c tok Hg))
    as (W & H1 & H2 & H3 & H4 & H5 & H6).
  cbn [append skip_ws]. rewrite W, H1, H2, H3, H4, H5, H6.
  unfold parse_number.
  change (String c (tok ++ rest)) with (String c tok ++ rest).
  rewrite (span_number _ _ Hc Hr), Hg. reflexivity.
Qed.

End JsonFacts.

Section JsonObjects.
Import Json JsObject.

Variable rt : Numerals.

Lemma length_quote (s : string) : 2 <= String.length (quote s).
Proof. unfold quote. cbn [String.length]. rewrite length_append. cbn. lia. Qed.

Lemma quote_head (s : string) : exists body, quote s = String "034" body.
Proof. unfold quote. eauto. Qed.

(** The turns of the loops of the parser. *)
Lemma parse_elements_more (f : nat) (acc : list value) (s r r' : string) (v : value) :
  parse_value rt f s = Some (v, r) ->
  skip_ws r = String "," r' ->
  parse_elements rt (S f) acc s = parse_elements rt f (acc ++ [v]) r'.
Proof. intros H1 H2. cbn [parse_elements]. rewrite H1, H2. reflexivity. Qed.

Lemma parse_elements_last (f : nat) (acc : list value) (s r r' : string) (v : value) :
  parse_value rt f s = Some (v, r) ->
  skip_ws r = String "]" r' ->
  parse_elements rt (S f) acc s = Some (Arr (acc ++ [v]), r').
Proof. intros H1 H2. cbn [parse_elements]. rewrite H1, H2. reflexivity. Qed.

Lemma parse_members_more (f : nat) (acc : props value) (s r r1 r2 r3 r4 k : string)
      (v : value) :
  skip_ws s = String "034" r ->
  parse_string_body r = Some (k, r1) ->
  skip_ws r1 = String ":" r2 ->
  parse_value rt f r2 = Some (v, r3) ->
  skip_ws r3 = String "," r4 ->
  parse_members rt (S f) acc s = parse_members rt f (set_own acc k v) r4.
Proof.
  intros H1 H2 H3 H4 H5. cbn [parse_members]. rewrite H1. cbn [Ascii.eqb Bool.eqb andb].
  rewrite H2, H3. cbn [Ascii.eqb Bool.eqb andb]. rewrite H4, H5. reflexivity.
Qed.

Lemma parse_members_last (f : nat) (acc : props value) (s r r1 r2 r3 r4 k : string)
      (v : value) :
  skip_ws s = String "034" r ->
  parse_string_body r = Some (k, r1) ->
  skip_ws r1 = String ":" r2 ->
  parse_value rt f r2 = Some (v, r3) ->
  skip_ws r3 = String "}" r4 ->
  parse_members rt (S f) acc s = Some (Obj (set_own acc k v), r4).
Proof.
  intros H1 H2 H3 H4 H5. cbn [parse_members]. rewrite H1. cbn [Ascii.eqb Bool.eqb andb].
  rewrite H2, H3. cbn [Ascii.eqb Bool.eqb andb]. rewrite H4, H5. reflexivity.
Qed.

Lemma parse_value_array (f : nat) (s r r' : string) (d : ascii) :
  skip_ws s = String "[" r ->
  skip_ws r = String d r' ->
  Ascii.eqb d "]" = false ->
  parse_value rt (S f) s = parse_elements rt f [] (String d r').
Proof.
  intros H1 H2 H3. cbn [parse_value]. rewrite H1. cbn [Ascii.eqb Bool.eqb andb].
  rewrite H2, H3. reflexivity.
Qed.

Lemma parse_value_object (f : nat) (s r r' : string) (d : ascii) :
  skip_ws s = String "{" r ->
  skip_ws r = String d r' ->
  Ascii.eqb d "}" = false ->
  parse_value rt (S f) s = parse_members rt f [] (String d r').
Proof.
  intros H1 H2 H3. cbn [parse_value]. rewrite H1. cbn [Ascii.eqb Bool.eqb andb].
  rewrite H2, H3. reflexivity.
Qed.

(** The elements of an array of strings, one per line. *)
Lemma parse_elements_strings (l : list string) :
  forall (x : string) (acc : list value) (f : nat) (pre rest : string),
    all_ws pre = true ->
    2 * String.length (pre ++ elements_text x l rest) + 2 <= f ->
    parse_elements rt f acc (pre ++ elements_text x l rest)
    = Some (Arr (acc ++ map Str (x :: l)), rest).
Proof.
  induction l as [|y l IH]; intros x acc f pre rest Hpre Hf;
    (destruct f as [|[|f]]; [lia | lia |]); cbn [elements_text].
  - apply (parse_elements_last _ _ _ _ _ _
             (parse_value_string rt f pre x (newline ++ "  ]" ++ rest) Hpre)).
    reflexivity.
  - rewrite (parse_elements_more _ acc _ _ (newline ++ "    " ++ elements_text y l rest) _
               (parse_value_string rt f pre x
                  ("," ++ newline ++ "    " ++ elements_text y l rest) Hpre) eq_refl).
    change (newline ++ "    " ++ elements_text y l rest)
      with ((newline ++ "    ") ++ elements_text y l rest).
    rewrite IH; [now rewrite <- app_assoc | reflexivity |].
    cbn [elements_text] in Hf. rewrite !length_append in *.
    pose proof (length_quote x). cbn [String.length newline append] in *. lia.
Qed.

Lemma join_elements (x : string) (l : list string) (rest : string) :
  Js.join ("," ++ newline ++ "    ") (map quote (x :: l)) ++ newline ++ "  ]" ++ rest
  = elements_text x l rest.
Proof.
  revert x. induction l as [|y l IH]; intros x; [reflexivity|].
  cbn [elements_text]. rewrite <- IH. cbn [map Js.join].
  now rewrite !append_assoc.
Qed.

Lemma serialize_strings (x : string) (l : list string) (rest : string) :
  serialize rt "  " "  " (Arr (map Str (x :: l))) ++ rest
  = "[" ++ newline ++ "    " ++ elements_text x l rest.
Proof.
  rewrite <- join_elements. cbn [serialize]. rewrite map_map. cbn [serialize map].
  unfold layout. change (String.eqb "  " "") with false. cbv iota.
  rewrite !append_assoc. reflexivity.
Qed.

(** A flat value written at the indentation of the properties reads back. *)
Lemma parse_value_flat (v : value) (f : nat) (pre rest : string) :
  flat rt v ->
  all_ws pre = true ->
  number_end rest = true ->
  2 * String.length (pre ++ serialize rt "  " "  " v ++ rest) + 1 <= f ->
  parse_value rt f (pre ++ serialize rt "  " "  " v ++ rest)
  = Some (read_back rt v, rest).
Proof.
  intros Hv Hpre Hr Hf. destruct f as [|f]; [lia|].
  destruct Hv as [s | n (Hfin & Hval & Hrt) | l]; cbn [read_back].
  - apply parse_value_string, Hpre.
  - cbn [serialize]. rewrite Hfin.
    apply (parse_value_number rt f pre rest n Hpre Hval Hr).
  - destruct l as [|x l].
    + cbn [parse_value]. rewrite (skip_ws_prefix _ _ Hpre). reflexivity.
    + rewrite serialize_strings in *.
      destruct (quote_head x) as [body Hq].
      assert (E : exists tail, elements_text x l rest = String "034" tail).
      { destruct l; cbn [elements_text]; rewrite Hq; cbn [append]; eauto. }
      destruct E as [tail E].
      rewrite (parse_value_array f _ (newline ++ "    " ++ elements_text x l rest)
                 tail "034").
      * rewrite <- E.
        apply (parse_elements_strings l x [] f "" rest eq_refl).
        rewrite !length_append in Hf. cbn [String.length newline append] in *. lia.
      * now rewrite (skip_ws_prefix _ _ Hpre).
      * rewrite E. reflexivity.
      * reflexivity.
Qed.

End JsonObjects.

Section JsonMembers.
Import Json JsObject.

Variable rt : Numerals.

(** The members of an object whose values are flat, one per line. *)
Lemma parse_members_flat (ms : list (string * value)) :
  forall (m : string * value) (acc : props value) (f : nat) (pre rest : string),
    Forall (fun kv => flat rt (snd kv)) (m :: ms) ->
    all_ws pre = true ->
    2 * String.length (pre ++ members_text rt m ms rest) + 2 <= f ->
    parse_members rt f acc (pre ++ members_text rt m ms rest)
    = Some (Obj (fold_left add_member (map (read_member rt) (m :: ms)) acc), rest).
Proof.
  induction ms as [|m' ms IH]; intros [k v] acc f pre rest Hflat Hpre Hf;
    (destruct f as [|f]; [lia|]); cbn [members_text fst snd] in *;
    inversion Hflat as [|? ? Hv Hflat']; subst; cbn [snd] in Hv.
  - apply (parse_members_last rt f acc _
             ((quote_body k ++ String "034" "") ++ ": " ++ serialize rt "  " "  " v
                ++ newline ++ "}" ++ rest)
             (": " ++ serialize rt "  " "  " v ++ newline ++ "}" ++ rest)
             (" " ++ serialize rt "  " "  " v ++ newline ++ "}" ++ rest)
             (newline ++ "}" ++ rest) rest k (read_back rt v)).
    + now rewrite (skip_ws_prefix _ _ Hpre).
    + rewrite append_assoc. apply parse_quote_body.
    + reflexivity.
    + apply parse_value_flat; [exact Hv | reflexivity | reflexivity |].
      rewrite !length_append in *. pose proof (length_quote k).
      cbn [String.length newline append] in *. lia.
    + reflexivity.
  - rewrite (parse_members_more rt f acc _
               ((quote_body k ++ String "034" "") ++ ": " ++ serialize rt "  " "  " v
                  ++ "," ++ newline ++ "  " ++ members_text rt m' ms rest)
               (": " ++ serialize rt "  " "  " v
                  ++ "," ++ newline ++ "  " ++ members_text rt m' ms rest)
               (" " ++ serialize rt "  " "  " v
                  ++ "," ++ newline ++ "  " ++ members_text rt m' ms rest)
               ("," ++ newline ++ "  " ++ members_text rt m' ms rest)
               (newline ++ "  " ++ members_text rt m' ms rest) k (read_back rt v)).
    + change (newline ++ "  " ++ members_text rt m' ms rest)
        with ((newline ++ "  ") ++ members_text rt m' ms rest).
      rewrite IH; [reflexivity | exact Hflat' | reflexivity |].
      rewrite !length_append in *. pose proof (length_quote k).
      cbn [String.length newline append] in *. lia.
    + now rewrite (skip_ws_prefix _ _ Hpre).
    + rewrite append_assoc. apply parse_quote_body.
    + reflexivity.
    + apply parse_value_flat; [exact Hv | reflexivity | reflexivity |].
      rewrite !length_append in *. pose proof (length_quote k).
      cbn [String.length newline append] in *. lia.
    + reflexivity.
Qed.

Lemma set_own_fresh (acc : props value) (k : string) (v : value) :
  ~ In k (map fst acc) -> set_own acc k v = (acc ++ [(k, v)])%list.
Proof.
  induction acc as [|[k' v'] acc IH]; intros H; [reflexivity|].
  cbn [set_own app]. destruct (String.eqb k' k) eqn:E.
  - apply String.eqb_eq in E. subst. exfalso. apply H. now left.
  - rewrite IH; [reflexivity|]. intros Hin. apply H. now right.
Qed.

(** Members with distinct keys are stored as they come. *)
Lemma fold_add_member (o acc : props value) :
  NoDup (map fst (acc ++ o)) -> fold_left add_member o acc = (acc ++ o)%list.
Proof.
  revert acc. induction o as [|[k v] o IH]; intros acc H; cbn [fold_left].
  - now rewrite app_nil_r.
  - unfold add_member at 2. cbn [fst snd]. rewrite set_own_fresh.
    + rewrite IH; rewrite <- app_assoc; [reflexivity | exact H].
    + rewrite map_app in H. cbn [map fst] in H.
      apply NoDup_remove_2 in H. intros Hin. apply H, in_or_app. now left.
Qed.

Lemma entries_no_index {V} (o : props V) :
  Forall (fun e => is_index (fst e) = false) o -> entries o = o.
Proof.
  intros H. unfold entries.
  assert (E : filter (fun e => is_index (fst e)) o = []
              /\ filter (fun e => negb (is_index (fst e))) o = o).
  { induction H as [|e o He Ho [IH1 IH2]]; [now split|]. cbn [filter].
    rewrite He. cbn [negb]. now rewrite IH1, IH2. }
  destruct E as [E1 E2]. now rewrite E1, E2.
Qed.

Lemma join_members (m : string * value) (ms : list (string * value)) (rest : string) :
  Js.join ("," ++ newline ++ "  ")
    (map (fun kv => quote (fst kv) ++ ": " ++ serialize rt "  " "  " (snd kv)) (m :: ms))
    ++ newline ++ "}" ++ rest
  = members_text rt m ms rest.
Proof.
  revert m. induction ms as [|m' ms IH]; intros m.
  - cbn [map Js.join members_text]. now rewrite !append_assoc.
  - cbn [members_text]. rewrite <- IH. cbn [map Js.join].
    now rewrite !append_assoc.
Qed.

(** The text of an object without array-index keys, pretty-printed. *)
Lemma stringify_2_object (m : string * value) (ms : list (string * value)) :
  Forall (fun e => is_index (fst e) = false) (m :: ms) ->
  stringify_2 rt (Obj (m :: ms)) = "{" ++ newline ++ "  " ++ members_text rt m ms "".
Proof.
  intros H. unfold stringify_2. cbn [serialize].
  rewrite entries_no_index.
  - rewrite map_map. cbn [fst snd append]. rewrite <- join_members.
    cbn [map]. unfold layout. change (String.eqb "  " "") with false. cbv iota.
    cbn [append fst snd]. reflexivity.
  - apply Forall_map. cbn [fst]. exact H.
Qed.

(** [JSON.parse] reads back the pretty-printed text of an object whose keys
    are distinct and are not array indices and whose values are flat: the
    same keys in the same order, each with its value read back. *)
Lemma parse_stringify_2 (o : props value) :
  o <> [] ->
  NoDup (map fst o) ->
  Forall (fun e => is_index (fst e) = false) o ->
  Forall (fun kv => flat rt (snd kv)) o ->
  parse rt (stringify_2 rt (Obj o)) = Some (Obj (map (read_member rt) o)).
Proof.
  intros Hne Hnd Hidx Hflat. destruct o as [|m ms]; [congruence|].
  rewrite (stringify_2_object m ms Hidx). unfold parse.
  destruct (quote_head (fst m)) as [body Hq].
  assert (E : exists tail, members_text rt m ms "" = String "034" tail).
  { destruct ms; cbn [members_text]; rewrite Hq; cbn [append]; eauto. }
  destruct E as [tail E].
  set (text := "{" ++ newline ++ "  " ++ members_text rt m ms "").
  assert (F : 2 * String.length text + 2
              = S (2 * String.length (members_text rt m ms "") + 9)).
  { unfold text. rewrite !length_append. cbn [String.length newline]. lia. }
  rewrite F. unfold text.
  rewrite (parse_value_object rt _ _ (newline ++ "  " ++ members_text rt m ms "")
             tail "034"); [| reflexivity | now rewrite E | reflexivity].
  rewrite <- E.
  rewrite (parse_members_flat ms m [] _ "" "" Hflat eq_refl) by (cbn [append]; lia).
  rewrite fold_add_member; [reflexivity|].
  cbn [app]. rewrite map_map. exact Hnd.
Qed.

End JsonMembers.

(** ** Dates *)
Section DateFacts.
Import DateTime.
Local Open Scope Z_scope.

Lemma civil_ranges (days : Z) :
  let '(y, m, d) := civil_from_days days in
  1 <= m <= 12 /\ 1 <= d <= 31
  /\ (- 100000000 <= days <= 100000000 -> - 999999 <= y <= 999999).
Proof.
  unfold civil_from_days.
  set (z := days + 719468).
  set (era := z / 146097).
  set (doe := z - era * 146097).
  assert (Hdoe : 0 <= doe <= 146096).
  { unfold doe, era. pose proof (Z.mod_pos_bound z 146097 ltac:(lia)).
    rewrite Z.mod_eq in H by lia. lia. }
  set (yoe := (doe - doe / 1460 + doe / 36524 - doe / 146096) / 365).
  assert (Hyoe : 0 <= yoe <= 399).
  { unfold yoe. Z.to_euclidean_division_equations. lia. }
  set (doy := doe - (365 * yoe + yoe / 4 - yoe / 100)).
  assert (Hdoy : 0 <= doy <= 365).
  { unfold doy, yoe. Z.to_euclidean_division_equations. lia. }
  set (mp := (5 * doy + 2) / 153).
  assert (Hmp : 0 <= mp <= 11).
  { unfold mp. Z.to_euclidean_division_equations. lia. }
  set (d := doy - (153 * mp + 2) / 5 + 1).
  assert (Hd : 1 <= d <= 31).
  { unfold d, mp. Z.to_euclidean_division_equations. lia. }
  destruct (Z.ltb_spec mp 10); destruct (Z.leb_spec (mp + 3) 2);
    destruct (Z.leb_spec (mp - 9) 2); repeat split; try lia;
    unfold era, z in *; Z.to_euclidean_division_equations; lia.
Qed.

Lemma digit_facts (x : Z) :
  0 <= x < 10 ->
  Js.is_digit (digit x) = true
  /\ Z.of_N (Js.code (digit x)) - 48 = x
  /\ Ascii.eqb (digit x) "+" = false
  /\ Ascii.eqb (digit x) "-" = false.
Proof.
  intros H.
  assert (E : x = 0 \/ x = 1 \/ x = 2 \/ x = 3 \/ x = 4 \/ x = 5 \/ x = 6
              \/ x = 7 \/ x = 8 \/ x = 9) by lia.
  repeat (destruct E as [-> | E]; [repeat split; reflexivity|]).
  subst. repeat split; reflexivity.
Qed.

Lemma field_snoc (k : nat) :
  forall (acc : Z) (s : string),
    field (S k) acc s
    = match field k acc s with
      | Some (v, String c r) =>
          if Js.is_digit c then Some (10 * v + (Z.of_N (Js.code c) - 48), r) else None
      | _ => None
      end.
Proof.
  induction k as [|k IH]; intros acc s.
  - destruct s as [|c s]; reflexivity.
  - destruct s as [|c s]; [reflexivity|].
    change (field (S (S k)) acc (String c s))
      with (if Js.is_digit c
            then field (S k) (10 * acc + (Z.of_N (Js.code c) - 48)) s else None).
    rewrite IH. cbn [field]. destruct (Js.is_digit c); reflexivity.
Qed.

(** The digits written by [digits] read back as the number. *)
Lemma field_digits (k : nat) :
  forall (n acc : Z) (rest : string),
    0 <= n ->
    field k acc (digits k n ++ rest)
    = Some (acc * 10 ^ Z.of_nat k + n mod 10 ^ Z.of_nat k, rest).
Proof.
  induction k as [|k IH]; intros n acc rest Hn.
  - cbn [field digits append]. rewrite Z.mod_1_r. f_equal. f_equal. cbn. lia.
  - rewrite field_snoc. cbn [digits]. rewrite append_assoc. cbn [append].
    rewrite IH by (apply Z.div_pos; lia).
    destruct (digit_facts (n mod 10) (Z.mod_pos_bound n 10 ltac:(lia)))
      as (D1 & D2 & _).
    rewrite D1, D2. f_equal. f_equal.
    rewrite Nat2Z.inj_succ, Z.pow_succ_r by lia.
    rewrite (Z.rem_mul_r n 10 (10 ^ Z.of_nat k)) by lia. lia.
Qed.

Lemma in_range_field (k : nat) (n lo hi : Z) (rest : string) :
  0 <= n < 10 ^ Z.of_nat k -> lo <= n <= hi ->
  in_range lo hi (field k 0 (digits k n ++ rest)) = Some rest.
Proof.
  intros Hn Hr. rewrite field_digits by lia. rewrite Z.mod_small by lia.
  cbn [in_range Z.mul Z.add].
  replace (lo <=? n) with true by (symmetry; apply Z.leb_le; lia).
  replace (n <=? hi) with true by (symmetry; apply Z.leb_le; lia).
  reflexivity.
Qed.

Lemma digits_head (k : nat) :
  forall (n : Z) (rest : string),
    exists x t, 0 <= x < 10 /\ digits (S k) n ++ rest = String (digit x) t.
Proof.
  induction k as [|k IH]; intros n rest.
  - exists (n mod 10), rest. split; [apply Z.mod_pos_bound; lia | reflexivity].
  - change (digits (S (S k)) n)
      with (digits (S k) (n / 10) ++ String (digit (n mod 10)) "").
    rewrite append_assoc. apply IH.
Qed.

Lemma year_text_reads (y : Z) (rest : string) :
  - 999999 <= y <= 999999 ->
  match year_text y ++ rest with
  | String c s' =>
      if (Ascii.eqb c "+" || Ascii.eqb c "-")%bool
      then in_range 0 999999 (field 6 0 s')
      else in_range 0 9999 (field 4 0 (year_text y ++ rest))
  | EmptyString => None
  end = Some rest.
Proof.
  intros Hy. unfold year_text.
  destruct (Z.leb_spec 0 y) as [H0|H0]; cbn [andb].
  - destruct (Z.leb_spec y 9999) as [H1|H1].
    + destruct (digits_head 3 y rest) as (x & t & Hx & E).
      destruct (digit_facts x Hx) as (_ & _ & P & M).
      rewrite E, P, M. cbn [orb]. rewrite <- E.
      apply in_range_field; cbn; lia.
    + replace (y <? 0) with false by (symmetry; apply Z.ltb_ge; lia).
      cbn [append Ascii.eqb Bool.eqb andb orb].
      apply in_range_field; cbn; lia.
  - replace (y <? 0) with true by (symmetry; apply Z.ltb_lt; lia).
    cbn [append Ascii.eqb Bool.eqb andb orb].
    apply in_range_field; cbn; lia.
Qed.

(** The separator after a field is consumed by computation. *)
Ltac next_field := cbn [then_ expect append Ascii.eqb Bool.eqb andb].

Lemma iso8601_fields (y m d h mi sec ms : Z) :
  - 999999 <= y <= 999999 -> 1 <= m <= 12 -> 1 <= d <= 31 ->
  0 <= h <= 23 -> 0 <= mi <= 59 -> 0 <= sec <= 59 -> 0 <= ms <= 999 ->
  iso8601 (year_text y ++ "-" ++ digits 2 m ++ "-" ++ digits 2 d ++ "T"
             ++ digits 2 h ++ ":" ++ digits 2 mi ++ ":" ++ digits 2 sec ++ "."
             ++ digits 3 ms ++ "Z") = true.
Proof.
  intros Hy Hm Hd Hh Hmi Hs Hms. unfold iso8601.
  rewrite (year_text_reads y _ Hy).
  do 6 (next_field; rewrite in_range_field by (cbn; lia)).
  reflexivity.
Qed.

(** Within the time range of a Date, [toISOString] returns a valid ISO 8601
    timestamp. *)
Lemma toISOString_valid (tv : Z) :
  - maxTime <= tv <= maxTime ->
  exists ts, toISOString tv = Json.Normal ts /\ iso8601 ts = true.
Proof.
  intros Htv. unfold toISOString.
  replace (tv <? - maxTime) with false by (symmetry; apply Z.ltb_ge; lia).
  replace (maxTime <? tv) with false by (symmetry; apply Z.ltb_ge; lia).
  cbn [orb].
  pose proof (civil_ranges (tv / msPerDay)) as C.
  destruct (civil_from_days (tv / msPerDay)) as [[y m] d].
  destruct C as (Hm & Hd & Hy).
  eexists. split; [reflexivity|].
  unfold maxTime, msPerDay in *.
  apply iso8601_fields; try assumption.
  - apply Hy. Z.to_euclidean_division_equations. lia.
  - Z.to_euclidean_division_equations. lia.
  - Z.to_euclidean_division_equations. lia.
  - Z.to_euclidean_division_equations. lia.
  - Z.to_euclidean_division_equations. lia.
Qed.

End DateFacts.

(** ** save_analysis *)
Section SaveFacts.
Import Json JsObject SaveAnalysis.

Variable rt : Numerals.

(** The eight shapes of an input: each optional property given or not. *)
Ltac shapes a := destruct (keyPoints a), (entities a), (topics a).

(** The payload: the properties of the input, then [generatedAt]. *)
Lemma payload_shape (a : analysisData) (generatedAt : string) :
  payload a generatedAt = (to_object a ++ [("generatedAt", Str generatedAt)])%list.
Proof.
  unfold payload, to_object. shapes a; reflexivity.
Qed.

(** The payload read back: the word count has gone through its numeral. *)
Lemma payload_read_back (a : analysisData) (generatedAt : string) :
  map (read_member rt) (payload a generatedAt)
  = payload (with_wordCount a (of_string rt (to_string rt (wordCount a)))) generatedAt.
Proof.
  rewrite !payload_shape. unfold to_object, with_wordCount.
  cbn [filename summary keyPoints entities topics wordCount sourceFile].
  shapes a; reflexivity.
Qed.

Lemma payload_reads_back (a : analysisData) (generatedAt : string) :
  faithful rt (wordCount a) ->
  parse rt (stringify_2 rt (Obj (payload a generatedAt)))
  = Some (Obj (payload (with_wordCount a (of_string rt (to_string rt (wordCount a))))
                 generatedAt)).
Proof.
  intros Hn. rewrite <- payload_read_back. rewrite payload_shape. unfold to_object.
  apply parse_stringify_2.
  - shapes a; discriminate.
  - shapes a; cbn [optional app map fst];
      repeat (constructor; [cbn [In]; intuition congruence|]); constructor.
  - shapes a; cbn [optional app];
      repeat (constructor; [reflexivity|]); constructor.
  - shapes a; cbn [optional app];
      repeat (constructor;
              [first [apply flat_string | apply flat_number; exact Hn
                     | apply flat_strings]|]);
      constructor.
Qed.

(** C7: when the write succeeds, the clock is within the range of a Date and
    the engine prints the word count faithfully (a finite Number, as the
    schema requires), save_analysis reports the saved path and the text it
    wrote parses back to an object that holds every given property of the
    input with its value, in the order of the schema, followed by exactly one
    more property, [generatedAt], whose value is a valid ISO 8601 timestamp.
    The strings and the arrays of strings are the very ones given; the word
    count is a Number equal ([===]) to the one given. *)
Theorem save_analysis_round_trip (w : Io.World) (a : analysisData) (outputPath : string) :
  Io.write_error w outputPath = None ->
  (- DateTime.maxTime <= Io.now w <= DateTime.maxTime)%Z ->
  faithful rt (wordCount a) ->
  exists text generatedAt obj n,
    fst (save_analysis rt a outputPath w) = Saved outputPath
    /\ Io.files (snd (save_analysis rt a outputPath w)) outputPath = Io.FsOk text
    /\ parse rt text = Some (Obj obj)
    /\ SFeqb n (wordCount a) = true
    /\ obj = (to_object (with_wordCount a n) ++ [("generatedAt", Str generatedAt)])%list
    /\ DateTime.iso8601 generatedAt = true
    /\ get_own obj "filename" = Some (Str (filename a))
    /\ get_own obj "summary" = Some (Str (summary a))
    /\ get_own obj "wordCount" = Some (Num n)
    /\ get_own obj "sourceFile" = Some (Str (sourceFile a))
    /\ (forall l, keyPoints a = Some l -> get_own obj "keyPoints" = Some (strings l))
    /\ (forall l, entities a = Some l -> get_own obj "entities" = Some (strings l))
    /\ (forall l, topics a = Some l -> get_own obj "topics" = Some (strings l))
    /\ get_own obj "generatedAt" = Some (Str generatedAt).
Proof.
  intros Hw Hnow Hn.
  destruct (toISOString_valid (Io.now w) Hnow) as (ts & Hts & Hiso).
  set (n := of_string rt (to_string rt (wordCount a))).
  exists (stringify_2 rt (Obj (payload a ts))), ts,
         (to_object (with_wordCount a n) ++ [("generatedAt", Str ts)])%list, n.
  unfold save_analysis, Io.bind, Io.date_now, Io.writeFileSync, Io.ret.
  rewrite Hts, Hw. cbn [fst snd Io.files Io.put].
  unfold Io.put. rewrite String.eqb_refl.
  split; [reflexivity|]. split; [reflexivity|].
  split; [rewrite (payload_reads_back a ts Hn); now rewrite payload_shape|].
  split; [exact (proj2 (proj2 Hn))|].
  split; [reflexivity|]. split; [exact Hiso|].
  unfold to_object, with_wordCount.
  cbn [filename summary keyPoints entities topics wordCount sourceFile].
  repeat split; try (intros l Hl; rewrite Hl);
    shapes a; try discriminate; try (injection Hl as <-); reflexivity.
Qed.

End SaveFacts.

Lemma save_analysis_round_trip_witness :
  exists text generatedAt n,
    fst (SaveAnalysis.save_analysis Samples.numerals Samples.analysis "out.json"
           Samples.world)
    = SaveAnalysis.Saved "out.json"
    /\ Io.files (snd (SaveAnalysis.save_analysis Samples.numerals Samples.analysis
                        "out.json" Samples.world)) "out.json" = Io.FsOk text
    /\ Json.parse Samples.numerals text
       = Some (Json.Obj (SaveAnalysis.to_object
                           (SaveAnalysis.with_wordCount Samples.analysis n)
                           ++ [("generatedAt", Json.Str generatedAt)]))
    /\ SFeqb n (SaveAnalysis.wordCount Samples.analysis) = true
    /\ DateTime.iso8601 generatedAt = true.
Proof.
  destruct (save_analysis_round_trip Samples.numerals Samples.world Samples.analysis
              "out.json")
    as (text & ts & obj & n & H1 & H2 & H3 & H4 & H5 & H6 & _).
  - reflexivity.
  - vm_compute. split; discriminate.
  - repeat split; reflexivity.
  - exists text, ts, n. subst obj. repeat split; assumption.
Defined.

(** ** JSON.parse: its fuel is never used up *)
Section ParseFuel.
Import Json JsObject.

Variable rt : Numerals.

Lemma skip_ws_length (s : string) : String.length (skip_ws s) <= String.length s.
Proof.
  induction s as [|c s IH]; [reflexivity|]. cbn [skip_ws].
  destruct (is_ws c); cbn [String.length]; lia.
Qed.

Lemma cons_to_shorter (c : ascii) (o : option (string * string)) (k r : string) (n : nat) :
  (forall k' r', o = Some (k', r') -> String.length r' < n) ->
  cons_to c o = Some (k, r) -> String.length r < n.
Proof.
  intros H. destruct o as [[k' r']|]; [|discriminate].
  intros E. injection E as _ <-. now apply (H k').
Qed.

Lemma parse_string_body_shorter (n : nat) :
  forall s k r,
    String.length s <= n ->
    parse_string_body s = Some (k, r) -> String.length r < String.length s.
Proof.
  induction n as [|n IH]; intros s k r Hn H.
  - destruct s; [discriminate H | cbn in Hn; lia].
  - destruct s as [|c s]; [discriminate H|]. cbn [parse_string_body] in H.
    cbn [String.length] in *.
    destruct (Ascii.eqb c "034"); [injection H as _ <-; lia|].
    destruct (Ascii.eqb c "\").
    + destruct s as [|e s]; [discriminate H|]. cbn [String.length] in *.
      destruct (Ascii.eqb e "u").
      * destruct s as [|h1 [|h2 [|h3 [|h4 s]]]]; try discriminate H.
        cbn [String.length] in *.
        destruct (unicode_escape h1 h2 h3 h4); [|discriminate H].
        apply cons_to_shorter with (n := S (String.length s)) in H; [lia|].
        intros k' r' E. apply IH in E; lia.
      * destruct (simple_escape e); [|discriminate H].
        apply cons_to_shorter with (n := S (String.length s)) in H; [lia|].
        intros k' r' E. apply IH in E; lia.
    + destruct (N.ltb (Js.code c) 32); [discriminate H|].
      apply cons_to_shorter with (n := S (String.length s)) in H; [lia|].
      intros k' r' E. apply IH in E; lia.
Qed.

Lemma span_length (p : ascii -> bool) (s : string) :
  String.length (fst (span p s)) + String.length (snd (span p s)) = String.length s.
Proof.
  induction s as [|c s IH]; [reflexivity|]. cbn [span].
  destruct (p c); [|reflexivity]. destruct (span p s). cbn in *. lia.
Qed.

Lemma parse_number_shorter (s : string) (v : value) (r : string) :
  parse_number rt s = Some (v, r) -> String.length r < String.length s.
Proof.
  unfold parse_number. pose proof (span_length is_number_char s) as L.
  destruct (span is_number_char s) as [tok rest]. cbn [fst snd] in L.
  destruct (number_grammar tok) eqn:G; [|discriminate].
  intros H. injection H as _ <-.
  destruct tok; [discriminate G | cbn in L; lia].
Qed.

Lemma keyword_shorter (k : string) (w v : value) (c : ascii) (s r : string) :
  keyword k w (String c s) = Some (v, r) ->
  0 < String.length k ->
  String.length r < String.length (String c s).
Proof.
  unfold keyword. destruct (String.prefix k (String c s)); [|discriminate].
  intros H Hk. injection H as _ <-. rewrite length_drop. cbn [String.length]. lia.
Qed.

(** Every successful parse consumes input. *)
Lemma parse_shorter (fuel : nat) :
  (forall s v r, parse_value rt fuel s = Some (v, r) ->
                 String.length r < String.length s)
  /\ (forall acc s v r, parse_elements rt fuel acc s = Some (v, r) ->
                        String.length r < String.length s)
  /\ (forall acc s v r, parse_members rt fuel acc s = Some (v, r) ->
                        String.length r < String.length s).
Proof.
  induction fuel as [|fuel (IHv & IHe & IHm)];
    [repeat split; intros; discriminate|].
  split; [|split].
  - intros s v r H. cbn [parse_value] in H.
    pose proof (skip_ws_length s) as L.
    destruct (skip_ws s) as [|c t]; [discriminate H|]. cbn [String.length] in L.
    destruct (Ascii.eqb c "{").
    { pose proof (skip_ws_length t) as L'.
      destruct (skip_ws t) as [|d t']; [discriminate H|]. cbn [String.length] in L'.
      destruct (Ascii.eqb d "}"); [injection H as _ <-; lia|].
      apply IHm in H. cbn [String.length] in H. lia. }
    destruct (Ascii.eqb c "[").
    { pose proof (skip_ws_length t) as L'.
      destruct (skip_ws t) as [|d t']; [discriminate H|]. cbn [String.length] in L'.
      destruct (Ascii.eqb d "]"); [injection H as _ <-; lia|].
      apply IHe in H. cbn [String.length] in H. lia. }
    destruct (Ascii.eqb c "034").
    { destruct (parse_string_body t) as [[str t']|] eqn:E; [|discriminate H].
      injection H as _ <-.
      apply (parse_string_body_shorter _ _ _ _ (le_n _)) in E. lia. }
    destruct (Ascii.eqb c "t");
      [apply keyword_shorter in H; cbn [String.length] in *; lia|].
    destruct (Ascii.eqb c "f");
      [apply keyword_shorter in H; cbn [String.length] in *; lia|].
    destruct (Ascii.eqb c "n");
      [apply keyword_shorter in H; cbn [String.length] in *; lia|].
    apply parse_number_shorter in H. cbn [String.length] in *. lia.
  - intros acc s v r H. cbn [parse_elements] in H.
    destruct (parse_value rt fuel s) as [[v' t]|] eqn:E; [|discriminate H].
    apply IHv in E. pose proof (skip_ws_length t) as L.
    destruct (skip_ws t) as [|c t']; [discriminate H|]. cbn [String.length] in L.
    destruct (Ascii.eqb c ","); [apply IHe in H; lia|].
    destruct (Ascii.eqb c "]"); [injection H as _ <-; lia | discriminate H].
  - intros acc s v r H. cbn [parse_members] in H.
    pose proof (skip_ws_length s) as L.
    destruct (skip_ws s) as [|q t]; [discriminate H|]. cbn [String.length] in L.
    destruct (Ascii.eqb q "034"); [|discriminate H].
    destruct (parse_string_body t) as [[k t1]|] eqn:E; [|discriminate H].
    apply (parse_string_body_shorter _ _ _ _ (le_n _)) in E.
    pose proof (skip_ws_length t1) as L1.
    destruct (skip_ws t1) as [|colon t2]; [discriminate H|].
    cbn [String.length] in L1.
    destruct (Ascii.eqb colon ":"); [|discriminate H].
    destruct (parse_value rt fuel t2) as [[v' t3]|] eqn:E'; [|discriminate H].
    apply IHv in E'. pose proof (skip_ws_length t3) as L3.
    destruct (skip_ws t3) as [|c t4]; [discriminate H|]. cbn [String.length] in L3.
    destruct (Ascii.eqb c ","); [apply IHm in H; lia|].
    destruct (Ascii.eqb c "}"); [injection H as _ <-; lia | discriminate H].
Qed.

(** Beyond twice the length of the text, more fuel changes nothing. *)
Lemma parse_fuel (fuel : nat) :
  forall fuel',
    (forall s, 2 * String.length s + 1 <= fuel -> 2 * String.length s + 1 <= fuel' ->
               parse_value rt fuel s = parse_value rt fuel' s)
    /\ (forall acc s,
          2 * String.length s + 2 <= fuel -> 2 * String.length s + 2 <= fuel' ->
          parse_elements rt fuel acc s = parse_elements rt fuel' acc s)
    /\ (forall acc s,
          2 * String.length s + 2 <= fuel -> 2 * String.length s + 2 <= fuel' ->
          parse_members rt fuel acc s = parse_members rt fuel' acc s).
Proof.
  induction fuel as [|fuel IH]; intros fuel';
    [repeat split; intros; lia|].
  destruct fuel' as [|fuel']; [repeat split; intros; lia|].
  destruct (IH fuel') as (IHv & IHe & IHm).
  destruct (parse_shorter fuel) as (Sv & _ & _).
  split; [|split].
  - intros s Hf Hf'. cbn [parse_value].
    pose proof (skip_ws_length s) as L.
    destruct (skip_ws s) as [|c t]; [reflexivity|]. cbn [String.length] in L.
    pose proof (skip_ws_length t) as L'.
    destruct (skip_ws t) as [|d t']; [reflexivity|]. cbn [String.length] in L'.
    rewrite (IHm [] (String d t')), (IHe [] (String d t'))
      by (cbn [String.length]; lia).
    reflexivity.
  - intros acc s Hf Hf'. cbn [parse_elements].
    rewrite (IHv s) by lia.
    destruct (parse_value rt fuel' s) as [[v t]|] eqn:E; [|reflexivity].
    rewrite <- (IHv s) in E by lia. apply Sv in E.
    pose proof (skip_ws_length t) as L.
    destruct (skip_ws t) as [|c t']; [reflexivity|]. cbn [String.length] in L.
    rewrite (IHe (acc ++ [v])%list t') by lia. reflexivity.
  - intros acc s Hf Hf'. cbn [parse_members].
    pose proof (skip_ws_length s) as L.
    destruct (skip_ws s) as [|q t]; [reflexivity|]. cbn [String.length] in L.
    destruct (Ascii.eqb q "034"); [|reflexivity].
    destruct (parse_string_body t) as [[k t1]|] eqn:E; [|reflexivity].
    apply (parse_string_body_shorter _ _ _ _ (le_n _)) in E.
    pose proof (skip_ws_length t1) as L1.
    destruct (skip_ws t1) as [|colon t2]; [reflexivity|].
    cbn [String.length] in L1.
    destruct (Ascii.eqb colon ":"); [|reflexivity].
    rewrite (IHv t2) by lia.
    destruct (parse_value rt fuel' t2) as [[v t3]|] eqn:E'; [|reflexivity].
    rewrite <- (IHv t2) in E' by lia. apply Sv in E'.
    pose proof (skip_ws_length t3) as L3.
    destruct (skip_ws t3) as [|c t4]; [reflexivity|]. cbn [String.length] in L3.
    rewrite (IHm (set_own acc k v) t4) by lia. reflexivity.
Qed.

(** The fuel of [parse] is enough: any larger amount gives the same value. *)
Lemma parse_enough_fuel (text : string) (fuel : nat) :
  2 * String.length text + 2 <= fuel ->
  parse_value rt fuel text = parse_value rt (2 * String.length text + 2) text.
Proof. intros H. apply parse_fuel; lia. Qed.

End ParseFuel.

(* ================================================================== *)
(** * Further properties of the tools and the route *)
(* ================================================================== *)

Lemma append_empty (s : string) : s ++ "" = s.
Proof. induction s as [|c s IH]; simpl; [reflexivity | now rewrite IH]. Qed.

Lemma take_drop (n : nat) (s : string) : Js.take n s ++ Js.drop n s = s.
Proof.
  revert s. induction n as [|n IH]; intros [|c s]; simpl; try reflexivity.
  now rewrite IH.
Qed.

Section RunFacts.
Import Regex Text.

Variable ic : bool.
Variable cs : charset.

(** A starred class is a greedy run. *)
Lemma star_class (c : cont) (s : string) :
  forall fuel pr i,
    String.length s < fuel ->
    repeat_matcher fuel (compile ic (Chr cs)) 0 None
      {| prev := pr; rest := s; pos := i |} c
    = greedy (class_matches ic cs) c pr s i.
Proof.
  induction s as [|ch s IH]; intros fuel pr i Hf;
    (destruct fuel as [|fuel]; [cbn in Hf; lia|]).
  - reflexivity.
  - cbn [repeat_matcher compile rest pos greedy option_map Nat.pred].
    change (Nat.eqb 0 0) with true. cbn [negb andb].
    destruct (class_matches ic cs ch); [|reflexivity].
    replace (Nat.eqb (S i) i) with false by (symmetry; apply Nat.eqb_neq; lia).
    rewrite IH by (cbn in Hf; lia). reflexivity.
Qed.

Lemma compile_star_class (c : cont) (x : mstate) :
  compile ic (star (Chr cs)) x c
  = greedy (class_matches ic cs) c (prev x) (rest x) (pos x).
Proof.
  destruct x as [pr s i]. unfold star. cbn [compile rest prev pos].
  apply star_class. lia.
Qed.

(** One or more: a first character of the class, then a greedy run. *)
Lemma compile_plus_class (c : cont) (x : mstate) :
  compile ic (plus (Chr cs)) x c
  = match rest x with
    | EmptyString => None
    | String ch s' =>
        if class_matches ic cs ch
        then greedy (class_matches ic cs) c (Some ch) s' (S (pos x))
        else None
    end.
Proof.
  destruct x as [pr s i]. unfold plus. cbn [compile rest prev pos].
  replace (1 + String.length s + 1) with (S (S (String.length s))) by lia.
  remember (S (String.length s)) as fuel eqn:Hfuel.
  cbn [repeat_matcher]. change (Nat.eqb 1 0) with false. cbn [negb andb compile rest pos].
  destruct s as [|ch s]; [reflexivity|].
  destruct (class_matches ic cs ch); [|reflexivity].
  cbn [option_map Nat.pred]. apply star_class. cbn in Hfuel. lia.
Qed.

(** With nothing to satisfy afterwards the longest run is taken. *)
Lemma greedy_longest (p : ascii -> bool) (s : string) :
  forall pr i, greedy p (fun y => Some y) pr s i = Some (past_run p pr s i).
Proof.
  induction s as [|ch s IH]; intros pr i; [reflexivity|].
  cbn [greedy past_run]. destruct (p ch); [|reflexivity]. now rewrite IH.
Qed.

Lemma past_run_rest (p : ascii -> bool) (s : string) :
  forall pr i, rest (past_run p pr s i) = skip_run p s.
Proof.
  induction s as [|ch s IH]; intros pr i; [reflexivity|].
  cbn [past_run skip_run]. destruct (p ch); [apply IH | reflexivity].
Qed.

Lemma past_run_pos (p : ascii -> bool) (s : string) :
  forall pr i,
    pos (past_run p pr s i) = i + (String.length s - String.length (skip_run p s)).
Proof.
  induction s as [|ch s IH]; intros pr i; [cbn; lia|].
  cbn [past_run skip_run]. destruct (p ch).
  - rewrite IH. cbn [String.length].
    assert (String.length (skip_run p s) <= String.length s).
    { clear. induction s as [|c s IH]; [reflexivity|]. cbn [skip_run].
      destruct (p c); cbn [String.length]; lia. }
    lia.
  - cbn [pos String.length]. lia.
Qed.

Lemma length_skip_run (p : ascii -> bool) (s : string) :
  String.length (skip_run p s) <= String.length s.
Proof.
  induction s as [|c s IH]; [reflexivity|]. cbn [skip_run].
  destruct (p c); cbn [String.length]; lia.
Qed.

Lemma match_plus_class (x : mstate) :
  match_here ic (plus (Chr cs)) x
  = match rest x with
    | EmptyString => None
    | String ch s' =>
        if class_matches ic cs ch
        then Some (past_run (class_matches ic cs) (Some ch) s' (S (pos x)))
        else None
    end.
Proof.
  unfold match_here. rewrite compile_plus_class.
  destruct (rest x) as [|ch s']; [reflexivity|].
  destruct (class_matches ic cs ch); [|reflexivity]. apply greedy_longest.
Qed.

(** After a run of separators the pieces are those of the text past it. *)
Lemma pieces_skipping (p : ascii -> bool) (s : string) :
  pieces p true s = pieces p false (skip_run p s).
Proof.
  induction s as [|ch s IH]; [reflexivity|].
  cbn [pieces skip_run]. destruct (p ch) eqn:E; [exact IH|].
  cbn [pieces]. now rewrite E.
Qed.

Lemma pieces_not_nil (p : ascii -> bool) (b : bool) (s : string) : pieces p b s <> [].
Proof.
  revert b. induction s as [|ch s IH]; intros b; [discriminate|].
  cbn [pieces]. destruct (p ch).
  - destruct b; [apply IH | discriminate].
  - destruct (pieces p false s); discriminate.
Qed.

(** The loop of [split] on a pattern [c+], with [pre] the part of the pending
    piece already passed. *)
Lemma split_loop_pieces (fuel : nat) :
  forall pre s pr i p,
    String.length s < fuel ->
    i = p + String.length pre ->
    split_loop ic (plus (Chr cs)) fuel (pre ++ s) p {| prev := pr; rest := s; pos := i |}
    = match pieces (class_matches ic cs) false s with
      | h :: t => (pre ++ h) :: t
      | [] => []
      end.
Proof.
  induction fuel as [|fuel IH]; intros pre s pr i p Hf Hi; [lia|].
  cbn [split_loop rest pos]. destruct s as [|ch s].
  - reflexivity.
  - rewrite match_plus_class. cbn [rest pos pieces].
    destruct (class_matches ic cs ch) eqn:E.
    + set (e := past_run (class_matches ic cs) (Some ch) s (S i)).
      assert (Hpos : pos e = S i + (String.length s - String.length (skip_run (class_matches ic cs) s)))
        by apply past_run_pos.
      assert (Hrest : rest e = skip_run (class_matches ic cs) s) by apply past_run_rest.
      replace (Nat.eqb (pos e) p) with false by (symmetry; apply Nat.eqb_neq; lia).
      replace (i - p) with (String.length pre) by lia.
      rewrite take_append.
      f_equal; [now rewrite append_empty|].
      destruct e as [pe re ie]. cbn [rest pos] in *. subst re.
      pose proof (IH "" (skip_run (class_matches ic cs) s) pe ie ie) as H.
      cbn [append] in H. rewrite H.
      * rewrite pieces_skipping.
        destruct (pieces (class_matches ic cs) false (skip_run (class_matches ic cs) s));
          reflexivity.
      * pose proof (length_skip_run (class_matches ic cs) s). cbn in Hf. lia.
      * cbn. lia.
    + specialize (IH (pre ++ String ch "") s (Some ch) (S i) p).
      rewrite append_assoc in IH. cbn [append] in IH.
      rewrite IH; [| cbn in Hf; lia | rewrite length_append; cbn; lia].
      destruct (pieces (class_matches ic cs) false s) as [|h t] eqn:P.
      * now apply pieces_not_nil in P.
      * now rewrite append_assoc.
Qed.
End RunFacts.

Section SplitFacts.
Import Regex Text.

Lemma split_plus_class (ic : bool) (cs : charset) (s : string) :
  split ic (plus (Chr cs)) s = pieces (class_matches ic cs) false s.
Proof.
  destruct s as [|ch s].
  - cbn [split]. rewrite match_plus_class. reflexivity.
  - unfold split, start_of.
    pose proof (split_loop_pieces ic cs (2 * String.length (String ch s) + 1) ""
                  (String ch s) None 0 0) as H.
    cbn [append] in H. rewrite H; [|lia|reflexivity].
    destruct (pieces (class_matches ic cs) false (String ch s)); reflexivity.
Qed.

Lemma pieces_ext (p q : ascii -> bool) :
  (forall c, p c = q c) -> forall s b, pieces p b s = pieces q b s.
Proof.
  intros H s. induction s as [|ch s IH]; intros b; [reflexivity|].
  cbn [pieces]. rewrite H, !IH. reflexivity.
Qed.

Lemma class_space (c : ascii) :
  class_matches false {| invert := false; items := [Space] |} c = Js.is_space c.
Proof. unfold class_matches, in_items. cbn. now rewrite orb_false_r. Qed.

(** [text.split(/\s+/)]: the pieces between the runs of white space. *)
Lemma split_spaces (s : string) :
  split false Agent.spaces_re s = pieces Js.is_space false s.
Proof.
  unfold Agent.spaces_re, cls. rewrite split_plus_class.
  apply pieces_ext, class_space.
Qed.

Lemma pieces_head (p : ascii -> bool) (s : string) (h : string) (t : list string) :
  pieces p false s = h :: t -> Js.truthy_string h = starts_outside p s.
Proof.
  destruct s as [|ch s]; cbn [pieces starts_outside].
  - intros H. injection H as <- _. reflexivity.
  - destruct (p ch).
    + intros H. injection H as <- _. reflexivity.
    + destruct (pieces p false s); intros H; injection H as <- _; reflexivity.
Qed.

Lemma count_pieces (p : ascii -> bool) (s : string) :
  List.length (filter Js.truthy_string (pieces p false s))
  = word_starts p false s + (if starts_outside p s then 1 else 0)
  /\ List.length (filter Js.truthy_string (pieces p true s)) = word_starts p true s.
Proof.
  induction s as [|ch s [IHa IHb]]; [split; reflexivity|].
  cbn [pieces word_starts starts_outside]. destruct (p ch) eqn:E; cbn [negb].
  - cbn [filter Js.truthy_string]. rewrite IHb. split; lia.
  - destruct (pieces p false s) as [|h t] eqn:P; [now apply pieces_not_nil in P|].
    apply pieces_head in P as Hh. cbn [filter Js.truthy_string List.length] in *.
    destruct (Js.truthy_string h); rewrite <- Hh in IHa; cbn [List.length] in IHa;
      split; lia.
Qed.

Lemma pieces_lengths (p : ascii -> bool) (s : string) :
  forall b, Forall (fun w => String.length w <= String.length s) (pieces p b s).
Proof.
  induction s as [|ch s IH]; intros b; [repeat constructor|].
  cbn [pieces]. destruct (p ch).
  - assert (F : Forall (fun w => String.length w <= String.length (String ch s))
                       (pieces p true s)).
    { eapply Forall_impl; [|apply IH]. cbn. intros w Hw. lia. }
    destruct b; [exact F | constructor; [cbn; lia | exact F]].
  - specialize (IH false).
    destruct (pieces p false s) as [|h t] eqn:P; [now apply pieces_not_nil in P|].
    inversion IH as [|? ? Hh Ht]; subst. constructor; [cbn; lia|].
    eapply Forall_impl; [|exact Ht]. cbn. intros w Hw. lia.
Qed.

(** The pieces are made of the characters outside [p], so they inherit what
    holds of all of these. *)
Lemma pieces_chars (p q : ascii -> bool) (s : string) :
  all_chars_in (fun c => p c || q c)%bool s = true ->
  forall b, Forall (fun w => all_chars_in q w = true) (pieces p b s).
Proof.
  induction s as [|ch s IH]; intros H b; [repeat constructor|].
  cbn [all_chars_in] in H. apply andb_true_iff in H as [Hc H].
  cbn [pieces]. destruct (p ch) eqn:E.
  - destruct b; [now apply IH | constructor; [reflexivity | now apply IH]].
  - specialize (IH H false). destruct (pieces p false s) as [|h t]; cbn [orb] in Hc.
    + repeat constructor. cbn. now rewrite Hc.
    + inversion IH as [|? ? Hh Ht]; subst. constructor; [|exact Ht].
      cbn [all_chars_in]. now rewrite Hc, Hh.
Qed.

(** A text without separator is its own single piece. *)
Lemma pieces_whole (p : ascii -> bool) (s : string) :
  all_chars_in (fun c => negb (p c)) s = true -> pieces p false s = [s].
Proof.
  induction s as [|ch s IH]; [reflexivity|]. cbn [all_chars_in pieces].
  intros H. apply andb_true_iff in H as [Hc H]. apply negb_true_iff in Hc.
  rewrite Hc, (IH H). reflexivity.
Qed.

End SplitFacts.

Section WordCount.
Import Regex Text.

Lemma split_words_pieces (s : string) :
  Agent.split_words s = filter Js.truthy_string (pieces Js.is_space false s).
Proof. unfold Agent.split_words. now rewrite split_spaces. Qed.

Lemma word_starts_after_sep (p : ascii -> bool) (s : string) :
  word_starts p true s = word_starts p false s + (if starts_outside p s then 1 else 0).
Proof.
  destruct s as [|ch s]; [reflexivity|]. cbn [word_starts starts_outside].
  destruct (p ch); cbn [negb]; lia.
Qed.

Lemma count_words_starts (s : string) :
  ExtractText.count_words s = word_starts Js.is_space true s.
Proof.
  unfold ExtractText.count_words. rewrite split_words_pieces.
  rewrite (proj1 (count_pieces Js.is_space s)). symmetry. apply word_starts_after_sep.
Qed.

Lemma lower_char_space (c : ascii) : Js.is_space (Js.lower_char c) = Js.is_space c.
Proof. destruct c as [[] [] [] [] [] [] [] []]; reflexivity. Qed.

Lemma word_starts_lower (s : string) :
  forall b, word_starts Js.is_space b (Js.toLowerCase s) = word_starts Js.is_space b s.
Proof.
  induction s as [|ch s IH]; intros b; [reflexivity|].
  cbn [Js.toLowerCase word_starts]. rewrite lower_char_space, !IH. reflexivity.
Qed.

(** Deleting characters that are not separators never adds a word. *)
Lemma word_starts_delete (p del : ascii -> bool) (s : string) :
  (forall c, del c = true -> p c = false) ->
  forall b, word_starts p b (map_chars del (fun _ => "") s) <= word_starts p b s.
Proof.
  intros H. induction s as [|ch s IH]; intros b; [reflexivity|].
  cbn [map_chars word_starts]. destruct (del ch) eqn:D.
  - rewrite (H ch D). cbn [append]. specialize (IH b).
    destruct b; [|cbn; lia]. rewrite (word_starts_after_sep p s) in IH.
    rewrite (word_starts_after_sep p (map_chars del (fun _ : string => "") s)) in *.
    destruct (starts_outside p s); cbn; lia.
  - cbn [append word_starts]. destruct (p ch); [apply IH|].
    specialize (IH false). lia.
Qed.

Lemma class_punct (c : ascii) :
  class_matches false {| invert := true; items := [WordChar; Space] |} c
  = negb (Js.is_word c || Js.is_space c).
Proof. unfold class_matches, in_items. cbn. now rewrite orb_false_r. Qed.

Lemma words_stripped (content : string) :
  Analyze.words content
  = Agent.split_words
      (map_chars (fun c => negb (Js.is_word c || Js.is_space c)) (fun _ => "")
                 (Js.toLowerCase content)).
Proof.
  unfold Analyze.words, Analyze.punct_re, ncls. rewrite replace_global_class.
  f_equal. generalize (Js.toLowerCase content). intros s.
  induction s as [|ch s IH]; [reflexivity|]. cbn [map_chars]. now rewrite class_punct, IH.
Qed.

End WordCount.

(** X2: the word count that extract_text_content reports is the number of
    maximal runs of characters that are not white space: the number of places
    in the text where such a character stands first or follows white space. *)
Theorem extract_word_count_runs (lib : ExtractText.Library) (path : string) (w : Io.World)
        (r : ExtractText.extracted) :
  fst (ExtractText.extract_text_content lib path w) = ExtractText.ExtractOk r ->
  ExtractText.wordCount r
  = Text.word_starts Js.is_space true (ExtractText.extractedText r).
Proof.
  unfold ExtractText.extract_text_content.
  destruct (Agent.protected_path path); [discriminate|].
  destruct (String.eqb _ ".pdf").
  - unfold Io.bind, Io.readFileSync. cbn [fst].
    destruct (Io.buffers w path) as [bytes|m]; [|discriminate].
    destruct (ExtractText.pdf lib bytes); [|discriminate].
    cbn [fst Io.ret]. intros H. injection H as <-. cbn. apply count_words_starts.
  - unfold Io.bind, Io.readFileSync_utf8. cbn [fst].
    destruct (Io.files w path) as [raw|m]; [|discriminate].
    cbn [fst Io.ret]. intros H. injection H as <-. cbn. apply count_words_starts.
Qed.

Lemma extract_word_count_runs_witness :
  2 = Text.word_starts Js.is_space true "Hi there".
Proof.
  apply (extract_word_count_runs Samples.library "site/Index.HTML"
           {| Io.files := fun _ => Io.FsOk Samples.sample_html;
              Io.buffers := fun _ => Io.FsOk Samples.sample_html;
              Io.dirs := Io.dirs Samples.world;
              Io.write_error := fun _ => None; Io.now := 0; Io.log := [] |}
           {| ExtractText.filePath := "site/Index.HTML";
              ExtractText.extractedText := "Hi there";
              ExtractText.wordCount := 2; ExtractText.isPdf := false |}).
  vm_compute. reflexivity.
Defined.

(** X3: the word count of analyze_document never exceeds the word count that
    extract_text_content gives the same text: stripping punctuation can only
    make a word vanish, never split one. *)
Theorem analyze_word_count_le (content : string) (t : Analyze.analyzeType) :
  exists obj,
    Analyze.analyze_document content t = Analyze.AnalysisData obj
    /\ Analyze.wordCount obj <= ExtractText.count_words content.
Proof.
  eexists. split; [reflexivity|]. cbn [Analyze.wordCount].
  rewrite words_stripped. fold (ExtractText.count_words
    (Regex.map_chars (fun c => negb (Js.is_word c || Js.is_space c)) (fun _ => "")
       (Js.toLowerCase content))).
  rewrite !count_words_starts.
  rewrite <- (word_starts_lower content true).
  apply word_starts_delete. intros c H. apply negb_true_iff in H.
  apply orb_false_iff in H. tauto.
Qed.

(** ** analyze_document: what holds of every content *)
Section AnalyzeInvariants.
Import Regex Text JsObject Analyze.

Lemma lower_token_char (c : ascii) :
  negb (Js.is_word (Js.lower_char c) || Js.is_space (Js.lower_char c)) = false ->
  (Js.is_space (Js.lower_char c) || is_token_char (Js.lower_char c))%bool = true.
Proof.
  destruct c as [[] [] [] [] [] [] [] []]; intros H;
    first [reflexivity | discriminate H].
Qed.

Lemma stripped_chars (s : string) :
  all_chars_in (fun c => Js.is_space c || is_token_char c)%bool
    (map_chars (fun c => negb (Js.is_word c || Js.is_space c)) (fun _ => "")
               (Js.toLowerCase s)) = true.
Proof.
  induction s as [|ch s IH]; [reflexivity|]. cbn [Js.toLowerCase map_chars].
  destruct (negb _) eqn:E; cbn [append all_chars_in]; [exact IH|].
  now rewrite (lower_token_char ch E), IH.
Qed.

(** Every word is a non-empty run of the characters [a-z0-9_]. *)
Lemma words_token_chars (content w : string) :
  In w (words content) -> w <> "" /\ all_chars_in is_token_char w = true.
Proof.
  rewrite words_stripped, split_words_pieces. intros H.
  apply filter_In in H as [Hin Ht]. split; [intros ->; discriminate Ht|].
  pose proof (pieces_chars Js.is_space is_token_char _ (stripped_chars content) false) as F.
  rewrite Forall_forall in F. now apply F.
Qed.

Lemma set_own_keys {V} (o : props V) (k : string) (v : V) :
  map fst (set_own o k v)
  = if existsb (String.eqb k) (map fst o) then map fst o else (map fst o ++ [k])%list.
Proof.
  induction o as [|[k' v'] o IH]; [reflexivity|].
  cbn [set_own map fst existsb]. rewrite (String.eqb_sym k k').
  destruct (String.eqb k' k) eqn:E; cbn [orb map fst]; [reflexivity|].
  rewrite IH. destruct (existsb (String.eqb k) (map fst o)); reflexivity.
Qed.

Lemma bump_keys (freq : props fval) (w : string) :
  map fst (bump freq w) = map fst freq
  \/ (~ In w (map fst freq) /\ map fst (bump freq w) = (map fst freq ++ [w])%list).
Proof.
  unfold bump. destruct (object_prototype w); rewrite ?set_own_keys; auto;
    (destruct (existsb (String.eqb w) (map fst freq)) eqn:E; [now left|];
     right; split; [|reflexivity]; intros H; apply existsb_eqb_In in H; congruence).
Qed.

Lemma fold_bump_keys (l : list string) :
  forall acc,
    NoDup (map fst acc) ->
    NoDup (map fst (fold_left bump l acc))
    /\ forall k, In k (map fst (fold_left bump l acc)) -> In k (map fst acc) \/ In k l.
Proof.
  induction l as [|w l IH]; intros acc Hnd; [cbn; auto|].
  cbn [fold_left]. destruct (bump_keys acc w) as [E | [Hn E]].
  - destruct (IH (bump acc w)) as [H1 H2]; [now rewrite E|].
    split; [exact H1|]. intros k Hk. apply H2 in Hk. rewrite E in Hk.
    destruct Hk; [now left | right; now right].
  - destruct (IH (bump acc w)) as [H1 H2].
    { rewrite E. apply NoDup_app; [exact Hnd | repeat constructor; intros [] |].
      intros a Ha [<-|[]]. contradiction. }
    split; [exact H1|]. intros k Hk. apply H2 in Hk. rewrite E in Hk.
    destruct Hk as [Hk|Hk]; [|right; now right].
    apply in_app_or in Hk. destruct Hk as [Hk|[<-|[]]]; [now left | right; now left].
Qed.

(** The keys of the frequency object are distinct counted words. *)
Lemma frequencies_keys (ws : list string) :
  NoDup (map fst (frequencies ws))
  /\ forall k, In k (map fst (frequencies ws)) -> In k (filter counted ws).
Proof.
  unfold frequencies. rewrite fold_left_filter.
  destruct (fold_bump_keys (filter counted ws) [] (NoDup_nil _)) as [H1 H2].
  split; [exact H1|]. intros k Hk. destruct (H2 k Hk) as [[]|H]. exact H.
Qed.

Lemma filter_split_perm {A} (p : A -> bool) (l : list A) :
  Permutation (filter p l ++ filter (fun x => negb (p x)) l) l.
Proof.
  induction l as [|a l IH]; [constructor|]. cbn [filter].
  destruct (p a); cbn [negb app].
  - now constructor.
  - rewrite <- Permutation_middle. now constructor.
Qed.

Lemma entries_perm {V} (o : props V) : Permutation (entries o) o.
Proof.
  unfold entries. rewrite sort_index_perm.
  apply (filter_split_perm (fun e => is_index (fst e))).
Qed.

Lemma sort_perm {A} (cmp : A -> A -> option Z) (l : list A) : Permutation (sort cmp l) l.
Proof.
  induction l as [|x l IH]; [constructor|]. unfold sort in *. cbn [fold_right].
  rewrite insert_stable_perm. now constructor.
Qed.

Lemma NoDup_firstn {A} (n : nat) (l : list A) : NoDup l -> NoDup (firstn n l).
Proof.
  intros H. rewrite <- (firstn_skipn n l) in H. now apply NoDup_app_remove_r in H.
Qed.

Lemma In_firstn {A} (n : nat) (l : list A) (a : A) : In a (firstn n l) -> In a l.
Proof.
  intros H. rewrite <- (firstn_skipn n l). apply in_or_app. now left.
Qed.

Lemma extract_topics_invariants (ws : list string) :
  List.length (extract_topics ws) <= 10
  /\ NoDup (extract_topics ws)
  /\ forall w, In w (extract_topics ws) -> In w ws /\ counted w = true.
Proof.
  unfold extract_topics. destruct (frequencies_keys ws) as [Hnd Hin].
  assert (P : Permutation (map fst (sort by_count (entries (frequencies ws))))
                          (map fst (frequencies ws))).
  { apply Permutation_map. rewrite sort_perm. apply entries_perm. }
  rewrite <- firstn_map. split; [apply firstn_le_length|]. split.
  - apply NoDup_firstn. eapply Permutation_NoDup; [symmetry; exact P | exact Hnd].
  - intros w Hw. apply In_firstn in Hw. apply (Permutation_in _ P) in Hw.
    apply Hin, filter_In in Hw. exact Hw.
Qed.

Lemma class_terminator (c : ascii) :
  class_matches false {| invert := false; items := [One "."; One "!"; One "?"] |} c
  = is_terminator c.
Proof. destruct c as [[] [] [] [] [] [] [] []]; reflexivity. Qed.

Lemma split_sentences (s : string) :
  split false sentence_re s = pieces is_terminator false s.
Proof.
  unfold sentence_re, cls. rewrite split_plus_class.
  apply pieces_ext, class_terminator.
Qed.

Lemma length_trim (s : string) : String.length (Js.trim s) <= String.length s.
Proof.
  unfold Js.trim. pose proof (length_trimEnd (Js.trimStart s)).
  pose proof (length_trimStart s). lia.
Qed.

Lemma filter_none {A} (p : A -> bool) (l : list A) :
  Forall (fun a => p a = false) l -> filter p l = [].
Proof.
  induction 1 as [|a l Ha _ IH]; [reflexivity|]. cbn [filter]. now rewrite Ha.
Qed.

Lemma fragments_short (content : string) :
  String.length content <= 10 -> fragments content = [].
Proof.
  intros H. unfold fragments. rewrite split_sentences. apply filter_none.
  eapply Forall_impl; [|apply pieces_lengths]. intros w Hw. cbv beta in *.
  apply Nat.ltb_ge. pose proof (length_trim w). lia.
Qed.

Lemma fragments_one_sentence (content : string) :
  all_chars_in (fun c => negb (is_terminator c)) content = true ->
  10 < String.length (Js.trim content) ->
  fragments content = [content].
Proof.
  intros H L. unfold fragments. rewrite split_sentences, (pieces_whole _ _ H).
  cbn [filter]. apply Nat.ltb_lt in L. now rewrite L.
Qed.

End AnalyzeInvariants.

(** X4: in the modes [full] and [topics_only] the topics of every content are
    at most ten, pairwise different, and each of them is a word of the
    content that is longer than three characters, is no stop word and
    consists of the characters a-z, 0-9 and the underscore only. *)
Theorem topics_invariants (content : string) (t : Analyze.analyzeType) :
  t = Analyze.full \/ t = Analyze.topics_only ->
  exists obj ts,
    Analyze.analyze_document content t = Analyze.AnalysisData obj
    /\ Analyze.topics obj = Some ts
    /\ List.length ts <= 10
    /\ NoDup ts
    /\ forall w, In w ts ->
         In w (Analyze.words content)
         /\ 3 < String.length w
         /\ Analyze.is_stop_word w = false
         /\ Text.all_chars_in Text.is_token_char w = true.
Proof.
  intros Ht. do 2 eexists. split; [reflexivity|]. cbn [Analyze.topics].
  replace (Analyze.wants_topics t) with true by (destruct Ht; subst; reflexivity).
  split; [reflexivity|].
  destruct (extract_topics_invariants (Analyze.words content)) as (H1 & H2 & H3).
  split; [exact H1|]. split; [exact H2|].
  intros w Hw. destruct (H3 w Hw) as [Hin Hc].
  unfold Analyze.counted in Hc. apply andb_true_iff in Hc as [Hl Hs].
  apply Nat.ltb_lt in Hl. apply negb_true_iff in Hs.
  repeat split; try assumption. now apply (words_token_chars content).
Qed.

Lemma topics_invariants_witness :
  exists obj ts,
    Analyze.analyze_document "The Constructor of the report: report, REPORT!"
                             Analyze.topics_only
    = Analyze.AnalysisData obj
    /\ Analyze.topics obj = Some ts
    /\ List.length ts <= 10
    /\ NoDup ts.
Proof.
  destruct (topics_invariants "The Constructor of the report: report, REPORT!"
              Analyze.topics_only) as (obj & ts & H1 & H2 & H3 & H4 & _).
  - right. reflexivity.
  - exists obj, ts. repeat split; assumption.
Defined.

Section CaseFacts.

Lemma lower_char_idempotent (c : ascii) : Js.lower_char (Js.lower_char c) = Js.lower_char c.
Proof. destruct c as [[] [] [] [] [] [] [] []]; reflexivity. Qed.

Lemma toLowerCase_idempotent (s : string) :
  Js.toLowerCase (Js.toLowerCase s) = Js.toLowerCase s.
Proof.
  induction s as [|c s IH]; [reflexivity|]. cbn [Js.toLowerCase].
  now rewrite lower_char_idempotent, IH.
Qed.

End CaseFacts.

(** X5: the word count and the topics do not depend on the letter case of the
    content: in the mode [topics_only] the content in lower case gives the
    same result. *)
Theorem topics_ignore_letter_case (content : string) :
  Analyze.analyze_document (Js.toLowerCase content) Analyze.topics_only
  = Analyze.analyze_document content Analyze.topics_only.
Proof.
  unfold Analyze.analyze_document. cbn [Analyze.wants_summary Analyze.wants_entities
    Analyze.wants_topics].
  assert (E : Analyze.words (Js.toLowerCase content) = Analyze.words content)
    by (unfold Analyze.words; now rewrite toLowerCase_idempotent).
  now rewrite E.
Qed.

(** X6: a content of at most ten characters has no fragment, and its summary
    (modes [full] and [summary_only]) is the lone full stop. *)
Theorem summary_of_short_content (content : string) (t : Analyze.analyzeType) :
  t = Analyze.full \/ t = Analyze.summary_only ->
  String.length content <= 10 ->
  exists obj,
    Analyze.analyze_document content t = Analyze.AnalysisData obj
    /\ Analyze.summary obj = Some ".".
Proof.
  intros Ht Hl. eexists. split; [reflexivity|]. cbn [Analyze.summary].
  replace (Analyze.wants_summary t) with true by (destruct Ht; subst; reflexivity).
  now rewrite (fragments_short content Hl).
Qed.

Lemma summary_of_short_content_witness :
  exists obj,
    Analyze.analyze_document "Too short." Analyze.summary_only = Analyze.AnalysisData obj
    /\ Analyze.summary obj = Some ".".
Proof.
  apply (summary_of_short_content "Too short." Analyze.summary_only).
  - right. reflexivity.
  - cbn. lia.
Defined.

(** X7: a content without [.], [!] and [?] whose trimmed text is longer than
    ten characters is a single fragment, and the summary repeats it three
    times: it is the first, the middle and the last fragment at once. *)
Theorem summary_of_one_sentence (content : string) (t : Analyze.analyzeType) :
  t = Analyze.full \/ t = Analyze.summary_only ->
  Text.all_chars_in (fun c => negb (Text.is_terminator c)) content = true ->
  10 < String.length (Js.trim content) ->
  exists obj,
    Analyze.analyze_document content t = Analyze.AnalysisData obj
    /\ Analyze.summary obj
       = Some (Js.trim content ++ ". " ++ Js.trim content ++ ". "
                 ++ Js.trim content ++ ".").
Proof.
  intros Ht Hc Hl. eexists. split; [reflexivity|]. cbn [Analyze.summary].
  replace (Analyze.wants_summary t) with true by (destruct Ht; subst; reflexivity).
  rewrite (fragments_one_sentence content Hc Hl). f_equal.
  assert (T : Js.truthy_string content = true)
    by (destruct content; [cbn in Hl; lia | reflexivity]).
  unfold Analyze.summarize. cbn [List.length].
  change (Z.of_nat 1 / 2)%Z with 0%Z. change (Z.of_nat 1 - 1)%Z with 0%Z.
  change (JsObject.at_index [content] 0) with (Some content).
  unfold Analyze.filter_Boolean. cbn [flat_map]. rewrite T.
  cbn [app map Js.join]. now rewrite !append_assoc.
Qed.

Lemma summary_of_one_sentence_witness :
  exists obj,
    Analyze.analyze_document "  a single line of notes  " Analyze.summary_only
    = Analyze.AnalysisData obj
    /\ Analyze.summary obj
       = Some "a single line of notes. a single line of notes. a single line of notes.".
Proof.
  destruct (summary_of_one_sentence "  a single line of notes  " Analyze.summary_only)
    as (obj & H1 & H2).
  - right. reflexivity.
  - reflexivity.
  - cbn. lia.
  - exists obj. split; [exact H1|]. rewrite H2. reflexivity.
Defined.

(** ** Matches are excerpts of the input *)
Section MatchFacts.
Import Regex Text.

Lemma ahead_advance (x y : mstate) : advance x = Some y -> ahead x y.
Proof.
  destruct x as [p [|ch s] i]; cbn [advance rest]; [discriminate|].
  intros H. injection H as <-. apply ahead_next.
Qed.

Lemma matches_from_ahead (ic : bool) (r : regex) (fuel : nat) :
  forall x b e,
    In (b, e) (matches_from fuel ic r x) -> ahead x b /\ ahead b e.
Proof.
  induction fuel as [|fuel IH]; intros x b e H; [destruct H|].
  cbn [matches_from] in H.
  destruct (scan_from ic r x) as [[b0 e0]|] eqn:E; [|destruct H].
  unfold scan_from in E. apply scan_ahead in E.
  assert (X : ahead x {| prev := prev x; rest := rest x; pos := pos x |})
    by (destruct x; apply ahead_refl).
  destruct E as [Hb He].
  assert (Hxb : ahead x b0) by (eapply ahead_trans; eauto).
  assert (Hxe : ahead x e0) by (eapply ahead_trans; eauto).
  destruct H as [H|H]; [injection H as <- <-; now split|].
  destruct (Nat.eqb (pos e0) (pos b0)).
  - destruct (advance e0) as [e'|] eqn:A; [|destruct H].
    apply IH in H. destruct H as [H1 H2]. split; [|exact H2].
    eapply ahead_trans; [exact Hxe|]. eapply ahead_trans; [|exact H1].
    now apply ahead_advance.
  - apply IH in H. destruct H as [H1 H2]. split; [|exact H2].
    eapply ahead_trans; eauto.
Qed.

Lemma matched_text_excerpt (s : string) (b e : mstate) :
  ahead (start_of s) b -> ahead b e -> excerpt (matched_text b e) s.
Proof.
  intros (k & Hk & Hr & Hp) (j & Hj & Hr' & Hp'). cbn [start_of rest pos] in *.
  unfold matched_text. replace (pos e - pos b) with j by lia. rewrite Hr.
  exists (Js.take k s), (Js.drop j (Js.drop k s)).
  now rewrite !take_drop.
Qed.

(** Every string that [s.match(/r/g)] returns occurs in [s]. *)
Lemma match_global_excerpts (ic : bool) (r : regex) (s m : string) :
  In m (match_global ic r s) -> excerpt m s.
Proof.
  unfold match_global, all_matches. intros H. apply in_map_iff in H.
  destruct H as ([b e] & <- & H). apply matches_from_ahead in H.
  apply matched_text_excerpt; tauto.
Qed.

End MatchFacts.

(** X8: in the modes [full] and [entities_only] every entity is an excerpt of
    the content, character for character, and there are at most twenty more
    entities than there are e-mail, phone and URL matches. *)
Theorem entities_are_excerpts (content : string) (t : Analyze.analyzeType) :
  t = Analyze.full \/ t = Analyze.entities_only ->
  exists obj es,
    Analyze.analyze_document content t = Analyze.AnalysisData obj
    /\ Analyze.entities obj = Some es
    /\ (forall e, In e es -> Text.excerpt e content)
    /\ List.length es
       <= 20 + List.length (Regex.match_global false Analyze.email_re content)
          + List.length (Regex.match_global false Analyze.phone_re content)
          + List.length (Regex.match_global false Analyze.url_re content).
Proof.
  intros Ht. do 2 eexists. split; [reflexivity|]. cbn [Analyze.entities].
  replace (Analyze.wants_entities t) with true by (destruct Ht; subst; reflexivity).
  split; [reflexivity|]. unfold Analyze.extract_entities.
  rewrite new_Set_first_occurrences. split.
  - intros e He. apply (proj1 (In_first_occurrences _ _)) in He.
    apply in_app_or in He. destruct He as [He|He];
      [apply In_firstn in He; now apply match_global_excerpts in He|].
    apply in_app_or in He. destruct He as [He|He];
      [now apply match_global_excerpts in He|].
    apply in_app_or in He. destruct He as [He|He];
      now apply match_global_excerpts in He.
  - assert (L : forall l, List.length (JsObject.first_occurrences l) <= List.length l).
    { induction l as [|x l IH]; [reflexivity|]. cbn [JsObject.first_occurrences List.length].
      pose proof (filter_length_le (fun y => negb (String.eqb y x))
                    (JsObject.first_occurrences l)). lia. }
    etransitivity; [apply L|]. rewrite !length_app.
    pose proof (firstn_le_length 20 (Regex.match_global false Analyze.caps_re content)).
    lia.
Qed.

Lemma entities_are_excerpts_witness :
  exists obj es,
    Analyze.analyze_document "Ask Alice at alice@example.org." Analyze.entities_only
    = Analyze.AnalysisData obj
    /\ Analyze.entities obj = Some es
    /\ forall e, In e es -> Text.excerpt e "Ask Alice at alice@example.org.".
Proof.
  destruct (entities_are_excerpts "Ask Alice at alice@example.org." Analyze.entities_only)
    as (obj & es & H1 & H2 & H3 & _).
  - right. reflexivity.
  - exists obj, es. repeat split; assumption.
Defined.

(** ** search_document: which occurrences are reported *)
Section SearchComplete.
Import Regex Search.

(** The scan for a literal pattern stops at the first place where the text
    continues with the query, letter case apart; it fails when there is no
    such place. *)
Lemma scan_literal_first (q : string) (s : string) :
  forall p i,
    match scan true (literal q) p s i with
    | Some (b, e) =>
        exists k, k <= String.length s /\ pos b = i + k
                  /\ ci_prefix q (Js.drop k s) = true
                  /\ forall j, j < k -> ci_prefix q (Js.drop j s) = false
    | None => forall j, ci_prefix q (Js.drop j s) = false
    end.
Proof.
  induction s as [|c s IH]; intros p i; cbn [scan];
    unfold match_here; rewrite compile_literal; cbn [rest].
  - destruct (ci_prefix q "") eqn:E.
    + exists 0. cbn [pos Js.drop String.length]. repeat split; try lia; assumption.
    + intros [|j]; exact E.
  - destruct (ci_prefix q (String c s)) eqn:E.
    + exists 0. cbn [pos Js.drop String.length]. repeat split; try lia; assumption.
    + specialize (IH (Some c) (S i)).
      destruct (scan true (literal q) (Some c) s (S i)) as [[b e]|].
      * destruct IH as (k & Hk & Hp & Hc & Hmin). exists (S k).
        cbn [Js.drop String.length]. repeat split; try lia; try assumption.
        intros [|j] Hj; [exact E | apply Hmin; lia].
      * intros [|j]; [exact E | apply IH].
Qed.

Variable content query : string.
Variable contextLength : Z.

Lemma exec_loop_extends (fuel : nat) :
  forall x acc res,
    exec_loop fuel (literal query) content contextLength x acc = Some res ->
    exists tail, res = (acc ++ tail)%list.
Proof.
  induction fuel as [|fuel IH]; intros x acc res; cbn [exec_loop]; [discriminate|].
  destruct (scan_from true (literal query) x) as [[b e]|].
  - intros H. apply IH in H. destruct H as [tail ->].
    eexists. now rewrite <- app_assoc.
  - intros H. injection H as <-. exists []. now rewrite app_nil_r.
Qed.

Lemma sorted_snoc {A} (R : A -> A -> Prop) (l : list A) (a : A) :
  StronglySorted R l -> Forall (fun x => R x a) l -> StronglySorted R (l ++ [a]).
Proof.
  induction 1 as [|x l Hs IH Hf]; intros H; cbn [app]; [repeat constructor|].
  inversion H as [|? ? Hx Hl]; subst. constructor; [now apply IH|].
  apply Forall_app. split; [exact Hf | now constructor].
Qed.

Lemma exec_loop_apart (fuel : nat) :
  forall x acc res,
    at_index_of content x ->
    StronglySorted (Text.apart (String.length query)) acc ->
    Forall (fun m => (0 <= position m
                      /\ position m + Z.of_nat (String.length query)
                         <= Z.of_nat (pos x))%Z) acc ->
    exec_loop fuel (literal query) content contextLength x acc = Some res ->
    StronglySorted (Text.apart (String.length query)) res
    /\ Forall (fun m => (0 <= position m
                         /\ position m + Z.of_nat (String.length query)
                            <= Z.of_nat (String.length content))%Z) res.
Proof.
  induction fuel as [|fuel IH]; intros x acc res Hx Hs Hf; cbn [exec_loop];
    [discriminate|].
  destruct (scan_from true (literal query) x) as [[b e]|] eqn:E.
  - destruct (exec_step content query x b e Hx E) as (H1 & H2 & _ & _ & H5 & H6).
    apply IH; [exact H6 | |].
    + apply sorted_snoc; [exact Hs|]. eapply Forall_impl; [|exact Hf].
      intros m [_ Hm]. unfold Text.apart. cbn [position]. lia.
    + apply Forall_app. split.
      * eapply Forall_impl; [|exact Hf]. intros m [H0 Hm]. split; [exact H0 | lia].
      * constructor; [cbn [position]; lia | constructor].
  - intros H. injection H as <-. split; [exact Hs|].
    destruct Hx as [_ Hx]. eapply Forall_impl; [|exact Hf].
    intros m [H0 Hm]. split; [exact H0 | lia].
Qed.

Lemma apart_count (l : list search_match) :
  StronglySorted (Text.apart (String.length query)) l ->
  forall lo : Z,
    Forall (fun m => (lo <= position m
                      /\ position m + Z.of_nat (String.length query)
                         <= Z.of_nat (String.length content))%Z) l ->
    l = [] \/ (Z.of_nat (List.length l) * Z.of_nat (String.length query)
               <= Z.of_nat (String.length content) - lo)%Z.
Proof.
  induction 1 as [|m l Hs IH Hf]; intros lo H; [now left|]. right.
  inversion H as [|? ? [Hlo Hm] Hl]; subst. unfold Text.apart in Hf.
  destruct (IH (position m + Z.of_nat (String.length query))%Z) as [-> | IH'].
  - rewrite Forall_forall in *. intros a Ha. split; [apply (Hf a Ha) | apply (Hl a Ha)].
  - cbn [List.length]. lia.
  - cbn [List.length]. lia.
Qed.

End SearchComplete.

(** X9: search_document looks for the query as a literal text, whatever
    characters it holds: the escaped query always compiles to the pattern
    that matches the query character by character, so the outcome is that of
    the loop over this pattern and the tool never answers with the error of a
    malformed pattern. *)
Theorem search_query_is_literal (fuel : nat) (content query : string) (contextLength : Z) :
  Search.search_document fuel content query contextLength
  = option_map (fun ms => Search.SearchOk query ms (List.length ms))
      (Search.exec_loop fuel (Regex.literal query) content contextLength
         (Regex.start_of content) [])
  /\ forall e, Search.search_document fuel content query contextLength
               <> Some (Search.SearchError e).
Proof.
  unfold Search.search_document. rewrite new_RegExp_escaped.
  destruct (Search.exec_loop fuel (Regex.literal query) content contextLength
              (Regex.start_of content) []) as [ms|]; split;
    try reflexivity; intros e; discriminate.
Qed.

(** X10: for a query that is not empty, the tool reports no match exactly when
    the query occurs nowhere in the content (letter case apart), and
    otherwise its first match is the first occurrence. *)
Theorem search_finds_first_occurrence (fuel : nat) (content query : string)
        (contextLength : Z) :
  query <> "" ->
  String.length content < fuel ->
  exists ms,
    Search.search_document fuel content query contextLength
    = Some (Search.SearchOk query ms (List.length ms))
    /\ (ms = [] <-> forall j, Regex.ci_prefix query (Js.drop j content) = false)
    /\ forall m tail, ms = m :: tail ->
         exists p : nat,
           Search.position m = Z.of_nat p
           /\ Regex.ci_prefix query (Js.drop p content) = true
           /\ forall j, j < p -> Regex.ci_prefix query (Js.drop j content) = false.
Proof.
  intros Hq Hf.
  destruct (exec_loop_ends content query contextLength fuel Hq
              (Regex.start_of content) [] (start_at_index content)) as [res Hres];
    [cbn; lia|].
  exists res. unfold Search.search_document. rewrite new_RegExp_escaped, Hres.
  split; [reflexivity|].
  destruct fuel as [|fuel]; [lia|]. cbn [Search.exec_loop] in Hres.
  unfold Regex.scan_from, Regex.start_of in Hres. cbn [Regex.prev Regex.rest Regex.pos] in Hres.
  pose proof (scan_literal_first query content None 0) as S.
  destruct (Regex.scan true (Regex.literal query) None content 0) as [[b e]|].
  - destruct S as (k & Hk & Hp & Hc & Hmin).
    apply exec_loop_extends in Hres. destruct Hres as [tail ->]. cbn [app].
    split.
    + split; [discriminate|]. intros H. rewrite H in Hc. discriminate.
    + intros m tl H. injection H as <- _. exists k. cbn [Search.position].
      repeat split; [f_equal; lia | exact Hc | exact Hmin].
  - injection Hres as <-. split; [tauto|]. intros m tl H. discriminate.
Qed.

Lemma search_finds_first_occurrence_witness :
  exists ms,
    Search.search_document 30 "a Cat, a cat, a CAT" "cat" 20
    = Some (Search.SearchOk "cat" ms (List.length ms))
    /\ forall m tail, ms = m :: tail ->
         exists p : nat,
           Search.position m = Z.of_nat p
           /\ Regex.ci_prefix "cat" (Js.drop p "a Cat, a cat, a CAT") = true.
Proof.
  destruct (search_finds_first_occurrence 30 "a Cat, a cat, a CAT" "cat" 20)
    as (ms & H1 & _ & H3).
  - discriminate.
  - cbn. lia.
  - exists ms. split; [exact H1|]. intros m tail E.
    destruct (H3 m tail E) as (p & Hp & Hc & _). exists p. now split.
Defined.

(** X11: the matches that search_document reports do not overlap: the
    positions are in ascending order, each at least the length of the query
    after the one before, so an occurrence that overlaps a reported match is
    passed over and the number of matches times the length of the query does
    not exceed the length of the content. *)
Theorem search_matches_do_not_overlap (fuel : nat) (content query : string)
        (contextLength : Z) (q : string) (ms : list Search.search_match) (total : nat) :
  Search.search_document fuel content query contextLength
  = Some (Search.SearchOk q ms total) ->
  StronglySorted
    (fun a b => (Search.position a + Z.of_nat (String.length query)
                 <= Search.position b)%Z) ms
  /\ total * String.length query <= String.length content.
Proof.
  unfold Search.search_document. rewrite new_RegExp_escaped.
  destruct (Search.exec_loop fuel (Regex.literal query) content contextLength
              (Regex.start_of content) []) as [res|] eqn:E; [|discriminate].
  intros H. injection H as _ <- <-.
  destruct (exec_loop_apart content query contextLength fuel _ _ _
              (start_at_index content) (SSorted_nil _) (Forall_nil _) E) as [Hs Hf].
  split; [exact Hs|].
  destruct (apart_count content query res Hs 0%Z) as [-> | H]; [exact Hf | cbn; lia | lia].
Qed.

Lemma search_matches_do_not_overlap_witness :
  StronglySorted
    (fun a b => (Search.position a + Z.of_nat (String.length "aa")
                 <= Search.position b)%Z)
    [{| Search.text := "aaaaa"; Search.position := 0 |};
     {| Search.text := "aaaaa"; Search.position := 2 |}]
  /\ 2 * String.length "aa" <= String.length "aaaaa".
Proof.
  apply (search_matches_do_not_overlap 10 "aaaaa" "aa" 20 "aa").
  reflexivity.
Defined.

Section WindowFacts.
Import Search.




End WindowFacts.



(** ** Lines: [raw.split(/\r?\n/)] *)
Section LineFacts.
Import Regex Text.

(** An optional class: the character is taken when it is in the class and the
    rest matches after it. *)
Lemma compile_opt_class (ic : bool) (cs : charset) (c : cont) (x : mstate) :
  compile ic (opt (Chr cs)) x c
  = match rest x with
    | EmptyString => c x
    | String ch s' =>
        if class_matches ic cs ch then
          match c {| prev := Some ch; rest := s'; pos := S (pos x) |} with
          | Some z => Some z
          | None => c x
          end
        else c x
    end.
Proof.
  destruct x as [pr s i]. unfold opt. cbn [compile rest pos].
  destruct s as [|ch s].
  - reflexivity.
  - replace (0 + String.length (String ch s) + 1) with (S (S (String.length s)))
      by (cbn; lia).
    remember (S (String.length s)) as fuel eqn:Hfuel.
    cbn [repeat_matcher]. change (Nat.eqb 0 0) with true. cbn [negb andb compile rest pos].
    destruct (class_matches ic cs ch); [|reflexivity].
    replace (Nat.eqb (S i) i) with false by (symmetry; apply Nat.eqb_neq; lia).
    subst fuel. reflexivity.
Qed.

Lemma class_one (a c : ascii) :
  class_matches false {| invert := false; items := [One a] |} c = Ascii.eqb a c.
Proof. unfold class_matches, in_items. cbn. now rewrite orb_false_r. Qed.

(** Where a line break is found: at a line feed, or at a carriage return
    that a line feed follows. *)
Lemma match_newline (pr : option ascii) (ch : ascii) (s : string) (i : nat) :
  match_here false ExtractText.newline_re {| prev := pr; rest := String ch s; pos := i |}
  = if Ascii.eqb ch "010" then Some {| prev := Some ch; rest := s; pos := S i |}
    else if Ascii.eqb ch "013" then
      match s with
      | String d s' =>
          if Ascii.eqb d "010" then Some {| prev := Some d; rest := s'; pos := S (S i) |}
          else None
      | EmptyString => None
      end
    else None.
Proof.
  unfold match_here, ExtractText.newline_re. cbn [Agent.seqs compile].
  unfold lit. rewrite compile_opt_class. cbn [rest pos compile].
  rewrite !class_one, (Ascii.eqb_sym "013" ch), (Ascii.eqb_sym "010" ch).
  destruct (Ascii.eqb ch "013") eqn:R.
  - apply Ascii.eqb_eq in R. subst ch. cbn [Ascii.eqb Bool.eqb andb].
    destruct s as [|d s']; [reflexivity|]. rewrite class_one, (Ascii.eqb_sym "010" d).
    destruct (Ascii.eqb d "010"); reflexivity.
  - destruct (Ascii.eqb ch "010"); reflexivity.
Qed.

Lemma split_loop_lines (fuel : nat) :
  forall piece p pr s i,
    String.length s < fuel -> p <= i ->
    List.length (split_loop false ExtractText.newline_re fuel piece p
                   {| prev := pr; rest := s; pos := i |})
    = S (count_char "010" s).
Proof.
  induction fuel as [|fuel IH]; intros piece p pr s i Hf Hp; [lia|].
  cbn [split_loop rest pos]. destruct s as [|ch s]; [reflexivity|].
  rewrite match_newline. cbn [count_char String.length] in *.
  destruct (Ascii.eqb ch "010") eqn:L.
  - cbn [pos rest]. replace (Nat.eqb (S i) p) with false
      by (symmetry; apply Nat.eqb_neq; lia).
    cbn [List.length]. rewrite IH; [reflexivity | lia | lia].
  - destruct (Ascii.eqb ch "013") eqn:R; [|rewrite IH; [reflexivity | lia | lia]].
    destruct s as [|d s']; [rewrite IH; [reflexivity | cbn; lia | lia]|].
    destruct (Ascii.eqb d "010") eqn:L'.
    + cbn [pos rest]. replace (Nat.eqb (S (S i)) p) with false
        by (symmetry; apply Nat.eqb_neq; lia).
      cbn [List.length count_char]. rewrite L'.
      rewrite IH; [reflexivity | cbn [String.length] in Hf; lia | lia].
    + rewrite IH; [reflexivity | lia | lia].
Qed.

(** The number of lines is one more than the number of line feeds. *)
Lemma split_lines_count (raw : string) :
  List.length (split false ExtractText.newline_re raw) = S (count_char "010" raw).
Proof.
  destruct raw as [|ch s]; [reflexivity|].
  unfold split, start_of. apply split_loop_lines; lia.
Qed.

End LineFacts.

Section CsvFacts.
Import Regex Text.

Lemma word_starts_word (p : ascii -> bool) (d t : string) :
  all_chars_in (fun c => negb (p c)) d = true ->
  forall b,
    word_starts p b (d ++ t)
    = (if (b && Js.truthy_string d)%bool then 1 else 0)
      + word_starts p (if Js.truthy_string d then false else b) t.
Proof.
  induction d as [|ch d IH]; intros H b; cbn [append Js.truthy_string].
  - rewrite andb_false_r. reflexivity.
  - cbn [all_chars_in] in H. apply andb_true_iff in H as [Hc H].
    apply negb_true_iff in Hc. cbn [word_starts]. rewrite Hc, (IH H false).
    rewrite andb_true_r. cbn [andb]. destruct (Js.truthy_string d), b; lia.
Qed.

Lemma uint_chars (d : Decimal.uint) :
  all_chars_in (fun c => negb (Js.is_space c)) (NilEmpty.string_of_uint d) = true.
Proof. induction d; cbn [NilEmpty.string_of_uint all_chars_in]; try rewrite IHd; reflexivity. Qed.

Lemma decimal_word (n : N) :
  all_chars_in (fun c => negb (Js.is_space c)) (Js.decimal n) = true
  /\ Js.truthy_string (Js.decimal n) = true.
Proof.
  unfold Js.decimal, NilZero.string_of_uint.
  destruct (N.to_uint n) eqn:E; try (split; [apply (uint_chars (_ u)) | reflexivity]).
  split; reflexivity.
Qed.

Lemma csv_word_count (n : N) (raw : string) :
  ExtractText.count_words
    ("CSV rows: " ++ Js.decimal n ++ String "010" (String "010" raw))
  = 3 + ExtractText.count_words raw.
Proof.
  rewrite !count_words_starts. destruct (decimal_word n) as [Hc Ht].
  change ("CSV rows: " ++ Js.decimal n ++ String "010" (String "010" raw))
    with (String "C" (String "S" (String "V" (String " " (String "r" (String "o"
           (String "w" (String "s" (String ":" (String " "
             (Js.decimal n ++ String "010" (String "010" raw)))))))))))).
  cbn [word_starts]. change (Js.is_space "C") with false. change (Js.is_space "S") with false.
  change (Js.is_space "V") with false. change (Js.is_space " ") with true.
  change (Js.is_space "r") with false. change (Js.is_space "o") with false.
  change (Js.is_space "w") with false. change (Js.is_space "s") with false.
  change (Js.is_space ":") with false. cbv iota.
  rewrite (word_starts_word Js.is_space _ _ Hc true), Ht. cbn [andb word_starts].
  change (Js.is_space "010") with true. cbv iota. lia.
Qed.

End CsvFacts.

(** X13: for a path whose extension is .csv (in any letter case), the extracted
    text is the header [CSV rows: n], an empty line and the file as it is,
    where n is one more than the number of line feeds in the file: an empty
    file has one row, and a line feed at the end adds a row.  The word count
    is that of the file plus the three words of the header. *)
Theorem extract_csv_rows (lib : ExtractText.Library) (w : Io.World) (path raw : string) :
  Js.toLowerCase (Path.extname path) = ".csv" ->
  Io.files w path = Io.FsOk raw ->
  fst (ExtractText.extract_text_content lib path w)
  = ExtractText.ExtractOk
      {| ExtractText.filePath := path;
         ExtractText.extractedText :=
           "CSV rows: " ++ Js.decimal (N.of_nat (S (Text.count_char "010" raw)))
             ++ String "010" (String "010" raw);
         ExtractText.wordCount := 3 + ExtractText.count_words raw;
         ExtractText.isPdf := false |}.
Proof.
  intros Hext Hfile. unfold ExtractText.extract_text_content.
  rewrite extname_not_protected by (intros E; rewrite E in Hext; discriminate).
  rewrite Hext. cbn [String.eqb Ascii.eqb Bool.eqb andb orb].
  unfold Io.bind, Io.readFileSync_utf8. rewrite Hfile. cbn [fst Io.ret].
  rewrite split_lines_count, csv_word_count. reflexivity.
Qed.

Lemma extract_csv_rows_witness :
  fst (ExtractText.extract_text_content Samples.library "data/Table.CSV"
         {| Io.files := fun _ => Io.FsOk ("a,b" ++ String "013" (String "010" "1,2")
                                            ++ String "010" "");
            Io.buffers := Io.buffers Samples.world;
            Io.dirs := Io.dirs Samples.world;
            Io.write_error := fun _ => None; Io.now := 0; Io.log := [] |})
  = ExtractText.ExtractOk
      {| ExtractText.filePath := "data/Table.CSV";
         ExtractText.extractedText :=
           "CSV rows: 3" ++ String "010" (String "010"
              ("a,b" ++ String "013" (String "010" "1,2") ++ String "010" ""));
         ExtractText.wordCount := 5;
         ExtractText.isPdf := false |}.
Proof.
  apply (extract_csv_rows Samples.library _ "data/Table.CSV"
           ("a,b" ++ String "013" (String "010" "1,2") ++ String "010" "")).
  - vm_compute. reflexivity.
  - reflexivity.
Defined.

(** ** Global replacement of the runs of a class *)
Section SqueezeFacts.
Import Regex Text.

Variable ic : bool.
Variable cs : charset.
Variable by_ : string.

Lemma drop_append_length (pre t : string) (m : nat) :
  Js.drop (String.length pre + m) (pre ++ t) = Js.drop m t.
Proof. induction pre as [|a pre IH]; [reflexivity | exact IH]. Qed.

Lemma drop_skip_run (p : ascii -> bool) (s : string) :
  Js.drop (String.length s - String.length (skip_run p s)) s = skip_run p s.
Proof.
  induction s as [|ch s IH]; [reflexivity|]. cbn [skip_run].
  destruct (p ch).
  - pose proof (length_skip_run p s). cbn [String.length].
    replace (S (String.length s) - String.length (skip_run p s))
      with (S (String.length s - String.length (skip_run p s))) by lia.
    exact IH.
  - now rewrite Nat.sub_diag.
Qed.

Lemma squeeze_skipping (p : ascii -> bool) (s : string) :
  squeeze p by_ true s = squeeze p by_ false (skip_run p s).
Proof.
  induction s as [|ch s IH]; [reflexivity|]. cbn [squeeze skip_run].
  destruct (p ch) eqn:E; [exact IH|]. cbn [squeeze]. now rewrite E.
Qed.

Lemma splice_runs (n : nat) :
  forall s pre j i pr fuel,
    String.length s <= n ->
    i = j + String.length pre ->
    String.length s < fuel ->
    splice (pre ++ s) j
           (matches_from fuel ic (plus (Chr cs)) {| prev := pr; rest := s; pos := i |})
           (fun _ => by_)
    = pre ++ squeeze (class_matches ic cs) by_ false s.
Proof.
  induction n as [|n IH]; intros s pre j i pr fuel Hn Hi Hf;
    (destruct fuel as [|fuel]; [lia|]).
  - destruct s; [|cbn in Hn; lia]. cbn [matches_from scan_from prev rest pos scan].
    rewrite match_plus_class. reflexivity.
  - destruct s as [|ch s].
    + cbn [matches_from scan_from prev rest pos scan].
      rewrite match_plus_class. reflexivity.
    + cbn [matches_from scan_from prev rest pos scan].
      rewrite match_plus_class. cbn [rest pos squeeze].
      cbn [String.length] in Hn, Hf.
      destruct (class_matches ic cs ch) eqn:E.
      * set (P := class_matches ic cs) in *.
        pose proof (past_run_pos P s (Some ch) (S i)) as Hpos.
        pose proof (past_run_rest P s (Some ch) (S i)) as Hrest.
        pose proof (length_skip_run P s) as Hlen.
        destruct (past_run P (Some ch) s (S i)) as [pe re ie].
        cbn [rest pos] in *. subst re.
        replace (Nat.eqb ie i) with false by (symmetry; apply Nat.eqb_neq; lia).
        cbn [splice pos]. replace (i - j) with (String.length pre) by lia.
        rewrite take_append.
        replace (ie - j)
          with (String.length pre
                + S (String.length s - String.length (skip_run P s))) by lia.
        rewrite drop_append_length. cbn [Js.drop]. rewrite drop_skip_run.
        pose proof (IH (skip_run P s) "" ie ie pe fuel) as H. cbn [append] in H.
        rewrite H; [| lia | cbn; lia | lia].
        now rewrite squeeze_skipping.
      * pose proof (IH s (pre ++ String ch "") j (S i) (Some ch) (S fuel)) as H.
        rewrite !append_assoc in H. cbn [append] in H.
        rewrite <- H; [| lia | rewrite length_append; cbn; lia | lia].
        cbn [matches_from scan_from prev rest pos]. reflexivity.
Qed.

(** [s.replace(/c+/g, by)] replaces each maximal run by [by]. *)
Lemma replace_runs (s : string) :
  replace_global ic (plus (Chr cs)) (fun _ => by_) s
  = squeeze (class_matches ic cs) by_ false s.
Proof.
  unfold replace_global, all_matches, start_of.
  apply (splice_runs (String.length s) s "" 0 0 None); [lia | reflexivity | lia].
Qed.

End SqueezeFacts.

Section Normalized.
Import Regex Text.

Lemma squeeze_ext (p q : ascii -> bool) (by_ : string) :
  (forall c, p c = q c) -> forall s b, squeeze p by_ b s = squeeze q by_ b s.
Proof.
  intros H s. induction s as [|ch s IH]; intros b; [reflexivity|].
  cbn [squeeze]. now rewrite H, !IH.
Qed.

(** Collapsing the runs of white space to one blank each. *)
Lemma replace_spaces (s : string) :
  replace_global false Agent.spaces_re (fun _ => " ") s
  = squeeze Js.is_space " " false s.
Proof.
  unfold Agent.spaces_re, cls. rewrite replace_runs. apply squeeze_ext, class_space.
Qed.

Lemma squeeze_single_spaced (s : string) :
  (forall b, single_spaced (squeeze Js.is_space " " b s) = true)
  /\ starts_with Js.is_space (squeeze Js.is_space " " true s) = false.
Proof.
  induction s as [|ch s [IHa IHb]]; [split; [intros b|]; reflexivity|].
  cbn [squeeze]. destruct (Js.is_space ch) eqn:E.
  - split; [|exact IHb]. intros [|]; [apply IHa|].
    cbn [append single_spaced]. change (Js.is_space " ") with true.
    cbv iota. rewrite IHb, IHa. reflexivity.
  - split; [|cbn [starts_with]; exact E].
    intros b. cbn [single_spaced]. rewrite E. apply IHa.
Qed.

Lemma single_spaced_trimStart (s : string) :
  single_spaced s = true ->
  single_spaced (Js.trimStart s) = true
  /\ starts_with Js.is_space (Js.trimStart s) = false.
Proof.
  induction s as [|ch s IH]; [split; reflexivity|].
  cbn [single_spaced Js.trimStart]. intros H. apply andb_true_iff in H as [Hc H].
  destruct (Js.is_space ch) eqn:E; [now apply IH|].
  split; [|exact E]. cbn [single_spaced]. now rewrite E, H.
Qed.

Lemma trimEnd_head (s : string) (d : ascii) (t : string) :
  Js.trimEnd s = String d t -> exists s', s = String d s'.
Proof.
  destruct s as [|c s]; [discriminate|]. cbn [Js.trimEnd].
  destruct (Js.trimEnd s); [destruct (Js.is_space c)|];
    intros H; try discriminate; injection H as <- _; eauto.
Qed.

Lemma starts_with_trimEnd (s : string) :
  starts_with Js.is_space s = false -> starts_with Js.is_space (Js.trimEnd s) = false.
Proof.
  intros H. destruct (Js.trimEnd s) as [|d t] eqn:E; [reflexivity|].
  apply trimEnd_head in E. destruct E as [s' ->]. exact H.
Qed.

Lemma single_spaced_trimEnd (s : string) :
  single_spaced s = true ->
  single_spaced (Js.trimEnd s) = true
  /\ Js.is_space_opt (Js.last_char (Js.trimEnd s)) = false.
Proof.
  induction s as [|ch s IH]; [split; reflexivity|].
  cbn [single_spaced Js.trimEnd]. intros H. apply andb_true_iff in H as [Hc H].
  destruct (IH H) as [IH1 IH2].
  destruct (Js.trimEnd s) as [|d t] eqn:T.
  - destruct (Js.is_space ch) eqn:E; [split; reflexivity|].
    split; [cbn [single_spaced]; now rewrite E | cbn; exact E].
  - split.
    + cbn [single_spaced] in *. rewrite IH1, andb_true_r.
      destruct (Js.is_space ch); [|reflexivity].
      apply andb_true_iff in Hc as [Hb Hn]. rewrite Hb. cbn [andb].
      apply trimEnd_head in T. destruct T as [s' ->]. exact Hn.
    + exact IH2.
Qed.

(** What [trim] makes of a text in which the white space is single blanks. *)
Lemma trim_single_spaced (s : string) :
  single_spaced s = true ->
  single_spaced (Js.trim s) = true
  /\ Js.is_space_opt (Js.first_char (Js.trim s)) = false
  /\ Js.is_space_opt (Js.last_char (Js.trim s)) = false.
Proof.
  intros H. unfold Js.trim.
  destruct (single_spaced_trimStart s H) as [H1 H2].
  destruct (single_spaced_trimEnd _ H1) as [H3 H4].
  split; [exact H3|]. split; [|exact H4].
  apply starts_with_trimEnd in H2.
  destruct (Js.trimEnd (Js.trimStart s)); [reflexivity | exact H2].
Qed.

Lemma html_to_text_normalized (raw : string) :
  single_spaced (ExtractText.html_to_text raw) = true
  /\ Js.is_space_opt (Js.first_char (ExtractText.html_to_text raw)) = false
  /\ Js.is_space_opt (Js.last_char (ExtractText.html_to_text raw)) = false.
Proof.
  unfold ExtractText.html_to_text. rewrite replace_spaces.
  apply trim_single_spaced, squeeze_single_spaced.
Qed.

End Normalized.

(** X14: the text extracted from a file whose extension is .html or .htm (in
    any letter case) is normalized: it neither starts nor ends with white
    space, and each of its white-space characters is a single blank between
    two other characters. *)
Theorem extract_html_normalized (lib : ExtractText.Library) (w : Io.World) (path raw : string) :
  Js.toLowerCase (Path.extname path) = ".html"
  \/ Js.toLowerCase (Path.extname path) = ".htm" ->
  Io.files w path = Io.FsOk raw ->
  exists text,
    fst (ExtractText.extract_text_content lib path w)
    = ExtractText.ExtractOk
        {| ExtractText.filePath := path; ExtractText.extractedText := text;
           ExtractText.wordCount := ExtractText.count_words text;
           ExtractText.isPdf := false |}
    /\ Text.single_spaced text = true
    /\ Js.is_space_opt (Js.first_char text) = false
    /\ Js.is_space_opt (Js.last_char text) = false.
Proof.
  intros Hext Hfile. exists (ExtractText.html_to_text raw).
  split; [|apply html_to_text_normalized].
  unfold ExtractText.extract_text_content.
  rewrite extname_not_protected
    by (intros E; rewrite E in Hext; destruct Hext; discriminate).
  destruct Hext as [-> | ->]; cbn [String.eqb Ascii.eqb Bool.eqb andb orb];
    unfold Io.bind, Io.readFileSync_utf8; rewrite Hfile; reflexivity.
Qed.

Lemma extract_html_normalized_witness :
  exists text,
    fst (ExtractText.extract_text_content Samples.library "page.htm"
           {| Io.files := fun _ => Io.FsOk ("<h1>Title</h1>" ++ String "010"
                                              ("  <p>Some" ++ String "009" "text</p> "));
              Io.buffers := Io.buffers Samples.world;
              Io.dirs := Io.dirs Samples.world;
              Io.write_error := fun _ => None; Io.now := 0; Io.log := [] |})
    = ExtractText.ExtractOk
        {| ExtractText.filePath := "page.htm"; ExtractText.extractedText := text;
           ExtractText.wordCount := ExtractText.count_words text;
           ExtractText.isPdf := false |}
    /\ Text.single_spaced text = true
    /\ Js.is_space_opt (Js.first_char text) = false
    /\ Js.is_space_opt (Js.last_char text) = false.
Proof.
  apply (extract_html_normalized Samples.library _ "page.htm"
           ("<h1>Title</h1>" ++ String "010" ("  <p>Some" ++ String "009" "text</p> "))).
  - right. vm_compute. reflexivity.
  - reflexivity.
Defined.

(** ** The route handler: what is sent to the agent and what is answered *)
Section RouteMore.
Import Json Route.

Variable rt : Numerals.
Variable generateText : Model.

Lemma POST_truthy (body : value) :
  body <> Null ->
  truthy (get body "prompt") = true ->
  POST rt generateText {| json := Resolved body |}
  = try_agent rt generateText (get body "prompt") (get body "filePath")
              (get body "content").
Proof.
  intros Hnn Ht. unfold POST. cbn [json].
  rewrite (destructure_not_null body Hnn), Ht. reflexivity.
Qed.


(** The compact text of an object with one string member reads back. *)
Lemma parse_compact_member (k s : string) :
  parse rt (stringify rt (Obj [(k, Str s)])) = Some (Obj [(k, Str s)]).
Proof.
  assert (E : stringify rt (Obj [(k, Str s)])
              = "{" ++ quote k ++ ":" ++ quote s ++ "}").
  { unfold stringify. cbn [serialize map fst snd].
    assert (En : forall x : string, JsObject.entries [(k, x)] = [(k, x)]).
    { intros x. unfold JsObject.entries. cbn [filter fst].
      destruct (JsObject.is_index k); reflexivity. }
    rewrite En. cbn [map fst snd layout String.eqb Js.join append].
    now rewrite append_assoc. }
  rewrite E. unfold parse.
  set (text := "{" ++ quote k ++ ":" ++ quote s ++ "}").
  assert (L : 6 <= String.length text).
  { unfold text. rewrite !length_append. pose proof (length_quote k).
    pose proof (length_quote s). cbn [String.length]. lia. }
  destruct (2 * String.length text + 2) as [|[|[|f]]] eqn:F; try lia.
  unfold text.
  rewrite (parse_value_object rt _ _ (quote k ++ ":" ++ quote s ++ "}")
             ((quote_body k ++ String "034" "") ++ ":" ++ quote s ++ "}") "034");
    [| reflexivity | reflexivity | reflexivity].
  rewrite (parse_members_last rt _ [] _
             ((quote_body k ++ String "034" "") ++ ":" ++ quote s ++ "}")
             (":" ++ quote s ++ "}") (quote s ++ "}") "}" "" k (Str s)).
  - reflexivity.
  - reflexivity.
  - rewrite append_assoc. apply parse_quote_body.
  - reflexivity.
  - apply (parse_value_string rt f "" s "}"). reflexivity.
  - reflexivity.
Qed.

End RouteMore.



(** X16: once the body is parsed and holds a truthy prompt, the handler always
    resolves and calls the agent at most once.  It answers 200 with the
    agent's text exactly when the agent resolved, logging nothing; otherwise
    it answers with the generic 500 body and logs one error: the agent's
    reason, or the error met while building the prompt, in which case the
    agent was not called. *)
Theorem POST_truthy_prompt_outcomes (rt : Json.Numerals) (generateText : Route.Model)
        (body : Json.value) :
  body <> Json.Null ->
  Json.truthy (Json.get body "prompt") = true ->
  exists resp eff,
    Route.POST rt generateText {| Route.json := Route.Resolved body |}
    = (Route.Resolved resp, eff)
    /\ ((exists full text,
           generateText full = Route.Resolved text
           /\ resp = Route.json_response rt 200 (Json.Obj [("response", Json.Str text)])
           /\ eff = {| Route.agent_calls := [full]; Route.logged := [] |})
        \/ (exists full reason,
              generateText full = Route.Rejected reason
              /\ resp = Route.error_500 rt
              /\ eff = {| Route.agent_calls := [full]; Route.logged := [reason] |})
        \/ (exists m,
              Route.fullPrompt rt (Json.get body "prompt") (Json.get body "filePath")
                               (Json.get body "content") = Json.Throw m
              /\ resp = Route.error_500 rt
              /\ eff = {| Route.agent_calls := []; Route.logged := [m] |})).
Proof.
  intros Hnn Ht. rewrite (POST_truthy rt generateText body Hnn Ht).
  unfold Route.try_agent.
  destruct (Route.fullPrompt rt _ _ _) as [full|m].
  - unfold Route.documentAgent. destruct (generateText full) as [text|reason] eqn:G.
    + do 2 eexists. split; [reflexivity|]. left. eauto.
    + do 2 eexists. split; [reflexivity|]. right. left. eauto.
  - do 2 eexists. split; [reflexivity|]. right. right. eauto.
Qed.

Lemma POST_truthy_prompt_outcomes_witness :
  exists resp eff,
    Route.POST Samples.numerals (fun _ => Route.Rejected "quota exceeded")
      {| Route.json := Route.Resolved (Json.Obj [("prompt", Json.Str "Hello")]) |}
    = (Route.Resolved resp, eff)
    /\ Route.status resp = 500%Z
    /\ Route.logged eff = ["quota exceeded"].
Proof.
  destruct (POST_truthy_prompt_outcomes Samples.numerals
              (fun _ => Route.Rejected "quota exceeded")
              (Json.Obj [("prompt", Json.Str "Hello")]))
    as (resp & eff & H & [(full & text & G & _) | [(full & reason & G & -> & ->)
                                                    | (m & F & _)]]).
  - discriminate.
  - reflexivity.
  - discriminate G.
  - exists (Route.error_500 Samples.numerals),
           {| Route.agent_calls := [full]; Route.logged := [reason] |}.
    injection G as <-. repeat split. exact H.
  - discriminate F.
Defined.

(** X17: every response of the handler is JSON: the body of a 200 response
    reads back as an object whose only member, [response], is the agent's
    text, character for character, whatever it contains; the bodies of the
    400 and 500 responses read back as the objects with the fixed [error]
    messages. *)
Theorem POST_body_reads_back (rt : Json.Numerals) (generateText : Route.Model)
        (request : Route.Request) (resp : Route.Response) (eff : Route.effects) :
  Route.POST rt generateText request = (Route.Resolved resp, eff) ->
  Route.content_type resp = "application/json"
  /\ ((Route.status resp = 200%Z
       /\ exists full text,
            Route.agent_calls eff = [full]
            /\ generateText full = Route.Resolved text
            /\ Json.parse rt (Route.body resp)
               = Some (Json.Obj [("response", Json.Str text)]))
      \/ (Route.status resp = 400%Z
          /\ Json.parse rt (Route.body resp)
             = Some (Json.Obj [("error", Json.Str "Prompt is required")]))
      \/ (Route.status resp = 500%Z
          /\ Json.parse rt (Route.body resp)
             = Some (Json.Obj [("error",
                                Json.Str "An error occurred processing the document")]))).
Proof.
  unfold Route.POST. destruct (Route.json request) as [body|e]; [|discriminate].
  destruct (Route.destructure body) as [[[prompt filePath] content]|m]; [|discriminate].
  destruct (negb (Json.truthy prompt)).
  - intros H. injection H as <- <-. split; [reflexivity|]. right. left.
    split; [reflexivity|]. apply parse_compact_member.
  - unfold Route.try_agent. destruct (Route.fullPrompt rt _ _ _) as [full|m].
    + unfold Route.documentAgent. destruct (generateText full) as [text|reason] eqn:G;
        intros H; injection H as <- <-; (split; [reflexivity|]).
      * left. split; [reflexivity|]. exists full, text.
        repeat split; [exact G | apply parse_compact_member].
      * right. right. split; [reflexivity|]. apply parse_compact_member.
    + intros H. injection H as <- <-. split; [reflexivity|]. right. right.
      split; [reflexivity|]. apply parse_compact_member.
Qed.

Lemma POST_body_reads_back_witness :
  Json.parse Samples.numerals
    (Route.body (Route.json_response Samples.numerals 200
                   (Json.Obj [("response", Json.Str "done")])))
  = Some (Json.Obj [("response", Json.Str "done")]).
Proof.
  destruct (POST_body_reads_back Samples.numerals Samples.model
              {| Route.json := Route.Resolved (Json.Obj [("prompt", Json.Str "Hello")]) |}
              (Route.json_response Samples.numerals 200
                 (Json.Obj [("response", Json.Str "done")]))
              {| Route.agent_calls := [Some (Json.Str "Hello")]; Route.logged := [] |}
              eq_refl)
    as [_ [(_ & full & text & _ & G & P) | [[S _] | [S _]]]].
  - injection G as <-. exact P.
  - discriminate S.
  - discriminate S.
Defined.

(** ** [path.extname]: the extension starts with a dot *)
Section ExtnameFacts.
Import Path.
Local Open Scope Z_scope.

Variable path : string.

Lemma ext_step_inv (n : Z) (st : ext_state) (c : ascii) :
  0 < n -> n <= Z.of_nat (String.length path) ->
  String.get (Z.to_nat (n - 1)) path = Some c ->
  DetectType.ext_inv path n st -> DetectType.ext_inv path (n - 1) (ext_step st (n - 1, c)).
Proof.
  unfold DetectType.ext_inv. intros Hn Hlen Hc [Hf Hs].
  assert (W : DetectType.ext_inv path (n - 1) st).
  { split; [destruct Hf as [Hf|Hf]; [now left | right; lia]|].
    destruct Hs as [Hs|Hs]; [now left | right; repeat split; try tauto; lia]. }
  unfold ext_step. destruct (stopped st); [exact W|].
  destruct (Ascii.eqb c "/").
  { destruct (negb (matchedSlash st)); [|exact W].
    destruct W as [W1 W2]. split; cbn [finish startDot]; assumption. }
  set (st1 := if finish st =? -1 then _ else st).
  assert (I1 : (n - 1 < finish st1 /\ finish st1 <= Z.of_nat (String.length path))
               /\ startDot st1 = startDot st
               /\ (startDot st = -1
                   \/ (0 <= startDot st /\ n - 1 <= startDot st
                       /\ startDot st < finish st1
                       /\ String.get (Z.to_nat (startDot st)) path = Some "."%char))).
  { unfold st1. destruct (Z.eqb_spec (finish st) (-1)) as [E|E]; cbn [finish startDot].
    - split; [lia|]. split; [reflexivity|].
      destruct Hs as [Hs|Hs]; [now left | lia].
    - destruct Hf as [Hf|Hf]; [contradiction|]. split; [lia|]. split; [reflexivity|].
      destruct Hs as [Hs|Hs]; [now left | right; repeat split; try tauto; lia]. }
  destruct I1 as (F1 & S1 & D1).
  destruct (Ascii.eqb c ".") eqn:Dot.
  - apply Ascii.eqb_eq in Dot. subst c.
    destruct (Z.eqb_spec (startDot st1) (-1)) as [E|E].
    + split; cbn [finish startDot]; [right; lia|].
      right. repeat split; try lia. exact Hc.
    + destruct (negb (preDotState st1 =? 1)); split; cbn [finish startDot];
        try (right; lia); rewrite ?S1; exact D1.
  - destruct (negb (startDot st1 =? -1)); split; cbn [finish startDot];
      try (right; lia); rewrite ?S1; exact D1.
Qed.

Lemma fold_ext_inv (s : string) :
  forall (k : Z) (st : ext_state),
    0 <= k ->
    k + Z.of_nat (String.length s) <= Z.of_nat (String.length path) ->
    (forall j c, String.get j s = Some c ->
                 String.get (Z.to_nat k + j) path = Some c) ->
    DetectType.ext_inv path (k + Z.of_nat (String.length s)) st ->
    DetectType.ext_inv path k (fold_left ext_step (rev (indexed k s)) st).
Proof.
  induction s as [|c s IH]; intros k st Hk Hlen Hget Hinv.
  - cbn [String.length Z.of_nat indexed rev fold_left] in *.
    now rewrite Z.add_0_r in Hinv.
  - cbn [indexed rev]. rewrite fold_left_app. cbn [fold_left].
    replace k with (k + 1 - 1) at 1 3 by lia.
    apply ext_step_inv.
    + lia.
    + cbn [String.length] in Hlen. lia.
    + replace (k + 1 - 1) with k by lia.
      specialize (Hget 0%nat c eq_refl). now rewrite Nat.add_0_r in Hget.
    + apply IH.
      * lia.
      * cbn [String.length] in Hlen. lia.
      * intros j d Hj. specialize (Hget (S j) d Hj).
        replace (Z.to_nat (k + 1) + j)%nat with (Z.to_nat k + S j)%nat by lia.
        exact Hget.
      * cbn [String.length] in Hinv.
        replace (k + 1 + Z.of_nat (String.length s))
          with (k + Z.of_nat (S (String.length s))) by lia.
        exact Hinv.
Qed.

End ExtnameFacts.

Section ExtensionFacts.
Import Path.

Lemma get_drop (n : nat) (s : string) (c : ascii) :
  String.get n s = Some c -> exists t, Js.drop n s = String c t.
Proof.
  revert s. induction n as [|n IH]; intros [|a s]; cbn; try discriminate.
  - intros H. injection H as <-. eauto.
  - apply IH.
Qed.

(** The extension is empty or starts with a dot. *)
Lemma extname_dot (path : string) :
  extname path = "" \/ exists s, extname path = String "." s.
Proof.
  unfold extname.
  set (init := {| startDot := -1; startPart := 0; finish := -1;
                  matchedSlash := true; preDotState := 0; stopped := false |}).
  pose proof (fold_ext_inv path path 0%Z init (Z.le_refl 0)) as Inv.
  cbn [Z.to_nat Nat.add Z.add] in Inv.
  specialize (Inv (Z.le_refl _) (fun j c H => H)).
  assert (I0 : DetectType.ext_inv path (Z.of_nat (String.length path)) init)
    by (split; left; reflexivity).
  specialize (Inv I0). clear I0.
  set (st := fold_left ext_step (rev (indexed 0 path)) init) in *.
  destruct (Z.eqb_spec (startDot st) (-1)) as [E|E]; [now left|].
  cbn [orb]. destruct (_ || _)%bool; [now left|]. right.
  destruct Inv as [Hfin [Hs|(H0 & _ & Hlt & Hget)]]; [contradiction|].
  destruct Hfin as [Hf|[_ Hf]]; [lia|].
  unfold Js.slice, Js.relative_index.
  destruct (Z.ltb_spec (startDot st) 0); [lia|].
  destruct (Z.ltb_spec (finish st) 0); [lia|].
  rewrite !Z.min_l by lia.
  destruct (get_drop _ _ _ Hget) as [t Ht]. rewrite Ht.
  destruct (Z.to_nat (Z.max (finish st - startDot st) 0)) as [|m] eqn:M; [lia|].
  cbn [Js.take]. eauto.
Qed.

Lemma lower_dot (s : string) :
  (s = "" \/ exists t, s = String "." t) ->
  Js.toLowerCase s = "" \/ exists t, Js.toLowerCase s = String "." t.
Proof.
  intros [-> | [t ->]]; [now left|]. right. cbn [Js.toLowerCase]. eauto.
Qed.

End ExtensionFacts.

Section DetectFacts.
Import DetectType JsObject.

(** No key of [Object.prototype] is empty or starts with a dot. *)
Lemma prototype_not_dotted (ext : string) :
  (ext = "" \/ exists t, ext = String "." t) -> object_prototype ext = Absent.
Proof. intros [-> | [t ->]]; reflexivity. Qed.

Lemma detect_label (ext : string) :
  (ext = "" \/ exists t, ext = String "." t) ->
  exists l, detect ext = Label l /\ In l labels
            /\ (l = "unknown" <-> get_own typeMap ext = None).
Proof.
  intros H. unfold detect. rewrite (prototype_not_dotted ext H). unfold typeMap.
  cbn [get_own].
  repeat match goal with
         | |- context [String.eqb ?a ext] =>
             destruct (String.eqb a ext);
             [eexists; split; [reflexivity|];
              split; [cbn; tauto | split; discriminate] |]
         end.
  eexists. split; [reflexivity|]. split; [cbn; tauto | split; reflexivity].
Qed.

End DetectFacts.

(** X18: the type that detect_document_type reports is always one of the
    labels txt, markdown, json, csv, html, pdf and unknown, and it is unknown
    exactly when the lower-cased extension is no key of the type map: the
    look-up in the plain object never answers with a member inherited from
    [Object.prototype], because an extension is empty or starts with a dot.
    The stat failure and the two protected paths give the error object. *)
Theorem detect_type_is_a_label (statSync : string -> Io.fs_result DetectType.Stats)
        (path : string) :
  match DetectType.detect_document_type statSync path with
  | DetectType.DetectOk d =>
      Agent.protected_path path = false
      /\ DetectType.filePath d = path
      /\ DetectType.extension d = Js.toLowerCase (Path.extname path)
      /\ (exists stats, statSync path = Io.FsOk stats
                        /\ DetectType.sizeBytes d = DetectType.size stats
                        /\ DetectType.lastModified d = DetectType.mtime stats)
      /\ exists l, DetectType.type d = DetectType.Label l
                   /\ In l DetectType.labels
                   /\ (l = "unknown"
                       <-> JsObject.get_own DetectType.typeMap (DetectType.extension d)
                           = None)
  | DetectType.DetectError e p =>
      p = path
      /\ ((Agent.protected_path path = true /\ e = "Cannot analyze protected path")
          \/ (Agent.protected_path path = false /\ statSync path = Io.FsThrow e))
  end.
Proof.
  unfold DetectType.detect_document_type.
  destruct (Agent.protected_path path); [split; [reflexivity | left; now split]|].
  destruct (statSync path) as [stats|msg]; [|split; [reflexivity | right; now split]].
  cbn [DetectType.filePath DetectType.extension DetectType.sizeBytes
       DetectType.lastModified DetectType.type].
  repeat split; [eauto|].
  apply detect_label, lower_dot, extname_dot.
Qed.

(** ** What the tools do to the file system *)
Section FrameFacts.
Import Io Frame.

Lemma read_only_refl (w : World) : read_only w w.
Proof.
  split; [repeat split|]. exists []. rewrite app_nil_r. repeat split. cbn. lia.
Qed.

Lemma read_only_record (w : World) (op : fs_op) :
  is_read op = true -> read_only w (record op w).
Proof.
  intros H. split; [repeat split|]. exists [op]. cbn [record log forallb List.length].
  rewrite H. repeat split. lia.
Qed.

End FrameFacts.

(** X19: list_files, read_file and extract_text_content only read: after
    each of them the files, the directories and the clock are what they were,
    and the tool has made at most one file-system call, a read. *)
Theorem reading_tools_read_only (w : Io.World) (lib : ExtractText.Library)
        (generatedPath : option string) (path : string) :
  Frame.read_only w (snd (ListFiles.list_files generatedPath w))
  /\ Frame.read_only w (snd (ReadFile.read_file path w))
  /\ Frame.read_only w (snd (ExtractText.extract_text_content lib path w)).
Proof.
  split; [|split].
  - unfold ListFiles.list_files, ListFiles.read_directory, Io.bind, Io.readdirSync.
    destruct generatedPath as [p|].
    + destruct (Agent.protected_path p); [apply read_only_refl|].
      destruct (Io.dirs w _); now apply read_only_record.
    + destruct (Io.dirs w _); now apply read_only_record.
  - unfold ReadFile.read_file, Io.bind, Io.readFileSync_utf8.
    destruct (Io.files w path); now apply read_only_record.
  - unfold ExtractText.extract_text_content.
    destruct (Agent.protected_path path); [apply read_only_refl|].
    destruct (String.eqb _ ".pdf").
    + unfold Io.bind, Io.readFileSync.
      destruct (Io.buffers w path) as [bytes|m]; [|now apply read_only_record].
      destruct (ExtractText.pdf lib bytes); now apply read_only_record.
    + unfold Io.bind, Io.readFileSync_utf8.
      destruct (Io.files w path); now apply read_only_record.
Qed.


Section SaveCompose.
Import Json JsObject SaveAnalysis.

Variable rt : Numerals.

Lemma faithful_read_finite (n : number) :
  faithful rt n -> is_finite (of_string rt (to_string rt n)) = true.
Proof.
  intros (Hf & _ & He). unfold SFeqb in He.
  destruct (of_string rt (to_string rt n)) as [s| [|] | |s m e], n as [s'| [|] | |s' m' e'];
    try reflexivity; try discriminate Hf; cbn in He;
    try discriminate He; destruct s'; discriminate He.
Qed.

Lemma serialize_read_back (gap indent : string) (v : value) :
  (forall n, v = Num n -> faithful rt n /\ JsonCase.stable rt n) ->
  serialize rt gap indent (read_back rt v) = serialize rt gap indent v.
Proof.
  destruct v as [| |n| | |]; try reflexivity. intros H.
  destruct (H n eq_refl) as [Hf Hs]. cbn [read_back serialize].
  rewrite (faithful_read_finite n Hf), Hs. now destruct Hf as [-> _].
Qed.

(** Printing what was read back gives the text that was read. *)
Lemma stringify_read_members (o : props value) :
  Forall (fun kv => forall n, snd kv = Num n -> faithful rt n /\ JsonCase.stable rt n) o ->
  stringify_2 rt (Obj (map (read_member rt) o)) = stringify_2 rt (Obj o).
Proof.
  intros H. unfold stringify_2. cbn [serialize]. rewrite map_map. do 3 f_equal.
  apply map_ext_in. intros kv Hin. rewrite Forall_forall in H.
  unfold read_member. cbn [fst snd]. f_equal. apply serialize_read_back, H, Hin.
Qed.

Lemma payload_numbers (a : analysisData) (ts : string) :
  faithful rt (wordCount a) -> JsonCase.stable rt (wordCount a) ->
  Forall (fun kv => forall n, snd kv = Num n -> faithful rt n /\ JsonCase.stable rt n)
         (payload a ts).
Proof.
  intros Hf Hs. rewrite payload_shape. unfold to_object.
  destruct (keyPoints a), (entities a), (topics a); cbn [optional app];
    repeat (constructor; [cbn [snd]; intros n E; try discriminate E;
                          injection E as <-; now split|]);
    constructor.
Qed.

Lemma payload_reindent (a : analysisData) (ts : string) :
  faithful rt (wordCount a) -> JsonCase.stable rt (wordCount a) ->
  JsonCase.reindent rt (stringify_2 rt (Obj (payload a ts)))
  = Some (stringify_2 rt (Obj (payload a ts))).
Proof.
  intros Hf Hs. unfold JsonCase.reindent.
  rewrite (payload_reads_back rt a ts Hf), <- payload_read_back.
  now rewrite (stringify_read_members _ (payload_numbers a ts Hf Hs)).
Qed.

End SaveCompose.

(** X21: what save_analysis has written, read_file returns: after a successful
    save, read_file on the output path answers with the text that was
    written, which reads back as the object of the given properties in the
    order of the schema (the word count as a Number equal to the one given)
    followed by [generatedAt], a valid ISO 8601 timestamp; nothing is logged
    to the console. *)
Theorem read_file_returns_saved_analysis (rt : Json.Numerals) (w : Io.World)
        (a : SaveAnalysis.analysisData) (outputPath : string) :
  Io.write_error w outputPath = None ->
  (- DateTime.maxTime <= Io.now w <= DateTime.maxTime)%Z ->
  Json.faithful rt (SaveAnalysis.wordCount a) ->
  exists text generatedAt n,
    fst (JsonCase.save_then_read rt a outputPath w)
    = (SaveAnalysis.Saved outputPath, (ReadFile.ReadOk outputPath text, []))
    /\ Json.parse rt text
       = Some (Json.Obj (SaveAnalysis.to_object (SaveAnalysis.with_wordCount a n)
                           ++ [("generatedAt", Json.Str generatedAt)]))
    /\ SFeqb n (SaveAnalysis.wordCount a) = true
    /\ DateTime.iso8601 generatedAt = true.
Proof.
  intros Hw Hnow Hn.
  destruct (toISOString_valid (Io.now w) Hnow) as (ts & Hts & Hiso).
  exists (Json.stringify_2 rt (Json.Obj (SaveAnalysis.payload a ts))), ts,
         (Json.of_string rt (Json.to_string rt (SaveAnalysis.wordCount a))).
  split.
  - unfold JsonCase.save_then_read, SaveAnalysis.save_analysis, Io.bind, Io.date_now,
      Io.writeFileSync.
    rewrite Hts, Hw. cbn [Io.ret]. unfold ReadFile.read_file, Io.bind, Io.readFileSync_utf8.
    cbn [Io.files Io.record]. unfold Io.put. rewrite String.eqb_refl. reflexivity.
  - split; [|split; [exact (proj2 (proj2 Hn)) | exact Hiso]].
    rewrite (payload_reads_back rt a ts Hn). now rewrite payload_shape.
Qed.

Lemma read_file_returns_saved_analysis_witness :
  exists text generatedAt n,
    fst (JsonCase.save_then_read Samples.numerals Samples.analysis "out.json"
           Samples.world)
    = (SaveAnalysis.Saved "out.json", (ReadFile.ReadOk "out.json" text, []))
    /\ Json.parse Samples.numerals text
       = Some (Json.Obj (SaveAnalysis.to_object
                           (SaveAnalysis.with_wordCount Samples.analysis n)
                           ++ [("generatedAt", Json.Str generatedAt)]))
    /\ SFeqb n (SaveAnalysis.wordCount Samples.analysis) = true
    /\ DateTime.iso8601 generatedAt = true.
Proof.
  apply (read_file_returns_saved_analysis Samples.numerals Samples.world
           Samples.analysis "out.json").
  - reflexivity.
  - vm_compute. split; discriminate.
  - repeat split; reflexivity.
Defined.

(** X22: extract_text_content gives back a saved analysis as it was written:
    on an output path whose extension is .json, the text extracted after a
    successful save is exactly the text that save_analysis wrote;
    re-indenting it changes nothing. *)
Theorem extract_returns_saved_analysis (rt : Json.Numerals)
        (pdf : string -> Io.fs_result string) (w : Io.World)
        (a : SaveAnalysis.analysisData) (outputPath : string) :
  Io.write_error w outputPath = None ->
  (- DateTime.maxTime <= Io.now w <= DateTime.maxTime)%Z ->
  Json.faithful rt (SaveAnalysis.wordCount a) ->
  JsonCase.stable rt (SaveAnalysis.wordCount a) ->
  Js.toLowerCase (Path.extname outputPath) = ".json" ->
  exists text,
    Io.files (snd (SaveAnalysis.save_analysis rt a outputPath w)) outputPath
    = Io.FsOk text
    /\ fst (JsonCase.save_then_extract rt (JsonCase.library rt pdf) a outputPath w)
       = (SaveAnalysis.Saved outputPath,
          ExtractText.ExtractOk
            {| ExtractText.filePath := outputPath;
               ExtractText.extractedText := text;
               ExtractText.wordCount := ExtractText.count_words text;
               ExtractText.isPdf := false |}).
Proof.
  intros Hw Hnow Hn Hs Hext.
  destruct (toISOString_valid (Io.now w) Hnow) as (ts & Hts & Hiso).
  exists (Json.stringify_2 rt (Json.Obj (SaveAnalysis.payload a ts))).
  unfold JsonCase.save_then_extract, SaveAnalysis.save_analysis, Io.bind, Io.date_now,
    Io.writeFileSync.
  rewrite Hts, Hw. cbn [Io.ret fst snd Io.files Io.record].
  unfold Io.put at 1. rewrite String.eqb_refl. split; [reflexivity|].
  unfold ExtractText.extract_text_content.
  rewrite extname_not_protected by (intros E; rewrite E in Hext; discriminate).
  rewrite Hext. cbn [String.eqb Ascii.eqb Bool.eqb andb orb].
  unfold Io.bind, Io.readFileSync_utf8. cbn [Io.files Io.record].
  unfold Io.put. rewrite String.eqb_refl. cbn [fst Io.ret].
  cbn [JsonCase.library ExtractText.json_reindent].
  rewrite (payload_reindent rt a ts Hn Hs). reflexivity.
Qed.

Lemma extract_returns_saved_analysis_witness :
  exists text,
    Io.files (snd (SaveAnalysis.save_analysis Samples.numerals Samples.analysis
                     "out.json" Samples.world)) "out.json"
    = Io.FsOk text
    /\ fst (JsonCase.save_then_extract Samples.numerals
              (JsonCase.library Samples.numerals (fun _ => Io.FsThrow "no PDF"))
              Samples.analysis "out.json" Samples.world)
       = (SaveAnalysis.Saved "out.json",
          ExtractText.ExtractOk
            {| ExtractText.filePath := "out.json";
               ExtractText.extractedText := text;
               ExtractText.wordCount := ExtractText.count_words text;
               ExtractText.isPdf := false |}).
Proof.
  apply (extract_returns_saved_analysis Samples.numerals (fun _ => Io.FsThrow "no PDF")
           Samples.world Samples.analysis "out.json").
  - reflexivity.
  - vm_compute. split; discriminate.
  - repeat split; reflexivity.
  - reflexivity.
  - vm_compute. reflexivity.
Defined.

Section TagFacts.
Import Regex Text Tags.

(** A greedy run whose continuation fails inside the run stops at its end. *)
Lemma greedy_stops (p : ascii -> bool) (k : cont) :
  (forall pr ch s i, p ch = true -> k {| prev := pr; rest := String ch s; pos := i |} = None) ->
  forall s pr i, greedy p k pr s i = k (past_run p pr s i).
Proof.
  intros H s. induction s as [|ch s IH]; intros pr i; [reflexivity|].
  cbn [greedy past_run]. destruct (p ch) eqn:E; [|reflexivity].
  rewrite IH. destruct (k (past_run p (Some ch) s (S i))) eqn:K; [reflexivity|].
  now apply H.
Qed.

Lemma class_not_gt (c : ascii) :
  class_matches false {| invert := true; items := [One ">"] |} c = not_gt c.
Proof. destruct c as [[] [] [] [] [] [] [] []]; reflexivity. Qed.

Lemma greedy_ext (p q : ascii -> bool) (k : cont) :
  (forall c, p c = q c) -> forall s pr i, greedy p k pr s i = greedy q k pr s i.
Proof.
  intros H s. induction s as [|ch s IH]; intros pr i; [reflexivity|].
  cbn [greedy]. now rewrite H, IH.
Qed.

(** A tag is matched at a [<] that a [>] follows, up to the first such [>]. *)
Lemma match_tag (pr : option ascii) (ch : ascii) (s : string) (i : nat) :
  match_here false ExtractText.tag_re {| prev := pr; rest := String ch s; pos := i |}
  = if Ascii.eqb ch "<" then
      match skip_run not_gt s with
      | EmptyString => None
      | String d t =>
          Some {| prev := Some d; rest := t;
                  pos := S (S i + (String.length s - String.length (skip_run not_gt s))) |}
      end
    else None.
Proof.
  unfold match_here, ExtractText.tag_re. cbn [Agent.seqs compile].
  unfold lit at 1. cbn [compile rest pos]. rewrite class_one, (Ascii.eqb_sym "<" ch).
  destruct (Ascii.eqb ch "<"); [|reflexivity].
  change (ncls [One ">"]) with (Chr {| invert := true; items := [One ">"] |}).
  rewrite compile_star_class. cbn [prev rest pos].
  rewrite (greedy_ext _ not_gt _ class_not_gt).
  rewrite greedy_stops.
  - pose proof (past_run_rest not_gt s (Some ch) (S i)) as Hr.
    pose proof (past_run_pos not_gt s (Some ch) (S i)) as Hp.
    destruct (past_run not_gt (Some ch) s (S i)) as [pe re ie]. cbn [rest pos] in *.
    subst re ie. unfold lit. cbn [compile rest pos].
    destruct (skip_run not_gt s) as [|d t] eqn:Sk; [reflexivity|].
    rewrite class_one.
    assert (D : Ascii.eqb ">" d = true).
    { clear -Sk. induction s as [|c s IH]; [discriminate|]. cbn [skip_run] in Sk.
      destruct (not_gt c) eqn:N; [now apply IH|]. injection Sk as -> _.
      unfold not_gt in N. apply negb_false_iff in N. now rewrite Ascii.eqb_sym. }
    rewrite D. reflexivity.
  - intros pr' c s' i' Hc. unfold lit. cbn [compile rest pos]. rewrite class_one.
    unfold not_gt in Hc. apply negb_true_iff in Hc. now rewrite Ascii.eqb_sym, Hc.
Qed.

Lemma has_gt_skip (s : string) :
  has_gt s = match skip_run not_gt s with EmptyString => false | String _ _ => true end.
Proof.
  induction s as [|c s IH]; [reflexivity|]. cbn [has_gt skip_run].
  unfold not_gt, is_gt. destruct (Ascii.eqb c ">"); [reflexivity|]. exact IH.
Qed.

(** Inside a tag the text is dropped up to the first [>]. *)
Lemma strip_in_tag (by_ : string) (s : string) :
  strip by_ true s
  = match skip_run not_gt s with
    | EmptyString => EmptyString
    | String _ t => strip by_ false t
    end.
Proof.
  induction s as [|c s IH]; [reflexivity|]. cbn [strip skip_run].
  unfold not_gt, is_gt. destruct (Ascii.eqb c ">"); [reflexivity|]. exact IH.
Qed.

Lemma splice_tags (by_ : string) (n : nat) :
  forall s pre j i pr fuel,
    String.length s <= n ->
    i = j + String.length pre ->
    String.length s < fuel ->
    splice (pre ++ s) j
           (matches_from fuel false ExtractText.tag_re
              {| prev := pr; rest := s; pos := i |})
           (fun _ => by_)
    = pre ++ strip by_ false s.
Proof.
  induction n as [|n IH]; intros s pre j i pr fuel Hn Hi Hf;
    (destruct fuel as [|fuel]; [lia|]).
  - destruct s; [|cbn in Hn; lia]. reflexivity.
  - destruct s as [|ch s]; [reflexivity|].
    cbn [matches_from scan_from prev rest pos scan]. rewrite match_tag.
    cbn [strip String.length] in *. rewrite has_gt_skip.
    assert (Skip : splice (pre ++ String ch s) j
                     (matches_from (S fuel) false ExtractText.tag_re
                        {| prev := Some ch; rest := s; pos := S i |}) (fun _ => by_)
                   = pre ++ String ch (strip by_ false s)).
    { pose proof (IH s (pre ++ String ch "") j (S i) (Some ch) (S fuel)) as H.
      rewrite !append_assoc in H. cbn [append] in H.
      apply H; [lia | rewrite length_append; cbn; lia | lia]. }
    destruct (Ascii.eqb ch "<") eqn:L; [|exact Skip].
    pose proof (length_skip_run not_gt s) as Hlen.
    pose proof (drop_skip_run not_gt s) as Hdrop.
    destruct (skip_run not_gt s) as [|d t] eqn:Sk; [exact Skip|].
    cbn [andb pos]. cbn [String.length] in *.
    replace (Nat.eqb (S (S i + (String.length s - S (String.length t)))) i) with false
      by (symmetry; apply Nat.eqb_neq; lia).
    cbn [splice pos]. replace (i - j) with (String.length pre) by lia.
    rewrite take_append.
    replace (S (S i + (String.length s - S (String.length t))) - j)
      with (String.length pre + S (S (String.length s - S (String.length t)))) by lia.
    rewrite drop_append_length.
    change (Js.drop (S (S (String.length s - S (String.length t)))) (String ch s))
      with (Js.drop (S (String.length s - S (String.length t))) s).
    assert (Dt : Js.drop (S (String.length s - S (String.length t))) s = t).
    { replace (S (String.length s - S (String.length t)))
        with (String.length s - S (String.length t) + 1) by lia.
      rewrite <- drop_drop, Hdrop. reflexivity. }
    rewrite Dt.
    pose proof (IH t "" (S (S i + (String.length s - S (String.length t))))
                  (S (S i + (String.length s - S (String.length t)))) (Some d) fuel) as H.
    cbn [append] in H. rewrite H; [| lia | cbn; lia | lia].
    rewrite strip_in_tag, Sk. reflexivity.
Qed.

(** [s.replace(/<[^>]*>/g, by)] *)
Lemma replace_tags (by_ : string) (s : string) :
  replace_global false ExtractText.tag_re (fun _ => by_) s = strip by_ false s.
Proof.
  unfold replace_global, all_matches, start_of.
  apply (splice_tags by_ (String.length s) s "" 0 0 None); [lia | reflexivity | lia].
Qed.

Lemma has_gt_strip (s : string) :
  has_gt s = false -> forall b, has_gt (strip " " b s) = false.
Proof.
  induction s as [|c s IH]; intros H b; [reflexivity|]. cbn [has_gt] in H.
  apply orb_false_iff in H as [Hc H]. cbn [strip]. rewrite Hc, H, andb_false_r.
  destruct b; [now apply IH|]. cbn [has_gt]. rewrite Hc. now apply IH.
Qed.

Lemma no_tag_strip (s : string) :
  forall b, no_tag (strip " " b s) = true.
Proof.
  induction s as [|c s IH]; intros b; [reflexivity|]. cbn [strip].
  destruct b; [destruct (is_gt c); apply IH|].
  destruct (Ascii.eqb c "<" && has_gt s)%bool eqn:E.
  - cbn [append no_tag]. change (Ascii.eqb " " "<") with false. cbn [negb orb andb].
    apply IH.
  - cbn [no_tag]. rewrite IH, andb_true_r.
    apply andb_false_iff in E as [E|E]; [now rewrite E|].
    now rewrite (has_gt_strip s E false), orb_true_r.
Qed.

Lemma space_not_bracket (c : ascii) :
  Js.is_space c = true -> Ascii.eqb c "<" = false /\ is_gt c = false.
Proof. destruct c as [[] [] [] [] [] [] [] []]; intros H; first [discriminate H | now split]. Qed.

Lemma has_gt_squeeze (s : string) :
  forall b, has_gt (squeeze Js.is_space " " b s) = has_gt s.
Proof.
  induction s as [|c s IH]; intros b; [reflexivity|]. cbn [squeeze has_gt].
  destruct (Js.is_space c) eqn:E.
  - destruct (space_not_bracket c E) as [_ G]. rewrite G. cbn [orb].
    destruct b; [apply IH|]. cbn [append has_gt]. apply IH.
  - cbn [has_gt]. now rewrite IH.
Qed.

Lemma no_tag_squeeze (s : string) :
  no_tag s = true -> forall b, no_tag (squeeze Js.is_space " " b s) = true.
Proof.
  induction s as [|c s IH]; intros H b; [reflexivity|]. cbn [no_tag] in H.
  apply andb_true_iff in H as [Hc H]. cbn [squeeze].
  destruct (Js.is_space c) eqn:E.
  - destruct b; [now apply IH|]. cbn [append no_tag].
    change (Ascii.eqb " " "<") with false. cbn [negb orb andb]. now apply IH.
  - cbn [no_tag]. rewrite has_gt_squeeze, Hc. now apply IH.
Qed.

Lemma no_tag_trimStart (s : string) : no_tag s = true -> no_tag (Js.trimStart s) = true.
Proof.
  induction s as [|c s IH]; [reflexivity|]. cbn [no_tag Js.trimStart]. intros H.
  destruct (Js.is_space c); [|exact H].
  apply andb_true_iff in H as [_ H]. now apply IH.
Qed.

Lemma has_gt_trimEnd (s : string) : has_gt (Js.trimEnd s) = has_gt s.
Proof.
  induction s as [|c s IH]; [reflexivity|]. cbn [Js.trimEnd has_gt].
  destruct (Js.trimEnd s) as [|d t] eqn:T.
  - rewrite <- IH. cbn [has_gt]. rewrite orb_false_r.
    destruct (Js.is_space c) eqn:E; [|cbn [has_gt]; now rewrite orb_false_r].
    now rewrite (proj2 (space_not_bracket c E)).
  - cbn [has_gt] in *. now rewrite IH.
Qed.

Lemma no_tag_trimEnd (s : string) : no_tag s = true -> no_tag (Js.trimEnd s) = true.
Proof.
  induction s as [|c s IH]; [reflexivity|]. cbn [no_tag Js.trimEnd]. intros H.
  apply andb_true_iff in H as [Hc H]. specialize (IH H).
  pose proof (has_gt_trimEnd s) as G.
  destruct (Js.trimEnd s) as [|d t] eqn:T.
  - destruct (Js.is_space c); [reflexivity|]. cbn [no_tag has_gt].
    now rewrite orb_true_r.
  - cbn [no_tag]. rewrite G, Hc. exact IH.
Qed.

Lemma html_to_text_no_tag (raw : string) : no_tag (ExtractText.html_to_text raw) = true.
Proof.
  unfold ExtractText.html_to_text, Js.trim. rewrite replace_spaces, replace_tags.
  apply no_tag_trimEnd, no_tag_trimStart, no_tag_squeeze, no_tag_strip.
Qed.

End TagFacts.

(** X23: the text extracted from a file whose extension is .html or .htm (in
    any letter case) holds no complete tag: none of its [<] is followed,
    anywhere after it, by a [>]. *)
Theorem extract_html_has_no_tag (lib : ExtractText.Library) (w : Io.World)
        (path raw : string) :
  Js.toLowerCase (Path.extname path) = ".html"
  \/ Js.toLowerCase (Path.extname path) = ".htm" ->
  Io.files w path = Io.FsOk raw ->
  exists text,
    fst (ExtractText.extract_text_content lib path w)
    = ExtractText.ExtractOk
        {| ExtractText.filePath := path; ExtractText.extractedText := text;
           ExtractText.wordCount := ExtractText.count_words text;
           ExtractText.isPdf := false |}
    /\ Tags.no_tag text = true.
Proof.
  intros Hext Hfile. exists (ExtractText.html_to_text raw).
  split; [|apply html_to_text_no_tag].
  unfold ExtractText.extract_text_content.
  rewrite extname_not_protected
    by (intros E; rewrite E in Hext; destruct Hext; discriminate).
  destruct Hext as [-> | ->]; cbn [String.eqb Ascii.eqb Bool.eqb andb orb];
    unfold Io.bind, Io.readFileSync_utf8; rewrite Hfile; reflexivity.
Qed.

Lemma extract_html_has_no_tag_witness :
  exists text,
    fst (ExtractText.extract_text_content Samples.library "a.html"
           {| Io.files := fun _ => Io.FsOk "x > y <b>bold</b> and <i";
              Io.buffers := Io.buffers Samples.world;
              Io.dirs := Io.dirs Samples.world;
              Io.write_error := fun _ => None; Io.now := 0; Io.log := [] |})
    = ExtractText.ExtractOk
        {| ExtractText.filePath := "a.html"; ExtractText.extractedText := text;
           ExtractText.wordCount := ExtractText.count_words text;
           ExtractText.isPdf := false |}
    /\ Tags.no_tag text = true.
Proof.
  apply (extract_html_has_no_tag Samples.library _ "a.html"
           "x > y <b>bold</b> and <i").
  - left. vm_compute. reflexivity.
  - reflexivity.
Defined.

(** ** search_document: the letter case of the query *)
Section QueryCase.
Import Regex Search.






End QueryCase.


Section TopicKeyFacts.
Import JsObject Analyze TopicKeys.

Lemma prototype_accessor (w : string) :
  match object_prototype w with ProtoAccessor => storable w = false | _ => storable w = true end.
Proof.
  unfold object_prototype, storable.
  destruct (existsb (String.eqb w) _) eqn:E.
  - apply existsb_exists in E. destruct E as (x & Hx & E). apply String.eqb_eq in E. subst x.
    cbn in Hx. repeat (destruct Hx as [<-|Hx]; [reflexivity|]). destruct Hx.
  - destruct (String.eqb w "__proto__"); reflexivity.
Qed.

(** One turn of the loop adds the token to the keys unless it is there or is
    [__proto__]. *)
Lemma bump_key_set (freq : props fval) (w : string) :
  map fst (bump freq w)
  = if storable w then set_add (map fst freq) w else map fst freq.
Proof.
  unfold bump. pose proof (prototype_accessor w) as P.
  destruct (object_prototype w); rewrite P; try reflexivity;
    rewrite set_own_keys; reflexivity.
Qed.

Lemma fold_bump_key_set (l : list string) :
  forall acc,
    map fst (fold_left bump l acc) = fold_left set_add (filter storable l) (map fst acc).
Proof.
  induction l as [|w l IH]; intros acc; [reflexivity|].
  cbn [fold_left filter]. rewrite IH, bump_key_set.
  destruct (storable w); reflexivity.
Qed.

(** The keys of the frequency object: the distinct counted tokens other than
    [__proto__], in the order of their first occurrence. *)
Lemma frequencies_key_list (ws : list string) :
  map fst (frequencies ws) = distinct_tokens ws.
Proof.
  unfold frequencies, distinct_tokens. rewrite fold_left_filter, fold_bump_key_set.
  cbn [map]. fold (new_Set (filter storable (filter counted ws))).
  now rewrite new_Set_first_occurrences, first_occurrences_filter.
Qed.

Lemma topics_of_keys (ws : list string) :
  exists ranked,
    extract_topics ws = firstn 10 ranked /\ Permutation ranked (distinct_tokens ws).
Proof.
  exists (map fst (sort by_count (entries (frequencies ws)))).
  split; [unfold extract_topics; now rewrite firstn_map|].
  rewrite <- frequencies_key_list. apply Permutation_map.
  rewrite sort_perm. apply entries_perm.
Qed.

End TopicKeyFacts.

(** X25: in the modes [full] and [topics_only] the topics are the first ten of
    a ranking of all distinct counted tokens other than [__proto__], which a
    plain object cannot hold as a key and which is therefore never a topic.
    So there are ten topics, or as many as there are such tokens; and when
    these are at most ten, every one of them is a topic. *)
Theorem topics_cover_the_tokens (content : string) (t : Analyze.analyzeType) :
  t = Analyze.full \/ t = Analyze.topics_only ->
  exists obj ts,
    Analyze.analyze_document content t = Analyze.AnalysisData obj
    /\ Analyze.topics obj = Some ts
    /\ List.length ts
       = Nat.min 10 (List.length (TopicKeys.distinct_tokens (Analyze.words content)))
    /\ ~ In "__proto__" ts
    /\ (List.length (TopicKeys.distinct_tokens (Analyze.words content)) <= 10 ->
        Permutation ts (TopicKeys.distinct_tokens (Analyze.words content))).
Proof.
  intros Ht. do 2 eexists. split; [reflexivity|]. cbn [Analyze.topics].
  replace (Analyze.wants_topics t) with true by (destruct Ht; subst; reflexivity).
  split; [reflexivity|].
  destruct (topics_of_keys (Analyze.words content)) as (ranked & -> & P).
  pose proof (Permutation_length P) as L.
  split; [now rewrite length_firstn, L|]. split.
  - intros H. apply In_firstn in H. apply (Permutation_in _ P) in H.
    unfold TopicKeys.distinct_tokens in H. apply filter_In in H as [_ H]. discriminate H.
  - intros Hl. rewrite firstn_all2 by lia. exact P.
Qed.

Lemma topics_cover_the_tokens_witness :
  exists obj ts,
    Analyze.analyze_document "alpha __proto__ beta alpha" Analyze.topics_only
    = Analyze.AnalysisData obj
    /\ Analyze.topics obj = Some ts
    /\ List.length ts = 2
    /\ ~ In "__proto__" ts.
Proof.
  destruct (topics_cover_the_tokens "alpha __proto__ beta alpha" Analyze.topics_only)
    as (obj & ts & H1 & H2 & H3 & H4 & _).
  - right. reflexivity.
  - exists obj, ts. split; [exact H1|]. split; [exact H2|]. split; [exact H3 | exact H4].
Defined.

(** X26: the errors of extract_text_content.  The two protected paths are
    refused without a read.  On a path whose extension is .pdf every failure
    carries the prefix [PDF parse error: ], a failure to read the file as
    much as a failure of the parser; on any other path the error is the
    message of the failed read, and there is no other error. *)
Theorem extract_errors (lib : ExtractText.Library) (w : Io.World) (path : string)
        (e p : string) :
  fst (ExtractText.extract_text_content lib path w) = ExtractText.ExtractError e p ->
  p = path
  /\ ((Agent.protected_path path = true /\ e = "Cannot read protected path"
       /\ snd (ExtractText.extract_text_content lib path w) = w)
      \/ (Agent.protected_path path = false
          /\ Js.toLowerCase (Path.extname path) = ".pdf"
          /\ exists m, e = "PDF parse error: " ++ m
                       /\ (Io.buffers w path = Io.FsThrow m
                           \/ exists bytes, Io.buffers w path = Io.FsOk bytes
                                            /\ ExtractText.pdf lib bytes = Io.FsThrow m))
      \/ (Agent.protected_path path = false
          /\ Js.toLowerCase (Path.extname path) <> ".pdf"
          /\ Io.files w path = Io.FsThrow e)).
Proof.
  unfold ExtractText.extract_text_content.
  destruct (Agent.protected_path path).
  { cbn [fst snd Io.ret]. intros H. injection H as <- <-. split; [reflexivity|]. left.
    repeat split. }
  destruct (String.eqb_spec (Js.toLowerCase (Path.extname path)) ".pdf") as [E|E].
  - unfold Io.bind, Io.readFileSync. destruct (Io.buffers w path) as [bytes|m] eqn:B.
    + destruct (ExtractText.pdf lib bytes) as [text|m] eqn:P; cbn [fst Io.ret];
        [discriminate|].
      intros H. injection H as <- <-. split; [reflexivity|]. right. left.
      split; [reflexivity|]. split; [exact E|].
      exists m. split; [reflexivity|]. right. eauto.
    + cbn [fst Io.ret]. intros H. injection H as <- <-. split; [reflexivity|].
      right. left. split; [reflexivity|]. split; [exact E|].
      exists m. split; [reflexivity | now left].
  - unfold Io.bind, Io.readFileSync_utf8. destruct (Io.files w path) as [raw|m] eqn:F;
      cbn [fst Io.ret]; [discriminate|].
    intros H. injection H as <- <-. split; [reflexivity|]. right. right.
    split; [reflexivity|]. split; [exact E | reflexivity].
Qed.

Lemma extract_errors_witness :
  exists m,
    "PDF parse error: ENOENT: no such file or directory" = "PDF parse error: " ++ m
    /\ Io.buffers Samples.world "report.PDF" = Io.FsThrow m.
Proof.
  destruct (extract_errors Samples.library Samples.world "report.PDF"
              "PDF parse error: ENOENT: no such file or directory" "report.PDF" eq_refl)
    as [_ [(P & _) | [(_ & _ & m & Hm & [B | (bytes & B & _)]) | (_ & E & _)]]].
  - discriminate P.
  - exists m. now split.
  - discriminate B.
  - exfalso. apply E. reflexivity.
Defined.

(** ** The definitions on concrete inputs *)
Section Checks.
Import Regex.

Example extname_examples :
  map Path.extname
      ["index.html"; "index.coffee.md"; "index."; "index"; ".index"; ".index.md";
       "dir.d/file"; "a/b.HTM/"; ".git"; "node_modules"]
  = [".html"; ".md"; "."; ""; ""; ".md"; ""; ".HTM"; ""; ""].
Proof. vm_compute. reflexivity. Qed.

Example split_examples :
  split false Analyze.sentence_re ".abc..de!f?" = [""; "abc"; "de"; "f"; ""]
  /\ split false Agent.spaces_re "" = [""]
  /\ Agent.split_words " a  b " = ["a"; "b"].
Proof. repeat split; vm_compute; reflexivity. Qed.

Example entity_patterns :
  match_global false Analyze.caps_re "Hello World fooBar Baz9 A Le_ Xy"
  = ["Hello"; "World"; "Xy"]
  /\ match_global false Analyze.phone_re
       "call +12345678901 or 0123456789012345 or 123456789"
     = ["+12345678901"; "01234567890"]
  /\ match_global false Analyze.email_re "a.b@c.de, x@y, me+tag@host.example.com."
     = ["a.b@c.de"; "me+tag@host.example.com"]
  /\ match_global false Analyze.url_re "see http://a.b/c?d=e and https://x.y. httpx://no"
     = ["http://a.b/c?d=e"; "https://x.y."].
Proof. repeat split; vm_compute; reflexivity. Qed.

Example html_example :
  ExtractText.html_to_text
    "<SCRIPT type=x>if (a<b) {}</ScRiPt>A<br/>B <script>1</script> <i>c</i>"
  = "A B c".
Proof. vm_compute. reflexivity. Qed.

Example analysis_example :
  Analyze.analyze_document
    "Hello World from Alice Smith. Contact alice@example.com today! See https://example.com/x for details."
    Analyze.full
  = Analyze.AnalysisData
      {| Analyze.wordCount := 12;
         Analyze.summary :=
           Some "Hello World from Alice Smith. See https://example. com/x for details.";
         Analyze.entities :=
           Some ["Hello"; "World"; "Alice"; "Smith"; "Contact"; "See";
                 "alice@example.com"; "https://example.com/x"];
         Analyze.topics :=
           Some ["hello"; "world"; "from"; "alice"; "smith"; "contact";
                 "aliceexamplecom"; "today"; "httpsexamplecomx"; "details"] |}.
Proof. vm_compute. reflexivity. Qed.

Example toISOString_examples :
  map DateTime.toISOString
      [0; 951782400000; -1; 253402300799999; 253402300800000; -62167219200000;
       -62167219200001; 8640000000000000; 8640000000000001]%Z
  = [Json.Normal "1970-01-01T00:00:00.000Z"; Json.Normal "2000-02-29T00:00:00.000Z";
     Json.Normal "1969-12-31T23:59:59.999Z"; Json.Normal "9999-12-31T23:59:59.999Z";
     Json.Normal "+010000-01-01T00:00:00.000Z"; Json.Normal "0000-01-01T00:00:00.000Z";
     Json.Normal "-000001-12-31T23:59:59.999Z";
     Json.Normal "+275760-09-13T00:00:00.000Z"; Json.Throw "Invalid time value"].
Proof. vm_compute. reflexivity. Qed.

Example stringify_example :
  Json.stringify Samples.numerals
    (Json.Obj [("b", Json.Arr [Json.Null; Json.Bool true]); ("10", Json.Str "x");
               ("9", Json.Obj [])])
  = "{" ++ Samples.q ++ "9" ++ Samples.q ++ ":{}," ++ Samples.q ++ "10" ++ Samples.q
        ++ ":" ++ Samples.q ++ "x" ++ Samples.q ++ "," ++ Samples.q ++ "b" ++ Samples.q
        ++ ":[null,true]}".
Proof. vm_compute. reflexivity. Qed.

Example parse_examples :
  Json.parse Samples.numerals
    ("{" ++ Samples.q ++ "a" ++ Samples.q ++ ": [1, 2 ], " ++ Samples.q ++ "b"
         ++ Samples.q ++ ":{}, " ++ Samples.q ++ "a" ++ Samples.q ++ ": null}")
  = Some (Json.Obj [("a", Json.Null); ("b", Json.Obj [])])
  /\ Json.parse Samples.numerals "[1,]" = None
  /\ Json.parse Samples.numerals "01" = None
  /\ Json.parse Samples.numerals " [true , false,null ] "
     = Some (Json.Arr [Json.Bool true; Json.Bool false; Json.Null]).
Proof. repeat split; vm_compute; reflexivity. Qed.

End Checks.
